(** * Loss functions of [paddlespeech/t2s/modules/losses.py] in exact arithmetic

    The source file is a collection of closed-form loss formulas evaluated
    with tensor primitives.  This development embeds the formulas over the
    real numbers of the Standard Library: a tensor of rank [k] is a nested
    list of depth [k] (row-major, as the framework stores it) or, where the
    code relies on broadcasting, a shape with row-major data; an integer
    tensor is a nested list of [Z] or [nat], and a Python object with mutable
    fields is a record threaded through its methods.  Floating-point rounding
    is outside the model: every statement below is about the formulas the code
    writes down. *)

From Stdlib Require Import String Reals Lra Lia Arith ZArith Bool List.
Import ListNotations.

Open Scope R_scope.

(** ** Tensor primitives *)

Module Paddle.

Definition T1 := list R.
Definition T2 := list T1.
Definition T3 := list T2.
Definition T4 := list T3.

(** [paddle.sum] of a rank-1 tensor. *)
Definition Rsum (l : list R) : R := fold_right Rplus 0 l.

(** [paddle.arange(0, n)] cast to the floating dtype. *)
Definition arange (n : nat) : T1 := map INR (seq 0 n).

(** Element-wise combination of two tensors of equal leading dimension. *)
Fixpoint zipWith {A B C : Type} (f : A -> B -> C) (xs : list A) (ys : list B)
  : list C :=
  match xs, ys with
  | x :: xs', y :: ys' => f x y :: zipWith f xs' ys'
  | _, _ => []
  end.

(** [enumerate]: the elements of a list paired with their positions. *)
Definition enumerate {A : Type} (xs : list A) : list (nat * A) :=
  combine (seq 0 (length xs)) xs.

Definition mul1 : T1 -> T1 -> T1 := zipWith Rmult.
Definition mul2 : T2 -> T2 -> T2 := zipWith mul1.
Definition mul3 : T3 -> T3 -> T3 := zipWith mul2.
Definition mul4 : T4 -> T4 -> T4 := zipWith mul3.

Definition flatten2 (x : T2) : T1 := concat x.
Definition flatten3 (x : T3) : T1 := concat (map flatten2 x).
Definition flatten4 (x : T4) : T1 := concat (map flatten3 x).

(** [paddle.mean] of all the entries of a tensor given by its flat data. *)
Definition mean (l : T1) : R := Rsum l / INR (length l).

(** [paddle.clip(x, min=lo)] on one entry. *)
Definition clip_min (lo x : R) : R := Rmax x lo.

(** [paddle.fluid.layers.sequence_mask(lens, maxlen)]: an integer tensor of
    shape (B, maxlen) with entry [1] at the positions [j < lens[i]]. *)
Definition sequence_mask (lens : list nat) (maxlen : nat) : list (list Z) :=
  map (fun len => map (fun j => if (j <? len)%nat then 1%Z else 0%Z) (seq 0 maxlen))
      lens.

(** Reading an entry; outside the tensor the default [0] is returned. *)
Definition get1 (x : T1) (i : nat) : R := nth i x 0.
Definition get2 (x : T2) (i j : nat) : R := get1 (nth i x []) j.
Definition get3 (x : T3) (i j k : nat) : R := get2 (nth i x []) j k.
Definition get4 (x : T4) (i j k l : nat) : R := get3 (nth i x []) j k l.

(** A tensor is rectangular of the given shape. *)
Definition has_shape1 (n : nat) (x : T1) : Prop := length x = n.
Definition has_shape2 (m n : nat) (x : T2) : Prop :=
  length x = m /\ Forall (has_shape1 n) x.
Definition has_shape3 (b m n : nat) (x : T3) : Prop :=
  length x = b /\ Forall (has_shape2 m n) x.
Definition has_shape4 (b c m n : nat) (x : T4) : Prop :=
  length x = b /\ Forall (has_shape3 c m n) x.

End Paddle.

Import Paddle.

(** ** Guided attention for Tacotron2: [attention_guide], [guided_attention_loss] *)

(** [attention_guide(dec_lens, enc_lens, N, T, g)].  [dec_pos] has shape (B, N)
    and [enc_pos] shape (B, T); the subtraction broadcasts (B, N, 1) against
    (B, 1, T).  In [-(d)**2 / (2*g**2)] the power binds tighter than the
    unary minus. *)
Definition attention_guide (dec_lens enc_lens : list nat) (N T : nat) (g : R)
  : T3 :=
  let dec_pos := map (fun len => map (fun n => n / INR len) (arange N)) dec_lens in
  let enc_pos := map (fun len => map (fun t => t / INR len) (arange T)) enc_lens in
  let W :=
    zipWith (fun dp ep =>
               map (fun d => map (fun e => 1 - exp (- ((d - e) ^ 2) / (2 * g ^ 2))) ep) dp)
            dec_pos enc_pos in
  let dec_mask := sequence_mask dec_lens N in
  let enc_mask := sequence_mask enc_lens T in
  let mask :=
    zipWith (fun dm em => map (fun a => map (fun b => (a * b)%Z) em) dm)
            dec_mask enc_mask in
  let mask := map (map (map IZR)) mask in
  mul3 W mask.

(** [guided_attention_loss(attention_weight, dec_lens, enc_lens, g)]; [N] and
    [T] are read off the shape of [attention_weight], which a nested list
    carries in its first batch entry. *)
Definition guided_attention_loss (attention_weight : T3)
           (dec_lens enc_lens : list nat) (g : R) : R :=
  let N := length (nth 0 attention_weight []) in
  let T := length (nth 0 (nth 0 attention_weight []) []) in
  let W := attention_guide dec_lens enc_lens N T g in
  let total_tokens := zipWith (fun d e => INR (d * e)) dec_lens enc_lens in
  mean (zipWith Rdiv (map (fun m => Rsum (flatten2 m)) (mul3 W attention_weight))
                total_tokens).

(** ** Errors raised by the Python code *)

Inductive exn : Type :=
| AssertionError
| ZeroDivisionError
| UnboundLocalError
| IndexError
| ValueError.

Inductive result (A : Type) : Type :=
| Ok (value : A)
| Raise (e : exn).
Arguments Ok {A}.
Arguments Raise {A}.

(** ** Tensors of any rank: shape and row-major data, with broadcasting *)

Module Tensor.

Record t : Type := mk {
  shape : list nat;
  data : list R
}.

Definition numel_of (s : list nat) : nat := fold_right Nat.mul 1%nat s.

(** [x.numel()]. *)
Definition numel (x : t) : nat := numel_of (shape x).

(** The data of a tensor fills its shape. *)
Definition wf (x : t) : Prop := length (data x) = numel x.

(** Broadcasting aligns the shapes on their last axes, so the shapes are
    handled last axis first. *)
Fixpoint broadcast_shapes_rev (s1 s2 : list nat) : option (list nat) :=
  match s1, s2 with
  | [], s => Some s
  | s, [] => Some s
  | d1 :: r1, d2 :: r2 =>
      match broadcast_shapes_rev r1 r2 with
      | None => None
      | Some r =>
          if (d1 =? d2)%nat then Some (d1 :: r)
          else if (d1 =? 1)%nat then Some (d2 :: r)
          else if (d2 =? 1)%nat then Some (d1 :: r)
          else None
      end
  end.

Definition broadcast_shapes (s1 s2 : list nat) : option (list nat) :=
  option_map (@rev nat) (broadcast_shapes_rev (rev s1) (rev s2)).

(** The multi-index (last axis first) of the flat position [k]. *)
Fixpoint unravel_rev (s : list nat) (k : nat) : list nat :=
  match s with
  | [] => []
  | d :: r => (k mod d)%nat :: unravel_rev r (k / d)%nat
  end.

(** The flat position in a tensor of shape [s] (last axis first) that a
    multi-index of the broadcast shape reads: an axis of size 1 is read at 0,
    and the leading axes the tensor lacks are ignored. *)
Fixpoint ravel_rev (s : list nat) (idx : list nat) : nat :=
  match s, idx with
  | d :: r, i :: idx' =>
      ((if (d =? 1)%nat then 0 else i) + d * ravel_rev r idx')%nat
  | _, _ => 0%nat
  end.

(** [x.broadcast_to(s)]. *)
Definition broadcast_to (x : t) (s : list nat) : t :=
  mk s (map (fun k => nth (ravel_rev (rev (shape x)) (unravel_rev (rev s) k))
                          (data x) 0)
            (seq 0 (numel_of s))).

(** An element-wise binary operation with broadcasting; the framework raises
    when the shapes are not compatible. *)
Definition binop (f : R -> R -> R) (a b : t) : result t :=
  match broadcast_shapes (shape a) (shape b) with
  | None => Raise ValueError
  | Some s => Ok (mk s (zipWith f (data (broadcast_to a s)) (data (broadcast_to b s))))
  end.

(** [paddle.sum(x)]: a tensor of shape (1,). *)
Definition sum (x : t) : t := mk [1%nat] [Rsum (data x)].

(** [paddle.mean(x)]: a tensor of shape (1,). *)
Definition mean (x : t) : t := mk [1%nat] [Paddle.mean (data x)].

(** Multiplication by a Python number. *)
Definition scale (x : t) (c : R) : t := mk (shape x) (map (fun v => v * c) (data x)).

Definition bind {A B : Type} (r : result A) (k : A -> result B) : result B :=
  match r with
  | Ok v => k v
  | Raise e => Raise e
  end.

End Tensor.

(** ** Guided attention loss module: [GuidedAttentionLoss] *)

(** [x.unsqueeze(axis)] on a shape; a negative axis counts from the end. *)
Definition unsqueeze_shape (s : list nat) (axis : Z) : list nat :=
  let k := if (axis <? 0)%Z
           then Z.to_nat (axis + Z.of_nat (length s) + 1)
           else Z.to_nat axis in
  firstn k s ++ 1%nat :: skipn k s.

(** [x.unsqueeze(axis)] of a tensor: the data stay as they are. *)
Definition unsqueeze (x : Tensor.t) (axis : Z) : Tensor.t :=
  Tensor.mk (unsqueeze_shape (Tensor.shape x) axis) (Tensor.data x).

Fixpoint shape_eqb (s1 s2 : list nat) : bool :=
  match s1, s2 with
  | [], [] => true
  | d1 :: r1, d2 :: r2 => (d1 =? d2)%nat && shape_eqb r1 r2
  | _, _ => false
  end.

(** Boolean tensors: shape and row-major data, with the broadcasting of
    [Tensor]. *)
Module Mask.

Record t : Type := mk {
  shape : list nat;
  data : list bool
}.

Definition unsqueeze (x : t) (axis : Z) : t :=
  mk (unsqueeze_shape (shape x) axis) (data x).

(** The entries of [x] read at the positions of a shape [s] that [x] is
    broadcast to. *)
Definition expand (x : t) (s : list nat) : list bool :=
  map (fun k => nth (Tensor.ravel_rev (rev (shape x))
                                      (Tensor.unravel_rev (rev s) k))
                    (data x) false)
      (seq 0 (Tensor.numel_of s)).

(** [x.broadcast_to(s)]: the framework raises unless every axis of [x] has
    the size of the axis of [s] it is aligned with, or size 1. *)
Definition broadcast_to (x : t) (s : list nat) : result t :=
  match Tensor.broadcast_shapes (shape x) s with
  | Some s' => if shape_eqb s' s then Ok (mk s (expand x s)) else Raise ValueError
  | None => Raise ValueError
  end.

(** [paddle.logical_and(a, b)], with broadcasting; the framework raises when
    the shapes are not compatible. *)
Definition logical_and (a b : t) : result t :=
  match Tensor.broadcast_shapes (shape a) (shape b) with
  | None => Raise ValueError
  | Some s => Ok (mk s (zipWith andb (expand a s) (expand b s)))
  end.

End Mask.

(** Modelled from the spec: [make_non_pad_mask] of
    [paddlespeech.t2s.modules.nets_utils], whose file is not part of the
    source tree.  The docstring of [_make_masks] shows what it yields: a
    boolean tensor of shape (B, max(lens)) that is true at [j < lens[i]]. *)
Definition make_non_pad_mask (lens : list nat) : Mask.t :=
  Mask.mk [length lens; list_max lens]
          (concat (map (fun len => map (fun j => (j <? len)%nat)
                                       (seq 0 (list_max lens)))
                       lens)).

(** [x.masked_select(mask)]: the entries of [x] at which [mask] holds, as a
    rank-1 tensor (both given by their flat data). *)
Definition masked_select (x : T1) (mask : list bool) : T1 :=
  map fst (filter snd (combine x mask)).

Definition zeros3 (b m n : nat) : T3 := repeat (repeat (repeat 0 n) m) b.

(** [dst[:olen, :ilen] = src] on one batch entry. *)
Definition assign_block (dst : T2) (olen ilen : nat) (src : T2) : T2 :=
  map (fun '(o, row) =>
         if (o <? olen)%nat
         then map (fun '(i, v) => if (i <? ilen)%nat then get2 src o i else v)
                  (enumerate row)
         else row)
      (enumerate dst).

(** [xs[idx] = f(xs[idx])]. *)
Fixpoint update_at {A : Type} (idx : nat) (f : A -> A) (xs : list A) : list A :=
  match xs, idx with
  | [], _ => []
  | x :: xs', O => f x :: xs'
  | x :: xs', S idx' => x :: update_at idx' f xs'
  end.

Module GuidedAttentionLoss.

(** The fields of the module; [G] and [M] are the types of the two cached
    masks. *)
Record t (G M : Type) : Type := mk {
  sigma : R;
  alpha : R;
  reset_always : bool;
  guided_attn_masks : option G;
  masks : option M
}.
Arguments mk {G M}.
Arguments sigma {G M}.
Arguments alpha {G M}.
Arguments reset_always {G M}.
Arguments guided_attn_masks {G M}.
Arguments masks {G M}.

(** [__init__(sigma, alpha, reset_always)]. *)
Definition init {G M : Type} (sigma alpha : R) (reset_always : bool) : t G M :=
  mk sigma alpha reset_always None None.

(** [_reset_masks]. *)
Definition _reset_masks {G M : Type} (self : t G M) : t G M :=
  mk (sigma self) (alpha self) (reset_always self) None None.

(** [_make_guided_attention_mask(ilen, olen, sigma)]: [grid_x] runs over the
    output positions and [grid_y] over the input positions. *)
Definition _make_guided_attention_mask (ilen olen : nat) (sigma : R) : T2 :=
  map (fun grid_x =>
         map (fun grid_y =>
                1 - exp (- ((grid_y / INR ilen - grid_x / INR olen) ^ 2)
                         / (2 * sigma ^ 2)))
             (arange ilen))
      (arange olen).

(** [_make_guided_attention_masks(ilens, olens)]. *)
Definition _make_guided_attention_masks (sigma : R) (ilens olens : list nat)
  : T3 :=
  let n_batches := length ilens in
  let max_ilen := list_max ilens in
  let max_olen := list_max olens in
  fold_left
    (fun acc '(idx, (ilen, olen)) =>
       update_at idx
         (fun m => assign_block m olen ilen
                     (_make_guided_attention_mask ilen olen sigma))
         acc)
    (enumerate (combine ilens olens))
    (zeros3 n_batches max_olen max_ilen).

(** What a call of [_make_guided_attention_masks] yields: [max] of an empty
    sequence raises, and otherwise the entries above are the data of a tensor
    of shape (n_batches, max_olen, max_ilen). *)
Definition guided_attention_masks_tensor (sigma : R) (ilens olens : list nat)
  : result Tensor.t :=
  match ilens, olens with
  | [], _ => Raise ValueError
  | _ :: _, [] => Raise ValueError
  | _ :: _, _ :: _ =>
      Ok (Tensor.mk [length ilens; list_max olens; list_max ilens]
                    (flatten3 (_make_guided_attention_masks sigma ilens olens)))
  end.

(** [_make_masks(ilens, olens)]: [out_masks.unsqueeze(-1)] of shape
    (B, T_out, 1) and [in_masks.unsqueeze(-2)] of shape (B, 1, T_in) under
    [paddle.logical_and]. *)
Definition _make_masks (ilens olens : list nat) : result Mask.t :=
  let in_masks := make_non_pad_mask ilens in
  let out_masks := make_non_pad_mask olens in
  Mask.logical_and (Mask.unsqueeze out_masks (-1)) (Mask.unsqueeze in_masks (-2)).

(** [GuidedAttentionLoss.forward(att_ws, ilens, olens)]: the module after the
    call and what the call returns or raises.  The masks are stored in the
    fields before the product with [att_ws], which raises on attention
    weights of an incompatible shape, and they are reset only after the loss
    has been computed. *)
Definition forward (self : t Tensor.t Mask.t) (att_ws : Tensor.t)
           (ilens olens : list nat)
  : t Tensor.t Mask.t * result R :=
  match (match guided_attn_masks self with
         | None => guided_attention_masks_tensor (sigma self) ilens olens
         | Some g => Ok g
         end) with
  | Raise e => (self, Raise e)
  | Ok g =>
      let self := mk (sigma self) (alpha self) (reset_always self)
                     (Some g) (masks self) in
      match (match masks self with
             | None => _make_masks ilens olens
             | Some m => Ok m
             end) with
      | Raise e => (self, Raise e)
      | Ok m =>
          let self := mk (sigma self) (alpha self) (reset_always self)
                         (guided_attn_masks self) (Some m) in
          match Tensor.binop Rmult g att_ws with
          | Raise e => (self, Raise e)
          | Ok losses =>
              match Mask.broadcast_to m (Tensor.shape losses) with
              | Raise e => (self, Raise e)
              | Ok mask =>
                  let loss := mean (masked_select (Tensor.data losses)
                                                  (Mask.data mask)) in
                  let self' := if reset_always self
                               then _reset_masks self else self in
                  (self', Ok (alpha self * loss))
              end
          end
      end
  end.

End GuidedAttentionLoss.

Module GuidedMultiHeadAttentionLoss.

Import GuidedAttentionLoss.

(** [GuidedMultiHeadAttentionLoss.forward(att_ws, ilens, olens)] with
    [att_ws] of shape (B, H, T_out, T_in): the body of the base class, with
    [.unsqueeze(1)] on the two masks it builds. *)
Definition forward (self : t Tensor.t Mask.t) (att_ws : Tensor.t)
           (ilens olens : list nat)
  : t Tensor.t Mask.t * result R :=
  match (match guided_attn_masks self with
         | None =>
             match guided_attention_masks_tensor (sigma self) ilens olens with
             | Raise e => Raise e
             | Ok g => Ok (unsqueeze g 1)
             end
         | Some g => Ok g
         end) with
  | Raise e => (self, Raise e)
  | Ok g =>
      let self := mk (sigma self) (alpha self) (reset_always self)
                     (Some g) (masks self) in
      match (match masks self with
             | None =>
                 match _make_masks ilens olens with
                 | Raise e => Raise e
                 | Ok m => Ok (Mask.unsqueeze m 1)
                 end
             | Some m => Ok m
             end) with
      | Raise e => (self, Raise e)
      | Ok m =>
          let self := mk (sigma self) (alpha self) (reset_always self)
                         (guided_attn_masks self) (Some m) in
          match Tensor.binop Rmult g att_ws with
          | Raise e => (self, Raise e)
          | Ok losses =>
              match Mask.broadcast_to m (Tensor.shape losses) with
              | Raise e => (self, Raise e)
              | Ok mask =>
                  let loss := mean (masked_select (Tensor.data losses)
                                                  (Mask.data mask)) in
                  let self' := if reset_always self
                               then _reset_masks self else self in
                  (self', Ok (alpha self * loss))
              end
          end
      end
  end.

End GuidedMultiHeadAttentionLoss.

(** ** Framework and library primitives the losses are written over

    The short-time Fourier transform, the window tables of scipy and the mel
    filter bank of librosa are not code of this file: they are taken as an
    interface. *)

Class Framework : Type := {
  (** [paddle.signal.stft(x, n_fft, hop_length, win_length, window, center,
      pad_mode, normalized, onesided)] on a batch of signals (B, T): a complex
      tensor (B, #freq_bins, #frames), each entry a pair (real, imag). *)
  paddle_signal_stft :
    T2 -> nat -> nat -> nat -> option T1 ->
    bool -> string -> bool -> bool -> list (list (list (R * R)));
  (** [scipy.signal.get_window(name, win_length, fftbins=True)]. *)
  get_window : string -> nat -> T1;
  (** [hasattr(scipy.signal.windows, name)]. *)
  has_window : string -> bool;
  (** [librosa.filters.mel(sr, n_fft, n_mels, fmin, fmax)]: (n_mels, #freq_bins). *)
  librosa_filters_mel : R -> nat -> nat -> R -> R -> T2
}.

(** [x.transpose([1, 0])] of a rank-2 tensor. *)
Fixpoint transpose {A : Type} (m : list (list A)) : list (list A) :=
  match m with
  | [] => []
  | row :: rest =>
      match rest with
      | [] => map (fun v => [v]) row
      | _ :: _ => zipWith cons row (transpose rest)
      end
  end.

(** [x.transpose([0, 2, 1])] of a rank-3 tensor. *)
Definition transpose_021 {A : Type} (x : list (list (list A)))
  : list (list (list A)) :=
  map transpose x.

Definition sub1 : T1 -> T1 -> T1 := zipWith Rminus.
Definition sub2 : T2 -> T2 -> T2 := zipWith sub1.
Definition sub3 : T3 -> T3 -> T3 := zipWith sub2.

(** [paddle.norm(x, p="fro")] over all the entries. *)
Definition norm_fro (x : T1) : R := sqrt (Rsum (map (fun v => v ^ 2) x)).

(** [F.l1_loss(a, b)] with the default reduction [mean]. *)
Definition l1_loss (a b : T1) : R := mean (map Rabs (zipWith Rminus a b)).

(** Division and logarithm as partial operations: [None] where the exact
    operation has no value. *)
Definition checked_div (a b : R) : option R :=
  if Req_dec_T b 0 then None else Some (a / b).
Definition checked_log (x : R) : option R :=
  if Rlt_dec 0 x then Some (ln x) else None.

Fixpoint mapM {A B : Type} (f : A -> option B) (xs : list A) : option (list B) :=
  match xs with
  | [] => Some []
  | x :: xs' =>
      match f x, mapM f xs' with
      | Some y, Some ys => Some (y :: ys)
      | _, _ => None
      end
  end.

Section GANVocoderLosses.

Context {fw : Framework}.

(** [stft(x, fft_size, hop_length, win_length, window)] with the defaults
    [center=True], [pad_mode='reflect']: the magnitude spectrogram
    (B, #frames, #freq_bins). *)
Definition stft (x : T2) (fft_size hop_length win_length : nat) (window : string)
  : T3 :=
  let window := get_window window win_length in
  let x_stft :=
    paddle_signal_stft x fft_size hop_length win_length (Some window)
                       true "reflect" false true in
  transpose_021
    (map (map (map (fun c => sqrt (clip_min (1 / 10 ^ 7) (fst c ^ 2 + snd c ^ 2)))))
         x_stft).

(** [SpectralConvergenceLoss.forward(x_mag, y_mag)]. *)
Definition SpectralConvergenceLoss_forward (x_mag y_mag : T3) : R :=
  norm_fro (flatten3 (sub3 y_mag x_mag))
  / clip_min (1 / 10 ^ 10) (norm_fro (flatten3 y_mag)).

(** [LogSTFTMagnitudeLoss.forward(x_mag, y_mag)] with [epsilon]. *)
Definition LogSTFTMagnitudeLoss_forward (epsilon : R) (x_mag y_mag : T3) : R :=
  l1_loss (map ln (map (clip_min epsilon) (flatten3 y_mag)))
          (map ln (map (clip_min epsilon) (flatten3 x_mag))).

(** The same two losses with every division and logarithm checked. *)
Definition SpectralConvergenceLoss_forward_checked (x_mag y_mag : T3)
  : option R :=
  checked_div (norm_fro (flatten3 (sub3 y_mag x_mag)))
              (clip_min (1 / 10 ^ 10) (norm_fro (flatten3 y_mag))).

Definition LogSTFTMagnitudeLoss_forward_checked (epsilon : R) (x_mag y_mag : T3)
  : option R :=
  match mapM checked_log (map (clip_min epsilon) (flatten3 y_mag)),
        mapM checked_log (map (clip_min epsilon) (flatten3 x_mag)) with
  | Some ly, Some lx => Some (l1_loss ly lx)
  | _, _ => None
  end.

(** The fields of [STFTLoss]; the two sub-modules hold no data but the
    [epsilon] of [LogSTFTMagnitudeLoss]. *)
Record STFTLoss : Type := mkSTFTLoss {
  fft_size : nat;
  shift_size : nat;
  win_length : nat;
  window : string;
  epsilon : R
}.

(** [STFTLoss.__init__(fft_size, shift_size, win_length, window)]. *)
Definition STFTLoss_init (fft_size shift_size win_length : nat) (window : string)
  : STFTLoss :=
  mkSTFTLoss fft_size shift_size win_length window (1 / 10 ^ 7).

(** [STFTLoss.forward(x, y)]. *)
Definition STFTLoss_forward (self : STFTLoss) (x y : T2) : R * R :=
  let x_mag := stft x (fft_size self) (shift_size self) (win_length self) (window self) in
  let y_mag := stft y (fft_size self) (shift_size self) (win_length self) (window self) in
  let sc_loss := SpectralConvergenceLoss_forward x_mag y_mag in
  let mag_loss := LogSTFTMagnitudeLoss_forward (epsilon self) x_mag y_mag in
  (sc_loss, mag_loss).

Definition STFTLoss_forward_checked (self : STFTLoss) (x y : T2) : option (R * R) :=
  let x_mag := stft x (fft_size self) (shift_size self) (win_length self) (window self) in
  let y_mag := stft y (fft_size self) (shift_size self) (win_length self) (window self) in
  match SpectralConvergenceLoss_forward_checked x_mag y_mag,
        LogSTFTMagnitudeLoss_forward_checked (epsilon self) x_mag y_mag with
  | Some sc_loss, Some mag_loss => Some (sc_loss, mag_loss)
  | _, _ => None
  end.

(** The two inputs of [MultiResolutionSTFTLoss.forward]: both (B, T) or both
    (B, #subband, T), as its docstring has them. *)
Inductive signals : Type :=
| Signals2 (x y : T2)
| Signals3 (x y : T3).

(** [x.reshape([-1, x.shape[2]])] of a tensor (B, C, T): row-major, so the
    rows of the batch entries follow each other. *)
Definition reshape_rows (x : T3) : T2 := concat x.



(** [MultiResolutionSTFTLoss.forward(x, y)].  The accumulators start at [0.0];
    dividing them by [len(self.stft_losses)] raises when the list is empty. *)
Definition MultiResolutionSTFTLoss_forward (stft_losses : list STFTLoss)
           (xy : signals) : result (R * R) :=
  let '(x, y) := match xy with
                 | Signals2 x y => (x, y)
                 | Signals3 x y => (reshape_rows x, reshape_rows y)
                 end in
  let '(sc_loss, mag_loss) :=
    fold_left (fun '(sc_loss, mag_loss) f =>
                 let '(sc_l, mag_l) := STFTLoss_forward f x y in
                 (sc_loss + sc_l, mag_loss + mag_l))
              stft_losses (0, 0) in
  match length stft_losses with
  | O => Raise ZeroDivisionError
  | S _ => Ok (sc_loss / INR (length stft_losses),
               mag_loss / INR (length stft_losses))
  end.

End GANVocoderLosses.

(** ** Generator adversarial loss: [GeneratorAdversarialLoss] *)

Module GeneratorAdversarialLoss.

(** One discriminator's output: a tensor (given by its flat data), or a list
    or tuple of tensors whose last entry is the output proper (the feature-map
    case). *)
Inductive output : Type :=
| Tensor (x : T1)
| FeatureMaps (xs : list T1).

(** The argument of [forward]: a tensor, or a list or tuple of outputs. *)
Inductive outputs : Type :=
| One (x : T1)
| Many (os : list output).

(** [_mse_loss]: [F.mse_loss(x, paddle.ones_like(x))]. *)
Definition _mse_loss (x : T1) : R := mean (map (fun v => (v - 1) ^ 2) x).

(** [_hinge_loss]: [-x.mean()]. *)
Definition _hinge_loss (x : T1) : R := - mean x.

Record t : Type := mk {
  average_by_discriminators : bool;
  criterion : T1 -> R
}.

(** [__init__(average_by_discriminators, loss_type)]. *)
Definition init (average_by_discriminators : bool) (loss_type : string) : result t :=
  if String.eqb loss_type "mse" then Ok (mk average_by_discriminators _mse_loss)
  else if String.eqb loss_type "hinge" then Ok (mk average_by_discriminators _hinge_loss)
  else Raise AssertionError.

(** [xs[-1]]. *)
Definition last_entry {A : Type} (xs : list A) : result A :=
  match rev xs with
  | [] => Raise IndexError
  | x :: _ => Ok x
  end.

(** One turn of the loop [for i, outputs_ in enumerate(outputs)]: the state is
    the accumulator [adv_loss] and the loop variable [i], unbound ([None])
    before the first turn. *)
Definition loop_body (self : t) (st : result (R * option nat)) (io : nat * output)
  : result (R * option nat) :=
  match st with
  | Raise e => Raise e
  | Ok (adv_loss, _) =>
      let '(i, outputs_) := io in
      match outputs_ with
      | Tensor x => Ok (adv_loss + criterion self x, Some i)
      | FeatureMaps xs =>
          match last_entry xs with
          | Raise e => Raise e
          | Ok x => Ok (adv_loss + criterion self x, Some i)
          end
      end
  end.

(** [forward(outputs)]. *)
Definition forward (self : t) (o : outputs) : result R :=
  match o with
  | Many os =>
      match fold_left (loop_body self) (enumerate os) (Ok (0, None)) with
      | Raise e => Raise e
      | Ok (adv_loss, i) =>
          if average_by_discriminators self
          then match i with
               | None => Raise UnboundLocalError
               | Some i => Ok (adv_loss / INR (i + 1))
               end
          else Ok adv_loss
      end
  | One x => Ok (criterion self x)
  end.

(** The tensor the criterion is applied to for one discriminator. *)
Definition final_output (o : output) : T1 :=
  match o with
  | Tensor x => x
  | FeatureMaps xs => last xs []
  end.

Definition well_formed (o : output) : Prop :=
  match o with
  | Tensor _ => True
  | FeatureMaps xs => xs <> []
  end.

End GeneratorAdversarialLoss.

(** ** Mel spectrogram: [MelSpectrogram] *)

Module MelSpectrogram.

(** The function stored in the field [log]. *)
Inductive log_fn : Type :=
| paddle_log
| paddle_log2
| paddle_log10.

Definition apply_log (f : log_fn) (x : R) : R :=
  match f with
  | paddle_log => ln x
  | paddle_log2 => ln x / ln 2
  | paddle_log10 => ln x / ln 10
  end.

Record t : Type := mk {
  fft_size : nat;
  win_length : nat;
  hop_size : nat;
  center : bool;
  normalized : bool;
  onesided : bool;
  window : option string;
  eps : R;
  melmat : T2;
  log_base : option R;
  log : log_fn
}.

(** The input waveform of [forward]: (B, T) or (B, C, T). *)
Inductive waveform : Type :=
| Wave2 (x : T2)
| Wave3 (x : T3).

(** [paddle.matmul] of a batch of matrices with one matrix. *)
Definition matmul (a : T3) (b : T2) : T3 :=
  map (map (fun row => map (fun col => Rsum (zipWith Rmult row col)) (transpose b))) a.

Section WithFramework.

Context {fw : Framework}.

(** [__init__(fs, fft_size, hop_size, win_length, window, num_mels, fmin,
    fmax, center, normalized, onesided, eps, log_base)]. *)
Definition init (fs : R) (fft_size hop_size : nat) (win_length : option nat)
           (window : option string) (num_mels : nat) (fmin fmax : option R)
           (center normalized onesided : bool) (eps : R) (log_base : option R)
  : result t :=
  let win_length := match win_length with
                    | None => fft_size
                    | Some w => w
                    end in
  if match window with
     | Some w => negb (has_window w)
     | None => false
     end
  then Raise ValueError
  else
    let fmin := match fmin with None => 0 | Some f => f end in
    let fmax := match fmax with None => fs / 2 | Some f => f end in
    let melmat := librosa_filters_mel fs fft_size num_mels fmin fmax in
    let self log :=
      mk fft_size win_length hop_size center normalized onesided window eps
         (transpose melmat) log_base log in
    match log_base with
    | None => Ok (self paddle_log)
    | Some b =>
        if Req_dec_T b 2 then Ok (self paddle_log2)
        else if Req_dec_T b 10 then Ok (self paddle_log10)
        else Raise ValueError
    end.

(** The clipped mel spectrogram [x_mel] of [forward], shape (B, #frames, #mels). *)
Definition x_mel (self : t) (x : waveform) : T3 :=
  let x := match x with
           | Wave2 x => x
           | Wave3 x => concat x
           end in
  let window := match window self with
                | Some w => Some (get_window w (win_length self))
                | None => None
                end in
  let x_stft :=
    paddle_signal_stft x (fft_size self) (hop_size self) (win_length self) window
                       (center self) "reflect" (normalized self) (onesided self) in
  let real := transpose_021 (map (map (map fst)) x_stft) in
  let imag := transpose_021 (map (map (map snd)) x_stft) in
  let x_power :=
    zipWith (zipWith (zipWith (fun re im => re ^ 2 + im ^ 2))) real imag in
  let x_amp := map (map (map (fun p => sqrt (clip_min (eps self) p)))) x_power in
  let x_mel := matmul x_amp (melmat self) in
  map (map (map (clip_min (eps self)))) x_mel.

(** [forward(x)]: (B, #mels, #frames). *)
Definition forward (self : t) (x : waveform) : T3 :=
  transpose_021 (map (map (map (apply_log (log self)))) (x_mel self x)).

End WithFramework.

End MelSpectrogram.

(** ** Losses for SpeedySpeech: SSIM *)

(** [gaussian(window_size, sigma)]. *)
Definition gaussian (window_size : nat) (sigma : R) : T1 :=
  let gauss :=
    map (fun x => exp (- ((INR x - INR (window_size / 2)) ^ 2) / (2 * sigma ^ 2)))
        (seq 0 window_size) in
  map (fun v => v / Rsum gauss) gauss.

(** [create_window(window_size, channel)]: shape
    (channel, 1, window_size, window_size). *)
Definition create_window (window_size channel : nat) : T4 :=
  let _1D_window := gaussian window_size (15 / 10) in
  let _2D_window := map (fun a => map (fun b => a * b) _1D_window) _1D_window in
  repeat [_2D_window] channel.

(** An entry of a plane padded with [p] zeros on every side. *)
Definition padded_get (m : T2) (p y x : nat) : R :=
  if (p <=? y)%nat && (p <=? x)%nat then get2 m (y - p) (x - p) else 0.

(** One plane of [F.conv2d] with one kernel, stride 1 and zero padding [p]. *)
Definition conv2d_plane (m k : T2) (p : nat) : T2 :=
  let H := length m in
  let W := length (nth 0 m []) in
  let kh := length k in
  let kw := length (nth 0 k []) in
  map (fun y =>
         map (fun x =>
                Rsum (map (fun a =>
                             Rsum (map (fun b => get2 k a b * padded_get m p (y + a) (x + b))
                                       (seq 0 kw)))
                          (seq 0 kh)))
             (seq 0 (W + 2 * p + 1 - kw)))
      (seq 0 (H + 2 * p + 1 - kh)).

(** [F.conv2d(img, window, padding=p, groups=channel)] with a window of shape
    (channel, 1, kh, kw): channel [c] of the image is filtered with kernel [c]. *)
Definition conv2d (img window : T4) (p : nat) : T4 :=
  map (fun planes =>
         zipWith (fun plane kernel => conv2d_plane plane (nth 0 kernel []) p)
                 planes window)
      img.

Definition map4 (f : R -> R) (x : T4) : T4 := map (map (map (map f))) x.
Definition zipWith4 (f : R -> R -> R) (x y : T4) : T4 :=
  zipWith (zipWith (zipWith (zipWith f))) x y.

(** [x.mean(1)] of a tensor (B, C, ...): the entries along axis 1 are
    averaged; the remaining axes are read off the first slice. *)
Definition mean_axis1_4 (x : T4) : T3 :=
  map (fun xb =>
         let C := length xb in
         let H := length (nth 0 xb []) in
         let W := length (nth 0 (nth 0 xb []) []) in
         map (fun h =>
                map (fun w => Rsum (map (fun c => get3 xb c h w) (seq 0 C)) / INR C)
                    (seq 0 W))
             (seq 0 H))
      x.

Definition mean_axis1_3 (x : T3) : T2 :=
  map (fun xb =>
         let H := length xb in
         let W := length (nth 0 xb []) in
         map (fun w => Rsum (map (fun h => get2 xb h w) (seq 0 H)) / INR H)
             (seq 0 W))
      x.

Definition mean_axis1_2 (x : T2) : T1 :=
  map (fun xb => Rsum xb / INR (length xb)) x.

(** The map [ssim_map] of [_ssim]. *)
Definition ssim_map (img1 img2 window : T4) (window_size : nat) : T4 :=
  let mu1 := conv2d img1 window (window_size / 2) in
  let mu2 := conv2d img2 window (window_size / 2) in
  let mu1_sq := map4 (fun v => v ^ 2) mu1 in
  let mu2_sq := map4 (fun v => v ^ 2) mu2 in
  let mu1_mu2 := zipWith4 Rmult mu1 mu2 in
  let sigma1_sq :=
    zipWith4 Rminus (conv2d (zipWith4 Rmult img1 img1) window (window_size / 2)) mu1_sq in
  let sigma2_sq :=
    zipWith4 Rminus (conv2d (zipWith4 Rmult img2 img2) window (window_size / 2)) mu2_sq in
  let sigma12 :=
    zipWith4 Rminus (conv2d (zipWith4 Rmult img1 img2) window (window_size / 2)) mu1_mu2 in
  let C1 := (1 / 100) ^ 2 in
  let C2 := (3 / 100) ^ 2 in
  zipWith4 Rdiv
    (zipWith4 Rmult (map4 (fun v => 2 * v + C1) mu1_mu2)
                    (map4 (fun v => 2 * v + C2) sigma12))
    (zipWith4 Rmult (map4 (fun v => v + C1) (zipWith4 Rplus mu1_sq mu2_sq))
                    (map4 (fun v => v + C2) (zipWith4 Rplus sigma1_sq sigma2_sq))).

(** [_ssim(img1, img2, window, window_size, channel, size_average)]. *)
Definition _ssim (img1 img2 window : T4) (window_size channel : nat)
           (size_average : bool) : Tensor.t :=
  let ssim_map := ssim_map img1 img2 window window_size in
  if size_average
  then Tensor.mk [1%nat] [mean (flatten4 ssim_map)]
  else
    let per_example := mean_axis1_2 (mean_axis1_3 (mean_axis1_4 ssim_map)) in
    Tensor.mk [length per_example] per_example.

(** [ssim(img1, img2, window_size, size_average)]; [channel] is read off the
    shape of [img1], which a nested list carries in its first batch entry. *)
Definition ssim (img1 img2 : T4) (window_size : nat) (size_average : bool)
  : Tensor.t :=
  let channel := length (nth 0 img1 []) in
  let window := create_window window_size channel in
  _ssim img1 img2 window window_size channel size_average.

(** ** Masked means: [weighted_mean], [masked_l1_loss] *)

(** [weighted_mean(input, weight)]; the cast of [weight] to the dtype of
    [input] changes no exact value. *)
Definition weighted_mean (input weight : Tensor.t) : result Tensor.t :=
  let broadcast_ratio := INR (Tensor.numel input) / INR (Tensor.numel weight) in
  Tensor.bind (Tensor.binop Rmult input weight) (fun prod =>
  Tensor.binop Rdiv (Tensor.sum prod)
                    (Tensor.scale (Tensor.sum weight) broadcast_ratio)).

(** [F.l1_loss(prediction, target, reduction='none')]. *)
Definition l1_loss_none (prediction target : Tensor.t) : result Tensor.t :=
  Tensor.binop (fun p t => Rabs (p - t)) prediction target.

(** [masked_l1_loss(prediction, target, mask)]. *)
Definition masked_l1_loss (prediction target mask : Tensor.t) : result Tensor.t :=
  Tensor.bind (l1_loss_none prediction target) (fun abs_error =>
  weighted_mean abs_error mask).

(** ** Discriminator adversarial loss: [DiscriminatorAdversarialLoss] *)

Module DiscriminatorAdversarialLoss.

(** The two arguments of [forward], of one kind as the discriminators yield
    them for the generated and for the ground-truth signal: two tensors, two
    lists of tensors, or two lists of feature-map lists. *)
Inductive outputs : Type :=
| One (outputs_hat outputs : T1)
| Many (outputs_hat outputs : list T1)
| ManyFeatureMaps (outputs_hat outputs : list (list T1)).

(** [_mse_real_loss]: [F.mse_loss(x, paddle.ones_like(x))]. *)
Definition _mse_real_loss (x : T1) : R := mean (map (fun v => (v - 1) ^ 2) x).

(** [_mse_fake_loss]: [F.mse_loss(x, paddle.zeros_like(x))]. *)
Definition _mse_fake_loss (x : T1) : R := mean (map (fun v => (v - 0) ^ 2) x).

Record t : Type := mk {
  average_by_discriminators : bool;
  fake_criterion : T1 -> R;
  real_criterion : T1 -> R
}.

(** [__init__(average_by_discriminators, loss_type)]. *)
Definition init (average_by_discriminators : bool) (loss_type : string) : result t :=
  if String.eqb loss_type "mse"
  then Ok (mk average_by_discriminators _mse_fake_loss _mse_real_loss)
  else Raise AssertionError.

(** The state of the loop: [real_loss], [fake_loss] and the loop variable [i],
    unbound before the first turn. *)
Definition loop_state : Type := (R * R * option nat)%type.

(** One turn of the loop over [enumerate(zip(outputs_hat, outputs))] on a pair
    of tensors. *)
Definition loop_body (self : t) (st : result loop_state)
           (io : nat * (T1 * T1)) : result loop_state :=
  match st with
  | Raise e => Raise e
  | Ok (real_loss, fake_loss, _) =>
      let '(i, (outputs_hat_, outputs_)) := io in
      Ok (real_loss + real_criterion self outputs_,
          fake_loss + fake_criterion self outputs_hat_, Some i)
  end.

(** The same turn on a pair of feature-map lists, read at their last entry. *)
Definition loop_body_maps (self : t) (st : result loop_state)
           (io : nat * (list T1 * list T1)) : result loop_state :=
  match st with
  | Raise e => Raise e
  | Ok _ =>
      let '(i, (outputs_hat_, outputs_)) := io in
      match GeneratorAdversarialLoss.last_entry outputs_hat_ with
      | Raise e => Raise e
      | Ok h =>
          match GeneratorAdversarialLoss.last_entry outputs_ with
          | Raise e => Raise e
          | Ok o => loop_body self st (i, (h, o))
          end
      end
  end.

(** The averaging after the loop. *)
Definition finish (self : t) (st : result loop_state) : result (R * R) :=
  match st with
  | Raise e => Raise e
  | Ok (real_loss, fake_loss, i) =>
      if average_by_discriminators self
      then match i with
           | None => Raise UnboundLocalError
           | Some i => Ok (real_loss / INR (i + 1), fake_loss / INR (i + 1))
           end
      else Ok (real_loss, fake_loss)
  end.

(** [forward(outputs_hat, outputs)]: the pair (real_loss, fake_loss). *)
Definition forward (self : t) (o : outputs) : result (R * R) :=
  match o with
  | Many outputs_hat outputs =>
      finish self (fold_left (loop_body self)
                             (enumerate (combine outputs_hat outputs))
                             (Ok (0, 0, None)))
  | ManyFeatureMaps outputs_hat outputs =>
      finish self (fold_left (loop_body_maps self)
                             (enumerate (combine outputs_hat outputs))
                             (Ok (0, 0, None)))
  | One outputs_hat outputs =>
      Ok (real_criterion self outputs, fake_criterion self outputs_hat)
  end.

End DiscriminatorAdversarialLoss.

(** ** Feature matching loss: [FeatureMatchLoss] *)

Module FeatureMatchLoss.

Record t : Type := mk {
  average_by_layers : bool;
  average_by_discriminators : bool;
  include_final_outputs : bool
}.

(** [xs[:-1]]. *)
Definition drop_last {A : Type} (xs : list A) : list A := removelast xs.

(** The inner loop [for j, (feat_hat_, feat_) in enumerate(zip(...))]: the
    accumulator [feat_match_loss_] and the loop variable [j], which keeps the
    value it had before the loop when the loop makes no turn. *)
Definition inner_loop (layers : list (T1 * T1)) (j : option nat) : R * option nat :=
  fold_left (fun '(feat_match_loss_, _) '(j, (feat_hat_, feat_)) =>
               (feat_match_loss_ + l1_loss feat_hat_ feat_, Some j))
            (enumerate layers) (0, j).

(** One turn of the outer loop: the state is [feat_match_loss] and the loop
    variables [i] and [j]. *)
Definition outer_body (self : t) (st : result (R * option nat * option nat))
           (io : nat * (list T1 * list T1)) : result (R * option nat * option nat) :=
  match st with
  | Raise e => Raise e
  | Ok (feat_match_loss, _, j) =>
      let '(i, (feats_hat_, feats_)) := io in
      let '(feats_hat_, feats_) :=
        if include_final_outputs self
        then (feats_hat_, feats_)
        else (drop_last feats_hat_, drop_last feats_) in
      let '(feat_match_loss_, j) := inner_loop (combine feats_hat_ feats_) j in
      if average_by_layers self
      then match j with
           | None => Raise UnboundLocalError
           | Some j' =>
               Ok (feat_match_loss + feat_match_loss_ / INR (j' + 1), Some i, j)
           end
      else Ok (feat_match_loss + feat_match_loss_, Some i, j)
  end.

(** [forward(feats_hat, feats)]. *)
Definition forward (self : t) (feats_hat feats : list (list T1)) : result R :=
  match fold_left (outer_body self) (enumerate (combine feats_hat feats))
                  (Ok (0, None, None)) with
  | Raise e => Raise e
  | Ok (feat_match_loss, i, _) =>
      if average_by_discriminators self
      then match i with
           | None => Raise UnboundLocalError
           | Some i => Ok (feat_match_loss / INR (i + 1))
           end
      else Ok feat_match_loss
  end.

End FeatureMatchLoss.

(** ** Mel-spectrogram loss: [MelSpectrogramLoss] *)

Module MelSpectrogramLoss.

Section WithFramework.

Context {fw : Framework}.

(** [__init__]: the arguments are handed to [MelSpectrogram]. *)
Definition init (fs : R) (fft_size hop_size : nat) (win_length : option nat)
           (window : option string) (num_mels : nat) (fmin fmax : option R)
           (center normalized onesided : bool) (eps : R) (log_base : option R)
  : result MelSpectrogram.t :=
  MelSpectrogram.init fs fft_size hop_size win_length window num_mels fmin fmax
                      center normalized onesided eps log_base.

(** [forward(y_hat, y)]: [F.l1_loss] of the two mel spectrograms. *)
Definition forward (mel_spectrogram : MelSpectrogram.t)
           (y_hat y : MelSpectrogram.waveform) : R :=
  let mel_hat := MelSpectrogram.forward mel_spectrogram y_hat in
  let mel := MelSpectrogram.forward mel_spectrogram y in
  l1_loss (flatten3 mel_hat) (flatten3 mel).

End WithFramework.

End MelSpectrogramLoss.

(** ** Notions used in the statements *)

(** One entry of the guide before it is read through the tensor. *)
Definition guide_entry (g : R) (dec_len enc_len n t : nat) : R :=
  (1 - exp (- ((INR n / INR dec_len - INR t / INR enc_len) ^ 2) / (2 * g ^ 2)))
  * IZR ((if (n <? dec_len)%nat then 1 else 0) * (if (t <? enc_len)%nat then 1 else 0)).

(** A module used for a sequence of calls: the module after the last call and
    the values returned on the way. *)
Fixpoint run_calls {S A V : Type} (step : S -> A -> S * V) (self : S)
         (calls : list A) : S * list V :=
  match calls with
  | [] => (self, [])
  | a :: rest =>
      let '(self', v) := step self a in
      let '(self'', vs) := run_calls step self' rest in
      (self'', v :: vs)
  end.

(** [forward] of the two classes on one tuple of arguments. *)
Definition forward1 (self : GuidedAttentionLoss.t Tensor.t Mask.t)
           (a : Tensor.t * list nat * list nat) :=
  let '(att_ws, ilens, olens) := a in
  GuidedAttentionLoss.forward self att_ws ilens olens.

Definition forwardH (self : GuidedAttentionLoss.t Tensor.t Mask.t)
           (a : Tensor.t * list nat * list nat) :=
  let '(att_ws, ilens, olens) := a in
  GuidedMultiHeadAttentionLoss.forward self att_ws ilens olens.

(** A call that returns a value rather than raising. *)
Definition returns {V : Type} (r : result V) : Prop :=
  match r with
  | Ok _ => True
  | Raise _ => False
  end.

(** A later call on a module that has kept its masks: the attention weights
    of the call with the lengths of the call that built the masks. *)
Definition with_lengths_of (first a : Tensor.t * list nat * list nat)
  : Tensor.t * list nat * list nat :=
  (fst (fst a), snd (fst first), snd first).



(** A double sum over an index rectangle. *)
Definition dsum (la lb : list nat) (f : nat -> nat -> R) : R :=
  Rsum (map (fun a => Rsum (map (fun b => f a b) lb)) la).

(** The two-dimensional window every channel is filtered with. *)
Definition window2d (window_size : nat) : T2 :=
  let _1D_window := gaussian window_size (15 / 10) in
  map (fun a => map (fun b => a * b) _1D_window) _1D_window.

(** The entry (y, x) of a plane [m] filtered with the kernel [k] under zero
    padding [p]. *)
Definition conv_entry (m k : T2) (p y x : nat) : R :=
  dsum (seq 0 (length k)) (seq 0 (length (nth 0 k [])))
       (fun a b => get2 k a b * padded_get m p (y + a) (x + b)).

(** The numbers of rows and columns of a plane filtered with the window of
    [ssim]. *)
Definition out_rows (window_size : nat) (m : T2) : nat :=
  length m + 2 * (window_size / 2) + 1 - window_size.

Definition out_cols (window_size : nat) (m : T2) : nat :=
  length (nth 0 m []) + 2 * (window_size / 2) + 1 - window_size.

(** [plane * plane]. *)
Definition square_plane (m : T2) : T2 := map (map (fun v => v * v)) m.

(** The tensor whose entry at channel plane [plane] and position (y, x) is
    [f plane y x], laid out as [conv2d] lays out the filtered image. *)
Definition tabulate4 (img : T4) (channel window_size : nat)
           (f : T2 -> nat -> nat -> R) : T4 :=
  map (fun planes =>
         map (fun plane =>
                map (fun y => map (fun x => f plane y x)
                                  (seq 0 (out_cols window_size plane)))
                    (seq 0 (out_rows window_size plane)))
             (firstn channel planes))
      img.

(** The height and width of the filtered image. *)
Definition out_size (window_size n : nat) : nat :=
  (n + 2 * (window_size / 2) + 1 - window_size)%nat.

(** A framework whose transform of every signal is one frame with one
    frequency bin of value 1, and whose tables are those of
    [empty_framework]. *)
Definition unit_framework : Framework := {|
  paddle_signal_stft := fun _ _ _ _ _ _ _ _ _ => [[[(1, 0)]]];
  get_window := fun _ _ => [];
  has_window := fun _ => false;
  librosa_filters_mel := fun _ _ _ _ _ => [[1]]
|}.

(** The layers of one discriminator that [FeatureMatchLoss.forward] compares,
    the sum of their L1 losses, and what the discriminator adds to the loss
    (nothing when no layer is compared). *)
Definition compared_layers (self : FeatureMatchLoss.t) (p : list T1 * list T1)
  : list (T1 * T1) :=
  if FeatureMatchLoss.include_final_outputs self
  then combine (fst p) (snd p)
  else combine (FeatureMatchLoss.drop_last (fst p))
               (FeatureMatchLoss.drop_last (snd p)).

(** The compared layers of every pair of discriminators are tensors of one
    size, as [F.l1_loss] takes them. *)
Definition layers_match (self : FeatureMatchLoss.t)
           (pairs : list (list T1 * list T1)) : Prop :=
  Forall (fun p => Forall (fun ab => length (fst ab) = length (snd ab))
                          (compared_layers self p))
         pairs.

Definition layers_sum (layers : list (T1 * T1)) : R :=
  Rsum (map (fun ab => l1_loss (fst ab) (snd ab)) layers).

Definition discriminator_term (self : FeatureMatchLoss.t)
           (p : list T1 * list T1) : R :=
  let layers := compared_layers self p in
  if FeatureMatchLoss.average_by_layers self
  then match layers with
       | [] => 0
       | _ :: _ => layers_sum layers / INR (length layers)
       end
  else layers_sum layers.

(** The tensor whose entry at the pair of channel planes ([plane1], [plane2])
    of two images and position (y, x) is [f plane1 plane2 y x], laid out as
    [conv2d] lays out the filtered first image. *)
Definition tabulate4_pair (img1 img2 : T4) (channel window_size : nat)
           (f : T2 -> T2 -> nat -> nat -> R) : T4 :=
  zipWith (fun planes1 planes2 =>
             zipWith (fun plane1 plane2 =>
                        map (fun y => map (fun x => f plane1 plane2 y x)
                                          (seq 0 (out_cols window_size plane1)))
                            (seq 0 (out_rows window_size plane1)))
                     (firstn channel planes1) (firstn channel planes2))
          img1 img2.

(** * Properties *)

(** ** Lists as tensors *)

Section ListFacts.

Context {A B C : Type}.

Lemma zipWith_length (f : A -> B -> C) (xs : list A) (ys : list B) :
  length (zipWith f xs ys) = Nat.min (length xs) (length ys).
Proof.
  revert ys; induction xs as [|x xs IH]; intros [|y ys]; simpl; auto.
Qed.

Lemma zipWith_nth (f : A -> B -> C) (xs : list A) (ys : list B) i dx dy dz :
  (i < length xs)%nat -> (i < length ys)%nat ->
  nth i (zipWith f xs ys) dz = f (nth i xs dx) (nth i ys dy).
Proof.
  revert ys i; induction xs as [|x xs IH]; intros [|y ys] [|i]; simpl;
    intros; try lia; auto.
  apply IH; lia.
Qed.

Lemma zipWith_ext (f g : A -> B -> C) (xs : list A) (ys : list B) :
  (forall x y, In x xs -> In y ys -> f x y = g x y) ->
  zipWith f xs ys = zipWith g xs ys.
Proof.
  revert ys; induction xs as [|x xs IH]; intros [|y ys] H; simpl; auto.
  f_equal.
  - apply H; simpl; auto.
  - apply IH; intros; apply H; simpl; auto.
Qed.

Lemma zipWith_map_l {A' : Type} (f : A -> B -> C) (g : A' -> A) xs ys :
  zipWith f (map g xs) ys = zipWith (fun x y => f (g x) y) xs ys.
Proof.
  revert ys; induction xs as [|x xs IH]; intros [|y ys]; simpl; auto.
  now rewrite IH.
Qed.

Lemma zipWith_map_r {B' : Type} (f : A -> B -> C) (g : B' -> B) xs ys :
  zipWith f xs (map g ys) = zipWith (fun x y => f x (g y)) xs ys.
Proof.
  revert ys; induction xs as [|x xs IH]; intros [|y ys]; simpl; auto.
  now rewrite IH.
Qed.

Lemma map_zipWith {D : Type} (h : C -> D) (f : A -> B -> C) xs ys :
  map h (zipWith f xs ys) = zipWith (fun x y => h (f x y)) xs ys.
Proof.
  revert ys; induction xs as [|x xs IH]; intros [|y ys]; simpl; auto.
  now rewrite IH.
Qed.

Lemma zipWith_diag (f : A -> A -> C) (xs : list A) :
  zipWith f xs xs = map (fun x => f x x) xs.
Proof.
  induction xs as [|x xs IH]; simpl; auto.
  now rewrite IH.
Qed.

Lemma nth_map_lt (f : A -> B) (xs : list A) i d d' :
  (i < length xs)%nat -> nth i (map f xs) d = f (nth i xs d').
Proof.
  revert i; induction xs as [|x xs IH]; intros [|i]; simpl; intros; try lia; auto.
  apply IH; lia.
Qed.

End ListFacts.

Lemma nth_map_seq {A : Type} (f : nat -> A) (n i : nat) (d : A) :
  (i < n)%nat -> nth i (map f (seq 0 n)) d = f i.
Proof.
  intros Hi.
  rewrite (nth_map_lt f (seq 0 n) i d 0%nat) by (rewrite length_seq; exact Hi).
  now rewrite seq_nth.
Qed.

(** ** The attention guide *)

Lemma attention_guide_entries dec_lens enc_lens N T g :
  attention_guide dec_lens enc_lens N T g =
  zipWith (fun d e => map (fun n => map (guide_entry g d e n) (seq 0 T)) (seq 0 N))
          dec_lens enc_lens.
Proof.
  unfold attention_guide, mul3, mul2, mul1, sequence_mask, arange.
  rewrite !map_zipWith, !zipWith_map_l, !zipWith_map_r.
  revert enc_lens; induction dec_lens as [|d ds IH]; intros [|e es]; simpl; auto.
  f_equal; [|apply IH].
  rewrite !map_map, zipWith_map_l, zipWith_map_r, zipWith_diag.
  apply map_ext; intros n.
  rewrite !map_map, zipWith_map_l, zipWith_map_r, zipWith_diag.
  apply map_ext; intros t.
  reflexivity.
Qed.

Lemma attention_guide_shape dec_lens enc_lens N T g :
  length dec_lens = length enc_lens ->
  has_shape3 (length dec_lens) N T (attention_guide dec_lens enc_lens N T g).
Proof.
  intros Hlen. rewrite attention_guide_entries. split.
  - rewrite zipWith_length. lia.
  - clear Hlen. revert enc_lens.
    induction dec_lens as [|d ds IH]; intros [|e es]; simpl; constructor; auto.
    split.
    + now rewrite length_map, length_seq.
    + apply Forall_forall; intros row Hrow.
      apply in_map_iff in Hrow as (n & <- & _).
      unfold has_shape1. now rewrite length_map, length_seq.
Qed.

Lemma attention_guide_get dec_lens enc_lens N T g i n t :
  (i < length dec_lens)%nat -> (i < length enc_lens)%nat ->
  (n < N)%nat -> (t < T)%nat ->
  get3 (attention_guide dec_lens enc_lens N T g) i n t =
  guide_entry g (nth i dec_lens 0%nat) (nth i enc_lens 0%nat) n t.
Proof.
  intros Hd He Hn Ht. rewrite attention_guide_entries.
  unfold get3, get2, get1.
  rewrite (zipWith_nth (C := list (list R)) _ dec_lens enc_lens i 0%nat 0%nat)
    by assumption.
  rewrite nth_map_seq by assumption.
  now rewrite nth_map_seq by assumption.
Qed.

(** C1.  For positive decoder and encoder lengths of a batch of size B and
    g > 0, [attention_guide] yields a tensor of shape (B, N, T) whose entry
    (i, n, t) is 1 - exp(-(n/dec_lens[i] - t/enc_lens[i])^2 / (2 g^2)) inside
    the non-padded region n < dec_lens[i], t < enc_lens[i], and 0 at every
    position outside it. *)
Theorem attention_guide_spec (dec_lens enc_lens : list nat) (N T : nat) (g : R) :
  length dec_lens = length enc_lens ->
  Forall (fun len => (0 < len)%nat) dec_lens ->
  Forall (fun len => (0 < len)%nat) enc_lens ->
  0 < g ->
  let W := attention_guide dec_lens enc_lens N T g in
  has_shape3 (length dec_lens) N T W /\
  forall i n t,
    (i < length dec_lens)%nat -> (n < N)%nat -> (t < T)%nat ->
    let dec_len := nth i dec_lens 0%nat in
    let enc_len := nth i enc_lens 0%nat in
    ((n < dec_len)%nat /\ (t < enc_len)%nat ->
     get3 W i n t =
     1 - exp (- ((INR n / INR dec_len - INR t / INR enc_len) ^ 2) / (2 * g ^ 2)))
    /\ (~ ((n < dec_len)%nat /\ (t < enc_len)%nat) -> get3 W i n t = 0).
Proof.
  intros Hlen _ _ _ W. split.
  - now apply attention_guide_shape.
  - intros i n t Hi Hn Ht dec_len enc_len.
    unfold W. rewrite attention_guide_get by (try rewrite <- Hlen; assumption).
    fold dec_len enc_len. unfold guide_entry. split.
    + intros [Hnd Hte].
      apply Nat.ltb_lt in Hnd, Hte. rewrite Hnd, Hte. simpl. lra.
    + intros Hout.
      destruct (n <? dec_len)%nat eqn:E1; destruct (t <? enc_len)%nat eqn:E2;
        simpl; try lra.
      exfalso; apply Hout; split; now apply Nat.ltb_lt.
Qed.

Lemma attention_guide_spec_example :
  let W := attention_guide [2%nat; 1%nat] [1%nat; 2%nat] 2 2 (4 / 10) in
  has_shape3 2 2 2 W /\
  get3 W 0 1 0 = 1 - exp (- ((INR 1 / INR 2 - INR 0 / INR 1) ^ 2) / (2 * (4 / 10) ^ 2)) /\
  get3 W 0 1 1 = 0.
Proof.
  assert (Hpos : 0 < 4 / 10) by lra.
  assert (H21 : Forall (fun len => (0 < len)%nat) [2%nat; 1%nat])
    by (repeat constructor).
  assert (H12 : Forall (fun len => (0 < len)%nat) [1%nat; 2%nat])
    by (repeat constructor).
  destruct (attention_guide_spec [2%nat; 1%nat] [1%nat; 2%nat] 2 2 (4 / 10)
              eq_refl H21 H12 Hpos) as [Hshape Hget].
  split; [exact Hshape|].
  split.
  - apply (Hget 0%nat 1%nat 0%nat); simpl; lia.
  - apply (Hget 0%nat 1%nat 1%nat); simpl; lia.
Defined.

(** ** The cached masks of the guided attention loss *)

Lemma run_calls_fresh {S A V : Type} (step : S -> A -> S * V) (s0 : S) :
  (forall a, fst (step s0 a) = s0) ->
  forall calls,
    fst (run_calls step s0 calls) = s0 /\
    snd (run_calls step s0 calls) = map (fun a => snd (step s0 a)) calls.
Proof.
  intros Hfix calls. induction calls as [|a rest [IH1 IH2]]; simpl; auto.
  specialize (Hfix a). destruct (step s0 a) as [s' v]. simpl in Hfix. subst s'.
  destruct (run_calls step s0 rest) as [s'' vs]. simpl in *. subst. auto.
Qed.

Lemma run_calls_returning {S A V : Type} (step : S -> A -> S * result V) (s0 : S) :
  (forall a, returns (snd (step s0 a)) -> fst (step s0 a) = s0) ->
  forall calls,
    Forall returns (snd (run_calls step s0 calls)) ->
    fst (run_calls step s0 calls) = s0 /\
    snd (run_calls step s0 calls) = map (fun a => snd (step s0 a)) calls.
Proof.
  intros Hfix calls. induction calls as [|a rest IH]; simpl; auto.
  specialize (Hfix a). destruct (step s0 a) as [s' v]. simpl in Hfix.
  destruct (run_calls step s' rest) as [s'' vs] eqn:Erest. simpl.
  intros Hall. inversion Hall as [|? ? Hv Hvs]; subst.
  specialize (Hfix Hv). subst s'. rewrite Erest in IH. simpl in IH.
  destruct (IH Hvs) as [-> ->]. auto.
Qed.

Module CachedMasksFacts.

Import GuidedAttentionLoss.

(** The paths through [forward] of either class: the two masks are taken from
    the fields or built, then the product and the broadcast of the mask. *)
Ltac forward_paths :=
  repeat match goal with
         | |- context [guided_attention_masks_tensor ?s ?i ?o] =>
             destruct (guided_attention_masks_tensor s i o)
         | |- context [_make_masks ?i ?o] => destruct (_make_masks i o)
         | |- context [Tensor.binop ?f ?g ?a] => destruct (Tensor.binop f g a)
         | |- context [Mask.broadcast_to ?m ?s] => destruct (Mask.broadcast_to m s)
         end;
  cbn [fst snd returns reset_always guided_attn_masks masks sigma alpha
       _reset_masks].

Lemma forward_returning_resets (sig al : R) (g : option Tensor.t)
      (m : option Mask.t) (att_ws : Tensor.t) (ilens olens : list nat) :
  returns (snd (forward (mk sig al true g m) att_ws ilens olens)) ->
  fst (forward (mk sig al true g m) att_ws ilens olens) = init sig al true.
Proof.
  unfold forward, init.
  cbn [reset_always guided_attn_masks masks sigma alpha].
  destruct g as [g|], m as [m|]; forward_paths;
    intros H; try contradiction; reflexivity.
Qed.

Lemma forwardH_returning_resets (sig al : R) (g : option Tensor.t)
      (m : option Mask.t) (att_ws : Tensor.t) (ilens olens : list nat) :
  returns (snd (GuidedMultiHeadAttentionLoss.forward
                  (mk sig al true g m) att_ws ilens olens)) ->
  fst (GuidedMultiHeadAttentionLoss.forward (mk sig al true g m)
                                            att_ws ilens olens)
  = init sig al true.
Proof.
  unfold GuidedMultiHeadAttentionLoss.forward, init.
  cbn [reset_always guided_attn_masks masks sigma alpha].
  destruct g as [g|], m as [m|]; forward_paths;
    intros H; try contradiction; reflexivity.
Qed.

Lemma forward_keeps_cached (sig al : R) (g : Tensor.t) (m : Mask.t)
      (att_ws : Tensor.t) (ilens olens : list nat) :
  fst (forward (mk sig al false (Some g) (Some m)) att_ws ilens olens)
  = mk sig al false (Some g) (Some m).
Proof.
  unfold forward. cbn [reset_always guided_attn_masks masks sigma alpha].
  forward_paths; reflexivity.
Qed.

Lemma forwardH_keeps_cached (sig al : R) (g : Tensor.t) (m : Mask.t)
      (att_ws : Tensor.t) (ilens olens : list nat) :
  fst (GuidedMultiHeadAttentionLoss.forward
         (mk sig al false (Some g) (Some m)) att_ws ilens olens)
  = mk sig al false (Some g) (Some m).
Proof.
  unfold GuidedMultiHeadAttentionLoss.forward.
  cbn [reset_always guided_attn_masks masks sigma alpha].
  forward_paths; reflexivity.
Qed.

(** After a first call that returns, a module with [reset_always=False]
    holds the two masks of that call, and every later call is the call of a
    fresh module on the later attention weights and the first lengths. *)
Lemma forward_first_call_stores (sig al : R) (att_ws : Tensor.t)
      (ilens olens : list nat) :
  returns (snd (forward (init sig al false) att_ws ilens olens)) ->
  exists g m,
    fst (forward (init sig al false) att_ws ilens olens)
    = mk sig al false (Some g) (Some m)
    /\ forall att_ws' ilens' olens',
        snd (forward (mk sig al false (Some g) (Some m)) att_ws' ilens' olens')
        = snd (forward (init sig al false) att_ws' ilens olens).
Proof.
  unfold forward, init.
  cbn [reset_always guided_attn_masks masks sigma alpha].
  destruct (guided_attention_masks_tensor sig ilens olens) as [g|e];
    [|intros []].
  cbn [reset_always guided_attn_masks masks sigma alpha].
  destruct (_make_masks ilens olens) as [m|e]; [|intros []].
  cbn [reset_always guided_attn_masks masks sigma alpha].
  intros Hret. exists g, m. split.
  - revert Hret. forward_paths; intros H; try contradiction; reflexivity.
  - intros att_ws' ilens' olens'. forward_paths; reflexivity.
Qed.

Lemma forwardH_first_call_stores (sig al : R) (att_ws : Tensor.t)
      (ilens olens : list nat) :
  returns (snd (GuidedMultiHeadAttentionLoss.forward
                  (init sig al false) att_ws ilens olens)) ->
  exists g m,
    fst (GuidedMultiHeadAttentionLoss.forward
           (init sig al false) att_ws ilens olens)
    = mk sig al false (Some g) (Some m)
    /\ forall att_ws' ilens' olens',
        snd (GuidedMultiHeadAttentionLoss.forward
               (mk sig al false (Some g) (Some m)) att_ws' ilens' olens')
        = snd (GuidedMultiHeadAttentionLoss.forward
                 (init sig al false) att_ws' ilens olens).
Proof.
  unfold GuidedMultiHeadAttentionLoss.forward, init.
  cbn [reset_always guided_attn_masks masks sigma alpha].
  destruct (guided_attention_masks_tensor sig ilens olens) as [g|e];
    [|intros []].
  cbn [reset_always guided_attn_masks masks sigma alpha].
  destruct (_make_masks ilens olens) as [m|e]; [|intros []].
  cbn [reset_always guided_attn_masks masks sigma alpha].
  intros Hret. exists (unsqueeze g 1), (Mask.unsqueeze m 1). split.
  - revert Hret. forward_paths; intros H; try contradiction; reflexivity.
  - intros att_ws' ilens' olens'. forward_paths; reflexivity.
Qed.

End CachedMasksFacts.

(** C2, counterexample.  With [reset_always=False] the two fields are not
    [None] after a call of [forward]. *)
Lemma forward_keeps_masks_without_reset :
  let self := GuidedAttentionLoss.init (4 / 10) 1 false in
  let self' := fst (GuidedAttentionLoss.forward
                      self (Tensor.mk [1; 1; 1]%nat [1]) [1%nat] [1%nat]) in
  ~ (GuidedAttentionLoss.guided_attn_masks self' = None
     /\ GuidedAttentionLoss.masks self' = None).
Proof.
  cbn. intros [H _]. discriminate H.
Qed.

(** C2, as the code has it.  With [reset_always=True], after every call of
    [forward] of either class that returns, both fields are [None] again and
    the other fields are unchanged, so in a sequence of returning calls on a
    fresh module every call returns what the same call returns on the freshly
    built module.  With [reset_always=False], after a first call that returns
    the masks it built stay in the two fields, through every later call, and
    every later call uses them: it returns what a fresh module returns on its
    attention weights and the lengths of the first call. *)
Theorem forward_resets_masks_when_reset_always :
  (forall sigma alpha g m att_ws ilens olens,
      returns (snd (GuidedAttentionLoss.forward
                      (GuidedAttentionLoss.mk sigma alpha true g m)
                      att_ws ilens olens)) ->
      fst (GuidedAttentionLoss.forward
             (GuidedAttentionLoss.mk sigma alpha true g m) att_ws ilens olens)
      = GuidedAttentionLoss.init sigma alpha true)
  /\ (forall sigma alpha g m att_ws ilens olens,
      returns (snd (GuidedMultiHeadAttentionLoss.forward
                      (GuidedAttentionLoss.mk sigma alpha true g m)
                      att_ws ilens olens)) ->
      fst (GuidedMultiHeadAttentionLoss.forward
             (GuidedAttentionLoss.mk sigma alpha true g m) att_ws ilens olens)
      = GuidedAttentionLoss.init sigma alpha true)
  /\ (forall sigma alpha calls,
      let fresh := GuidedAttentionLoss.init sigma alpha true in
      Forall returns (snd (run_calls forward1 fresh calls)) ->
      fst (run_calls forward1 fresh calls) = fresh
      /\ snd (run_calls forward1 fresh calls)
         = map (fun a => snd (forward1 fresh a)) calls)
  /\ (forall sigma alpha calls,
      let fresh := GuidedAttentionLoss.init sigma alpha true in
      Forall returns (snd (run_calls forwardH fresh calls)) ->
      fst (run_calls forwardH fresh calls) = fresh
      /\ snd (run_calls forwardH fresh calls)
         = map (fun a => snd (forwardH fresh a)) calls)
  /\ (forall sigma alpha first calls,
      let fresh := GuidedAttentionLoss.init sigma alpha false in
      let self' := fst (forward1 fresh first) in
      returns (snd (forward1 fresh first)) ->
      GuidedAttentionLoss.guided_attn_masks self' <> None
      /\ GuidedAttentionLoss.masks self' <> None
      /\ fst (run_calls forward1 self' calls) = self'
      /\ snd (run_calls forward1 self' calls)
         = map (fun a => snd (forward1 fresh (with_lengths_of first a))) calls)
  /\ (forall sigma alpha first calls,
      let fresh := GuidedAttentionLoss.init sigma alpha false in
      let self' := fst (forwardH fresh first) in
      returns (snd (forwardH fresh first)) ->
      GuidedAttentionLoss.guided_attn_masks self' <> None
      /\ GuidedAttentionLoss.masks self' <> None
      /\ fst (run_calls forwardH self' calls) = self'
      /\ snd (run_calls forwardH self' calls)
         = map (fun a => snd (forwardH fresh (with_lengths_of first a))) calls).
Proof.
  split; [exact CachedMasksFacts.forward_returning_resets|].
  split; [exact CachedMasksFacts.forwardH_returning_resets|].
  split; [|split; [|split]].
  - intros sigma alpha calls fresh.
    apply (run_calls_returning forward1).
    intros [[att_ws ilens] olens].
    apply CachedMasksFacts.forward_returning_resets.
  - intros sigma alpha calls fresh.
    apply (run_calls_returning forwardH).
    intros [[att_ws ilens] olens].
    apply CachedMasksFacts.forwardH_returning_resets.
  - intros sigma alpha [[att_ws ilens] olens] calls fresh self' Hret.
    destruct (CachedMasksFacts.forward_first_call_stores
                sigma alpha att_ws ilens olens Hret) as (g & m & Hst & Huse).
    unfold self', fresh.
    change (forward1 (GuidedAttentionLoss.init sigma alpha false)
                     (att_ws, ilens, olens))
      with (GuidedAttentionLoss.forward (GuidedAttentionLoss.init sigma alpha false)
                                        att_ws ilens olens).
    rewrite !Hst.
    cbn [GuidedAttentionLoss.guided_attn_masks GuidedAttentionLoss.masks].
    split; [discriminate|]. split; [discriminate|].
    destruct (run_calls_fresh forward1
                (GuidedAttentionLoss.mk sigma alpha false (Some g) (Some m))
                ltac:(intros [[a i] o];
                      apply CachedMasksFacts.forward_keeps_cached) calls)
      as [Hfst Hsnd].
    split; [exact Hfst|]. rewrite Hsnd. apply map_ext.
    intros [[att_ws' ilens'] olens']. apply Huse.
  - intros sigma alpha [[att_ws ilens] olens] calls fresh self' Hret.
    destruct (CachedMasksFacts.forwardH_first_call_stores
                sigma alpha att_ws ilens olens Hret) as (g & m & Hst & Huse).
    unfold self', fresh.
    change (forwardH (GuidedAttentionLoss.init sigma alpha false)
                     (att_ws, ilens, olens))
      with (GuidedMultiHeadAttentionLoss.forward
              (GuidedAttentionLoss.init sigma alpha false) att_ws ilens olens).
    rewrite !Hst.
    cbn [GuidedAttentionLoss.guided_attn_masks GuidedAttentionLoss.masks].
    split; [discriminate|]. split; [discriminate|].
    destruct (run_calls_fresh forwardH
                (GuidedAttentionLoss.mk sigma alpha false (Some g) (Some m))
                ltac:(intros [[a i] o];
                      apply CachedMasksFacts.forwardH_keeps_cached) calls)
      as [Hfst Hsnd].
    split; [exact Hfst|]. rewrite Hsnd. apply map_ext.
    intros [[att_ws' ilens'] olens']. apply Huse.
Qed.

Lemma forward_resets_masks_example :
  let a := (Tensor.mk [1; 1; 1]%nat [1], [1%nat], [1%nat]) in
  fst (run_calls forward1 (GuidedAttentionLoss.init (4 / 10) 1 true) [a; a])
  = GuidedAttentionLoss.init (4 / 10) 1 true
  /\ GuidedAttentionLoss.masks
       (fst (forward1 (GuidedAttentionLoss.init (4 / 10) 1 false) a)) <> None.
Proof.
  cbv zeta. split.
  - apply (proj1 (proj2 (proj2 forward_resets_masks_when_reset_always))
                 (4 / 10) 1
                 [(Tensor.mk [1; 1; 1]%nat [1], [1%nat], [1%nat]);
                  (Tensor.mk [1; 1; 1]%nat [1], [1%nat], [1%nat])]).
    cbn. repeat constructor.
  - apply (proj1 (proj2 (proj2 (proj2 (proj2
             forward_resets_masks_when_reset_always))))
                 (4 / 10) 1 (Tensor.mk [1; 1; 1]%nat [1], [1%nat], [1%nat]) []).
    cbn. exact I.
Defined.

(** With [reset_always=False] a call can return a value that the same call
    on a fresh module does not return: the masks of an earlier call are used. *)
Lemma forward_result_depends_on_history :
  let fresh := GuidedAttentionLoss.init (4 / 10) 1 false in
  let first := (Tensor.mk [1; 1; 1]%nat [1], [1%nat], [1%nat]) in
  let second := (Tensor.mk [1; 1; 2]%nat [0; 1], [2%nat], [1%nat]) in
  snd (forward1 (fst (forward1 fresh first)) second)
  <> snd (forward1 fresh second).
Proof.
  cbv zeta.
  assert (Hm1 : GuidedAttentionLoss._make_masks [1%nat] [1%nat]
                = Ok (Mask.mk [1; 1; 1]%nat [true])) by reflexivity.
  assert (Hm2 : GuidedAttentionLoss._make_masks [2%nat] [1%nat]
                = Ok (Mask.mk [1; 1; 2]%nat [true; true])) by reflexivity.
  assert (Hused : snd (forward1 (fst (forward1 (GuidedAttentionLoss.init (4 / 10) 1 false)
                                               (Tensor.mk [1; 1; 1]%nat [1],
                                                [1%nat], [1%nat])))
                                (Tensor.mk [1; 1; 2]%nat [0; 1], [2%nat], [1%nat]))
                  = Ok 0).
  { cbn. rewrite Hm1. cbn. f_equal. unfold mean, Rsum. cbn.
    replace (- ((0 / 1 - 0 / 1) * ((0 / 1 - 0 / 1) * 1))
             / (2 * (4 / 10 * (4 / 10 * 1)))) with 0 by lra.
    rewrite exp_0. lra. }
  rewrite Hused. clear Hused.
  cbn. rewrite Hm2. cbn. unfold mean, Rsum. cbn.
  intros H. injection H as H. revert H.
  set (c := - ((1 / (1 + 1) - 0 / 1) * ((1 / (1 + 1) - 0 / 1) * 1))
            / (2 * (4 / 10 * (4 / 10 * 1)))).
  assert (Hc : c < 0) by (unfold c; lra).
  assert (He : exp c < 1) by (rewrite <- exp_0; now apply exp_increasing).
  set (d := - ((0 / (1 + 1) - 0 / 1) * ((0 / (1 + 1) - 0 / 1) * 1))
            / (2 * (4 / 10 * (4 / 10 * 1)))).
  assert (Hd : d = 0) by (unfold d; lra).
  rewrite Hd, exp_0. lra.
Qed.

(** A call that raises at the product with [att_ws] has already stored the
    masks, and they stay in the fields, also with [reset_always=True]. *)
Lemma forward_raising_call_keeps_masks :
  let self := GuidedAttentionLoss.init (4 / 10) 1 true in
  let att_ws := Tensor.mk [1; 3; 3]%nat (repeat 0 9) in
  snd (GuidedAttentionLoss.forward self att_ws [2%nat] [2%nat]) = Raise ValueError
  /\ GuidedAttentionLoss.guided_attn_masks
       (fst (GuidedAttentionLoss.forward self att_ws [2%nat] [2%nat])) <> None
  /\ GuidedAttentionLoss.masks
       (fst (GuidedAttentionLoss.forward self att_ws [2%nat] [2%nat])) <> None.
Proof.
  assert (Hm : GuidedAttentionLoss._make_masks [2%nat] [2%nat]
               = Ok (Mask.mk [1; 2; 2]%nat [true; true; true; true]))
    by reflexivity.
  cbn. rewrite Hm. cbn. repeat split; discriminate.
Qed.

(** ** STFT losses: positivity of the operands *)

Lemma zipWith_cons_Forall {A : Type} (P : A -> Prop) (row : list A)
      (m : list (list A)) :
  Forall P row -> Forall (Forall P) m -> Forall (Forall P) (zipWith cons row m).
Proof.
  intros Hrow; revert m; induction Hrow as [|v row Hv Hrow IH];
    intros m Hm; simpl; [constructor|].
  destruct Hm as [|r m Hr Hm]; constructor; auto.
Qed.

Lemma transpose_Forall {A : Type} (P : A -> Prop) (m : list (list A)) :
  Forall (Forall P) m -> Forall (Forall P) (transpose m).
Proof.
  induction 1 as [|row rest Hrow Hrest IH]; simpl; [constructor|].
  destruct rest as [|r rs].
  - apply Forall_forall; intros l Hl.
    apply in_map_iff in Hl as (v & <- & Hv).
    constructor; [|constructor].
    now apply (proj1 (Forall_forall P row) Hrow).
  - now apply zipWith_cons_Forall.
Qed.

Lemma Forall_concat {A : Type} (P : A -> Prop) (m : list (list A)) :
  Forall (Forall P) m -> Forall P (concat m).
Proof.
  induction 1; simpl; [constructor|]. apply Forall_app; auto.
Qed.

Lemma Forall_flatten3 (P : R -> Prop) (x : T3) :
  Forall (Forall (Forall P)) x -> Forall P (flatten3 x).
Proof.
  intros H. unfold flatten3, flatten2. apply Forall_concat.
  apply Forall_forall; intros l Hl. apply in_map_iff in Hl as (m & <- & Hm).
  apply Forall_concat. now apply (proj1 (Forall_forall _ x) H).
Qed.

Lemma clip_min_ge (lo x : R) : lo <= clip_min lo x.
Proof. unfold clip_min. apply Rmax_r. Qed.

Lemma clip_min_pos (lo x : R) : 0 < lo -> 0 < clip_min lo x.
Proof. intros H. pose proof (clip_min_ge lo x). lra. Qed.

Lemma clip_min_id (lo x : R) : lo <= x -> clip_min lo x = x.
Proof. intros H. unfold clip_min. now apply Rmax_left. Qed.

Lemma mapM_total {A B : Type} (f : A -> option B) (g : A -> B) (xs : list A) :
  Forall (fun x => f x = Some (g x)) xs -> mapM f xs = Some (map g xs).
Proof.
  induction 1 as [|x xs Hx Hxs IH]; simpl; [reflexivity|].
  now rewrite Hx, IH.
Qed.

Lemma checked_log_pos (x : R) : 0 < x -> checked_log x = Some (ln x).
Proof.
  intros H. unfold checked_log. destruct (Rlt_dec 0 x); [reflexivity|contradiction].
Qed.

Lemma checked_div_nonzero (a b : R) : b <> 0 -> checked_div a b = Some (a / b).
Proof.
  intros H. unfold checked_div. destruct (Req_dec_T b 0); [contradiction|reflexivity].
Qed.

Lemma eps7_pos : 0 < 1 / 10 ^ 7.
Proof. apply Rdiv_lt_0_compat; [lra|apply pow_lt; lra]. Qed.

Lemma eps10_pos : 0 < 1 / 10 ^ 10.
Proof. apply Rdiv_lt_0_compat; [lra|apply pow_lt; lra]. Qed.

Section GANVocoderFacts.

Context {fw : Framework}.

Lemma stft_entries (x : T2) (fft_size hop_length win_length : nat) (window : string) :
  Forall (Forall (Forall (fun v => sqrt (1 / 10 ^ 7) <= v /\ 0 < v)))
         (stft x fft_size hop_length win_length window).
Proof.
  unfold stft, transpose_021.
  apply Forall_forall; intros m Hm.
  apply in_map_iff in Hm as (m0 & <- & Hm0).
  apply in_map_iff in Hm0 as (c2 & <- & _).
  apply transpose_Forall.
  apply Forall_forall; intros row Hrow.
  apply in_map_iff in Hrow as (c1 & <- & _).
  apply Forall_forall; intros v Hv.
  apply in_map_iff in Hv as (c & <- & _).
  assert (Hle : sqrt (1 / 10 ^ 7)
                <= sqrt (clip_min (1 / 10 ^ 7) (fst c ^ 2 + snd c ^ 2))).
  { apply sqrt_le_1_alt. apply clip_min_ge. }
  pose proof (sqrt_lt_R0 _ eps7_pos). split; lra.
Qed.

Lemma log_operands_positive (epsilon : R) (mag : T3) :
  0 < epsilon -> Forall (fun v => 0 < v) (map (clip_min epsilon) (flatten3 mag)).
Proof.
  intros H. apply Forall_forall; intros v Hv.
  apply in_map_iff in Hv as (u & <- & _). now apply clip_min_pos.
Qed.

Lemma LogSTFTMagnitudeLoss_checked (epsilon : R) (x_mag y_mag : T3) :
  0 < epsilon ->
  LogSTFTMagnitudeLoss_forward_checked epsilon x_mag y_mag
  = Some (LogSTFTMagnitudeLoss_forward epsilon x_mag y_mag).
Proof.
  intros H. unfold LogSTFTMagnitudeLoss_forward_checked, LogSTFTMagnitudeLoss_forward.
  rewrite !(mapM_total checked_log ln); [reflexivity| |].
  - eapply Forall_impl; [|apply (log_operands_positive epsilon x_mag H)].
    intros v Hv; now apply checked_log_pos.
  - eapply Forall_impl; [|apply (log_operands_positive epsilon y_mag H)].
    intros v Hv; now apply checked_log_pos.
Qed.

(** C5.  Every entry of the magnitude spectrogram of [stft] is at least
    sqrt(1e-7) and strictly positive; in [STFTLoss.forward] the divisor of the
    spectral convergence loss and every argument of a logarithm in the log
    STFT magnitude loss are strictly positive, and so the evaluation with
    checked division and checked logarithm never fails and returns the value
    of [forward]. *)
Theorem STFTLoss_forward_safe (fft_size shift_size win_length : nat)
        (window : string) (x y : T2) :
  let self := STFTLoss_init fft_size shift_size win_length window in
  let x_mag := stft x fft_size shift_size win_length window in
  let y_mag := stft y fft_size shift_size win_length window in
  Forall (Forall (Forall (fun v => sqrt (1 / 10 ^ 7) <= v /\ 0 < v))) x_mag
  /\ Forall (Forall (Forall (fun v => sqrt (1 / 10 ^ 7) <= v /\ 0 < v))) y_mag
  /\ 0 < clip_min (1 / 10 ^ 10) (norm_fro (flatten3 y_mag))
  /\ Forall (fun v => 0 < v) (map (clip_min (epsilon self)) (flatten3 x_mag))
  /\ Forall (fun v => 0 < v) (map (clip_min (epsilon self)) (flatten3 y_mag))
  /\ STFTLoss_forward_checked self x y = Some (STFTLoss_forward self x y).
Proof.
  intros self x_mag y_mag.
  pose proof eps7_pos as H7. pose proof eps10_pos as H10.
  repeat split.
  - apply stft_entries.
  - apply stft_entries.
  - now apply clip_min_pos.
  - now apply log_operands_positive.
  - now apply log_operands_positive.
  - unfold STFTLoss_forward_checked, STFTLoss_forward.
    unfold SpectralConvergenceLoss_forward_checked, SpectralConvergenceLoss_forward.
    rewrite checked_div_nonzero.
    + rewrite LogSTFTMagnitudeLoss_checked by exact H7. reflexivity.
    + apply Rgt_not_eq. now apply clip_min_pos.
Qed.

End GANVocoderFacts.

(** ** Multi-resolution STFT loss *)


Lemma Rsum_map_seq_shift (f : nat -> R) (n : nat) :
  Rsum (map f (seq 0 (S n))) = Rsum (map f (seq 0 n)) + f n.
Proof.
  rewrite seq_S, map_app. simpl.
  generalize (map f (seq 0 n)) as l. unfold Rsum.
  induction l as [|v l IH]; simpl; [lra|]. rewrite IH. lra.
Qed.

Section MultiResolutionFacts.

Context {fw : Framework}.

Lemma accumulate_losses (x y : T2) (fs : list STFTLoss) (sc0 mag0 : R) :
  fold_left (fun '(sc_loss, mag_loss) f =>
               let '(sc_l, mag_l) := STFTLoss_forward f x y in
               (sc_loss + sc_l, mag_loss + mag_l))
            fs (sc0, mag0)
  = (sc0 + Rsum (map (fun f => fst (STFTLoss_forward f x y)) fs),
     mag0 + Rsum (map (fun f => snd (STFTLoss_forward f x y)) fs)).
Proof.
  revert sc0 mag0; induction fs as [|f fs IH]; intros sc0 mag0; simpl.
  - unfold Rsum; simpl. f_equal; lra.
  - destruct (STFTLoss_forward f x y) as [sc_l mag_l]. rewrite IH.
    unfold Rsum; simpl. f_equal; lra.
Qed.



End MultiResolutionFacts.


(** ** Generator adversarial loss *)

Module GeneratorAdversarialLossFacts.

Import GeneratorAdversarialLoss.

Lemma last_entry_nonempty {A : Type} (xs : list A) (d : A) :
  xs <> [] -> last_entry xs = Ok (last xs d).
Proof.
  intros Hne. destruct (exists_last Hne) as (front & x & ->).
  unfold last_entry. now rewrite rev_unit, last_last.
Qed.

Lemma loop_body_well_formed (self : t) (adv_loss : R) (i0 : option nat)
      (i : nat) (o : output) :
  well_formed o ->
  loop_body self (Ok (adv_loss, i0)) (i, o)
  = Ok (adv_loss + criterion self (final_output o), Some i).
Proof.
  destruct o as [x|xs]; simpl; [reflexivity|].
  intros Hne. now rewrite (last_entry_nonempty xs []) by exact Hne.
Qed.

Lemma loop_well_formed (self : t) (os : list output) :
  Forall well_formed os ->
  forall (start : nat) (adv_loss : R) (i0 : option nat),
    fold_left (loop_body self) (combine (seq start (length os)) os)
              (Ok (adv_loss, i0))
    = Ok (adv_loss + Rsum (map (fun o => criterion self (final_output o)) os),
          match os with
          | [] => i0
          | _ :: _ => Some (start + length os - 1)%nat
          end).
Proof.
  induction 1 as [|o os Ho Hos IH]; intros start adv_loss i0.
  - unfold Rsum; simpl. now rewrite Rplus_0_r.
  - cbn [length seq combine fold_left map].
    rewrite (loop_body_well_formed self adv_loss i0 start o Ho), IH.
    unfold Rsum; simpl. f_equal. f_equal; [lra|].
    destruct os; simpl; f_equal; lia.
Qed.

(** C7.  On a non-empty list of n discriminator outputs (a feature-map list
    being read at its last entry), [forward] returns the sum of the criterion
    over the list, divided by n when [average_by_discriminators] is set and
    undivided otherwise; on the empty list with averaging it raises, the loop
    variable used in the divisor being unbound. *)
Theorem forward_sums_criterion (self : t) :
  (forall os : list output,
      os <> [] -> Forall well_formed os ->
      forward self (Many os)
      = Ok (if average_by_discriminators self
            then Rsum (map (fun o => criterion self (final_output o)) os)
                 / INR (length os)
            else Rsum (map (fun o => criterion self (final_output o)) os)))
  /\ (average_by_discriminators self = true ->
      forward self (Many []) = Raise UnboundLocalError).
Proof.
  split.
  - intros os Hne Hwf. unfold forward, enumerate.
    rewrite (loop_well_formed self os Hwf 0 0 None), Rplus_0_l.
    destruct os as [|o os]; [contradiction|].
    destruct (average_by_discriminators self); [|reflexivity].
    do 3 f_equal. simpl length. lia.
  - intros Havg. unfold forward. simpl. now rewrite Havg.
Qed.

(** Without averaging the empty list gives the initial accumulator, and a
    feature-map list without entries makes the indexing fail. *)
Lemma forward_corner_cases (self : t) :
  (average_by_discriminators self = false -> forward self (Many []) = Ok 0)
  /\ forward self (Many [FeatureMaps []]) = Raise IndexError.
Proof.
  split.
  - intros Havg. unfold forward. simpl. now rewrite Havg.
  - reflexivity.
Qed.

End GeneratorAdversarialLossFacts.

(** ** Mel spectrogram *)

Module MelSpectrogramFacts.

Import MelSpectrogram.

Section WithFramework.

Context {fw : Framework}.

(** The cases of [__init__]: the window name is unknown, known or absent, and
    [log_base] is absent, 2.0, 10.0 or another number. *)
Ltac init_cases window log_base :=
  unfold init;
  destruct window as [?w|]; [destruct (has_window _) eqn:?Hw|]; cbn [negb];
  (let b := fresh "b" in
   destruct log_base as [b|];
   [destruct (Req_dec_T b 2) as [?E2|?N2];
    [|destruct (Req_dec_T b 10) as [?E10|?N10]]|]);
  subst.

Lemma init_raises_ValueError_iff (fs : R) (fft_size hop_size : nat)
      (win_length : option nat) (window : option string) (num_mels : nat)
      (fmin fmax : option R) (center normalized onesided : bool) (eps : R)
      (log_base : option R) :
  init fs fft_size hop_size win_length window num_mels fmin fmax
       center normalized onesided eps log_base = Raise ValueError
  <-> (exists w, window = Some w /\ has_window w = false)
      \/ (log_base <> None /\ log_base <> Some 2 /\ log_base <> Some 10).
Proof.
  init_cases window log_base; split;
    try (intros H; discriminate H);
    try (intros _; left; eexists; split; [reflexivity|assumption]);
    try (intros _; right; repeat split; intros H; inversion H; contradiction);
    intros [(w' & Hw' & Hf)|(H1 & H2 & H3)];
    solve [ congruence
          | exfalso; apply H1; reflexivity
          | exfalso; apply H2; reflexivity
          | exfalso; apply H3; reflexivity ].
Qed.

Lemma init_raises_only_ValueError (fs : R) (fft_size hop_size : nat)
      (win_length : option nat) (window : option string) (num_mels : nat)
      (fmin fmax : option R) (center normalized onesided : bool) (eps : R)
      (log_base : option R) (e : exn) :
  init fs fft_size hop_size win_length window num_mels fmin fmax
       center normalized onesided eps log_base = Raise e ->
  e = ValueError.
Proof.
  init_cases window log_base; intros H; now inversion H.
Qed.

Lemma init_selects_log (fs : R) (fft_size hop_size : nat)
      (win_length : option nat) (window : option string) (num_mels : nat)
      (fmin fmax : option R) (center normalized onesided : bool) (eps : R)
      (log_base : option R) (self : t) :
  init fs fft_size hop_size win_length window num_mels fmin fmax
       center normalized onesided eps log_base = Ok self ->
  (log_base = None -> log self = paddle_log)
  /\ (log_base = Some 2 -> log self = paddle_log2)
  /\ (log_base = Some 10 -> log self = paddle_log10).
Proof.
  init_cases window log_base; intros H; inversion H; subst; clear H;
    repeat split; intros H;
    solve [ reflexivity | inversion H; lra | inversion H; contradiction ].
Qed.

(** C8.  [__init__] raises [ValueError] exactly when [window] is a name that
    is not an attribute of [scipy.signal.windows] or [log_base] is none of
    [None], 2.0 and 10.0; on a module it builds, [forward] applies the natural,
    the base-2 or the base-10 logarithm, in this order of the values of
    [log_base], to the clipped mel spectrogram. *)
Theorem init_raises_iff (fs : R) (fft_size hop_size : nat)
        (win_length : option nat) (window : option string) (num_mels : nat)
        (fmin fmax : option R) (center normalized onesided : bool) (eps : R)
        (log_base : option R) :
  let r := init fs fft_size hop_size win_length window num_mels fmin fmax
                center normalized onesided eps log_base in
  (r = Raise ValueError <->
   (exists w, window = Some w /\ has_window w = false)
   \/ (log_base <> None /\ log_base <> Some 2 /\ log_base <> Some 10))
  /\ (forall e, r = Raise e -> e = ValueError)
  /\ (forall self, r = Ok self ->
      (log_base = None ->
       forall x, forward self x
                 = transpose_021 (map (map (map ln)) (x_mel self x)))
      /\ (log_base = Some 2 ->
          forall x, forward self x
                    = transpose_021
                        (map (map (map (fun v => ln v / ln 2))) (x_mel self x)))
      /\ (log_base = Some 10 ->
          forall x, forward self x
                    = transpose_021
                        (map (map (map (fun v => ln v / ln 10))) (x_mel self x)))).
Proof.
  intros r. split; [apply init_raises_ValueError_iff|].
  split; [intros e; apply init_raises_only_ValueError|].
  intros self Hself.
  destruct (init_selects_log _ _ _ _ _ _ _ _ _ _ _ _ _ self Hself)
    as (Hnone & H2 & H10).
  repeat split; intros Hb x; unfold forward;
    [rewrite (Hnone Hb)|rewrite (H2 Hb)|rewrite (H10 Hb)]; reflexivity.
Qed.

End WithFramework.

End MelSpectrogramFacts.

Lemma forward_sums_criterion_example :
  let self := GeneratorAdversarialLoss.mk true GeneratorAdversarialLoss._hinge_loss in
  let os := [GeneratorAdversarialLoss.Tensor [1; 2];
             GeneratorAdversarialLoss.FeatureMaps [[5]; [3; 4]]] in
  GeneratorAdversarialLoss.forward self (GeneratorAdversarialLoss.Many os)
  = Ok (Rsum [GeneratorAdversarialLoss._hinge_loss [1; 2];
              GeneratorAdversarialLoss._hinge_loss [3; 4]] / INR 2)
  /\ GeneratorAdversarialLoss.forward self (GeneratorAdversarialLoss.Many [])
     = Raise UnboundLocalError.
Proof.
  cbv zeta.
  destruct (GeneratorAdversarialLossFacts.forward_sums_criterion
              (GeneratorAdversarialLoss.mk true GeneratorAdversarialLoss._hinge_loss))
    as [Hsum Hempty].
  split.
  - apply (Hsum [GeneratorAdversarialLoss.Tensor [1; 2];
                 GeneratorAdversarialLoss.FeatureMaps [[5]; [3; 4]]]).
    + discriminate.
    + repeat constructor; simpl; discriminate.
  - apply Hempty. reflexivity.
Defined.

(** ** Broadcasting *)

Module TensorFacts.

Import Tensor.

Lemma numel_of_app (s1 s2 : list nat) :
  numel_of (s1 ++ s2) = (numel_of s1 * numel_of s2)%nat.
Proof.
  induction s1 as [|d s1 IH]; simpl; [lia|]. rewrite IH. lia.
Qed.

Lemma numel_of_rev (s : list nat) : numel_of (rev s) = numel_of s.
Proof.
  induction s as [|d s IH]; simpl; [reflexivity|].
  rewrite numel_of_app, IH. simpl. lia.
Qed.

Lemma broadcast_shapes_rev_same (s : list nat) :
  broadcast_shapes_rev s s = Some s.
Proof.
  induction s as [|d s IH]; simpl; [reflexivity|].
  now rewrite IH, Nat.eqb_refl.
Qed.

Lemma broadcast_shapes_same (s : list nat) : broadcast_shapes s s = Some s.
Proof.
  unfold broadcast_shapes. rewrite broadcast_shapes_rev_same. simpl.
  now rewrite rev_involutive.
Qed.

Lemma ravel_unravel_rev (s : list nat) :
  forall k, (k < numel_of s)%nat -> ravel_rev s (unravel_rev s k) = k.
Proof.
  induction s as [|d s IH]; intros k Hk; simpl in *; [lia|].
  assert (Hd : d <> 0%nat) by (intros ->; simpl in Hk; lia).
  rewrite IH by (apply Nat.Div0.div_lt_upper_bound; lia).
  pose proof (Nat.div_mod_eq k d) as Hdm.
  destruct (d =? 1)%nat eqn:E.
  - apply Nat.eqb_eq in E. subst d. rewrite Nat.mod_1_r in Hdm. lia.
  - lia.
Qed.

Lemma map_nth_seq {A : Type} (l : list A) (d : A) :
  map (fun k => nth k l d) (seq 0 (length l)) = l.
Proof.
  apply (nth_ext _ _ d d).
  - now rewrite length_map, length_seq.
  - intros k Hk. rewrite length_map, length_seq in Hk.
    now rewrite nth_map_seq.
Qed.

Lemma broadcast_to_same (x : t) : wf x -> broadcast_to x (shape x) = x.
Proof.
  intros Hwf. unfold wf, numel in Hwf. unfold broadcast_to.
  destruct x as [s l]; simpl in *. f_equal.
  rewrite <- Hwf.
  rewrite <- (map_nth_seq l 0) at 2.
  apply map_ext_in; intros k Hk. apply in_seq in Hk.
  rewrite ravel_unravel_rev; [reflexivity|].
  rewrite numel_of_rev. lia.
Qed.

Lemma binop_same_shape (f : R -> R -> R) (a b : t) :
  wf a -> wf b -> shape a = shape b ->
  binop f a b = Ok (mk (shape a) (zipWith f (data a) (data b))).
Proof.
  intros Ha Hb Hs. unfold binop.
  rewrite <- Hs, broadcast_shapes_same.
  rewrite (broadcast_to_same a Ha).
  rewrite Hs, (broadcast_to_same b Hb). reflexivity.
Qed.

Lemma binop_singletons_value (f : R -> R -> R) (u v : R) :
  binop f (mk [1%nat] [u]) (mk [1%nat] [v]) = Ok (mk [1%nat] [f u v]).
Proof. reflexivity. Qed.

Lemma binop_broadcastable (f : R -> R -> R) (a b : t) (s : list nat) :
  broadcast_shapes (shape a) (shape b) = Some s ->
  exists r, binop f a b = Ok r /\ shape r = s.
Proof.
  intros Hs. unfold binop. rewrite Hs. eexists; split; reflexivity.
Qed.

Lemma binop_raises (f : R -> R -> R) (a b : t) :
  broadcast_shapes (shape a) (shape b) = None ->
  binop f a b = Raise ValueError.
Proof.
  intros Hs. unfold binop. now rewrite Hs.
Qed.

End TensorFacts.

(** ** Weighted mean and masked L1 loss *)

Section WeightedMean.

Import Tensor.

Lemma weighted_mean_value (input weight : Tensor.t) (s : list nat) :
  broadcast_shapes (shape input) (shape weight) = Some s ->
  weighted_mean input weight
  = Ok (mk [1%nat]
           [Rsum (zipWith Rmult (data (broadcast_to input s))
                                (data (broadcast_to weight s)))
            / (Rsum (data weight) * (INR (numel input) / INR (numel weight)))]).
Proof.
  intros Hs. unfold weighted_mean.
  unfold binop at 1. rewrite Hs. cbn [bind].
  unfold sum, scale. cbn [data shape map].
  now rewrite TensorFacts.binop_singletons_value.
Qed.

Lemma weighted_mean_raises (input weight : Tensor.t) :
  broadcast_shapes (shape input) (shape weight) = None ->
  weighted_mean input weight = Raise ValueError.
Proof.
  intros Hs. unfold weighted_mean, binop at 1. now rewrite Hs.
Qed.

Lemma Rsum_zipWith_length_data (f : R -> R -> R) (a b : Tensor.t) (s : list nat) :
  length (zipWith f (data (broadcast_to a s)) (data (broadcast_to b s)))
  = numel_of s.
Proof.
  rewrite zipWith_length. unfold broadcast_to; cbn [data].
  rewrite !length_map, !length_seq. lia.
Qed.

(** C6.  For prediction, target and mask of broadcast-compatible shapes,
    [masked_l1_loss] is [weighted_mean] of the element-wise absolute error
    |prediction - target| with weight [mask], that is
    sum(|prediction - target| * mask) / (sum(mask) * (numel(error) / numel(mask)));
    for a non-empty mask of the shape of the error this is
    sum(error * mask) / sum(mask), the mask-weighted mean of the error. *)
Theorem masked_l1_loss_is_weighted_mean (prediction target mask : Tensor.t)
        (s1 s2 : list nat) :
  broadcast_shapes (shape prediction) (shape target) = Some s1 ->
  broadcast_shapes s1 (shape mask) = Some s2 ->
  exists abs_error product,
    l1_loss_none prediction target = Ok abs_error
    /\ abs_error
       = mk s1 (zipWith (fun p t => Rabs (p - t))
                        (data (broadcast_to prediction s1))
                        (data (broadcast_to target s1)))
    /\ binop Rmult abs_error mask = Ok product
    /\ masked_l1_loss prediction target mask = weighted_mean abs_error mask
    /\ weighted_mean abs_error mask
       = Ok (mk [1%nat]
                [Rsum (data product)
                 / (Rsum (data mask)
                    * (INR (numel abs_error) / INR (numel mask)))])
    /\ (shape mask = s1 -> wf mask -> numel mask <> 0%nat ->
        weighted_mean abs_error mask
        = Ok (mk [1%nat]
                 [Rsum (zipWith Rmult (data abs_error) (data mask))
                  / Rsum (data mask)])).
Proof.
  intros H1 H2.
  set (abs_error := mk s1 (zipWith (fun p t => Rabs (p - t))
                                   (data (broadcast_to prediction s1))
                                   (data (broadcast_to target s1)))).
  assert (Herr : l1_loss_none prediction target = Ok abs_error).
  { unfold l1_loss_none, binop. now rewrite H1. }
  assert (Hwf : wf abs_error).
  { unfold wf, numel, abs_error; cbn [data shape].
    apply Rsum_zipWith_length_data. }
  exists abs_error.
  exists (mk s2 (zipWith Rmult (data (broadcast_to abs_error s2))
                         (data (broadcast_to mask s2)))).
  split; [exact Herr|]. split; [reflexivity|].
  split; [unfold binop; cbn [shape abs_error]; now rewrite H2|].
  split; [unfold masked_l1_loss; now rewrite Herr|].
  split; [now apply weighted_mean_value|].
  intros Hshape Hwfm Hne.
  assert (Hsame : shape abs_error = shape mask) by (now rewrite Hshape).
  rewrite (weighted_mean_value abs_error mask s1)
    by (cbn [shape abs_error]; rewrite Hshape; apply TensorFacts.broadcast_shapes_same).
  replace s1 with (shape abs_error) at 1 by reflexivity.
  rewrite (TensorFacts.broadcast_to_same abs_error Hwf).
  rewrite <- Hshape, (TensorFacts.broadcast_to_same mask Hwfm).
  unfold numel at 1 2. rewrite Hsame.
  replace (INR (numel_of (shape mask)) / INR (numel_of (shape mask))) with 1.
  - now rewrite Rmult_1_r.
  - field. apply not_0_INR. exact Hne.
Qed.

End WeightedMean.

Lemma masked_l1_loss_is_weighted_mean_example :
  let prediction := Tensor.mk [2; 2]%nat [1; 2; 3; 4] in
  let target := Tensor.mk [2]%nat [2; 2] in
  let mask := Tensor.mk [2; 1]%nat [1; 0] in
  exists abs_error,
    l1_loss_none prediction target = Ok abs_error
    /\ masked_l1_loss prediction target mask = weighted_mean abs_error mask.
Proof.
  cbv zeta.
  destruct (masked_l1_loss_is_weighted_mean
              (Tensor.mk [2; 2]%nat [1; 2; 3; 4]) (Tensor.mk [2]%nat [2; 2])
              (Tensor.mk [2; 1]%nat [1; 0]) [2; 2]%nat [2; 2]%nat
              eq_refl eq_refl)
    as (abs_error & product & Herr & _ & _ & Hloss & _).
  exists abs_error. split; assumption.
Defined.

(** Broadcasting on concrete tensors: a column (2, 1) and a row (2) against
    the shape (2, 2), and an incompatible pair. *)
Example broadcast_to_column :
  Tensor.broadcast_to (Tensor.mk [2; 1]%nat [1; 0]) [2; 2]%nat
  = Tensor.mk [2; 2]%nat [1; 1; 0; 0].
Proof. reflexivity. Qed.

Example broadcast_to_row :
  Tensor.broadcast_to (Tensor.mk [2]%nat [5; 7]) [2; 2]%nat
  = Tensor.mk [2; 2]%nat [5; 7; 5; 7].
Proof. reflexivity. Qed.

Example broadcast_shapes_examples :
  Tensor.broadcast_shapes [3; 1; 2]%nat [4; 1]%nat = Some [3; 4; 2]%nat
  /\ Tensor.broadcast_shapes [3; 2]%nat [3]%nat = None.
Proof. split; reflexivity. Qed.

(** ** Finite sums *)

Lemma Rsum_app (l1 l2 : list R) : Rsum (l1 ++ l2) = Rsum l1 + Rsum l2.
Proof.
  unfold Rsum. induction l1 as [|v l1 IH]; simpl; [lra|]. rewrite IH. lra.
Qed.

Lemma Rsum_cons (v : R) (l : list R) : Rsum (v :: l) = v + Rsum l.
Proof. reflexivity. Qed.

Lemma Rsum_concat (m : list (list R)) : Rsum (concat m) = Rsum (map Rsum m).
Proof.
  induction m as [|l m IH]; cbn [concat map]; [reflexivity|].
  now rewrite Rsum_app, Rsum_cons, IH.
Qed.

Lemma Rsum_map_ext {A : Type} (f g : A -> R) (l : list A) :
  (forall a, In a l -> f a = g a) -> Rsum (map f l) = Rsum (map g l).
Proof.
  intros H. f_equal. now apply map_ext_in.
Qed.

Lemma Rsum_map_plus {A : Type} (f g : A -> R) (l : list A) :
  Rsum (map (fun a => f a + g a) l) = Rsum (map f l) + Rsum (map g l).
Proof.
  induction l as [|a l IH]; cbn [map]; rewrite ?Rsum_cons;
    [unfold Rsum; simpl; lra|].
  rewrite IH. lra.
Qed.

Lemma Rsum_map_scal {A : Type} (c : R) (f : A -> R) (l : list A) :
  Rsum (map (fun a => c * f a) l) = c * Rsum (map f l).
Proof.
  induction l as [|a l IH]; cbn [map]; rewrite ?Rsum_cons;
    [unfold Rsum; simpl; lra|].
  rewrite IH. lra.
Qed.

Lemma Rsum_map_div {A : Type} (c : R) (f : A -> R) (l : list A) :
  Rsum (map (fun a => f a / c) l) = Rsum (map f l) / c.
Proof.
  unfold Rdiv. rewrite <- (Rmult_comm (/ c)), <- Rsum_map_scal.
  apply Rsum_map_ext; intros; lra.
Qed.

Lemma Rsum_map_nonneg {A : Type} (f : A -> R) (l : list A) :
  (forall a, In a l -> 0 <= f a) -> 0 <= Rsum (map f l).
Proof.
  induction l as [|a l IH]; intros H; cbn [map]; rewrite ?Rsum_cons;
    [unfold Rsum; simpl; lra|].
  pose proof (H a (or_introl eq_refl)).
  assert (0 <= Rsum (map f l)) by (apply IH; intros; apply H; now right).
  lra.
Qed.

Lemma Rsum_map_pos {A : Type} (f : A -> R) (l : list A) :
  l <> [] -> (forall a, In a l -> 0 < f a) -> 0 < Rsum (map f l).
Proof.
  intros Hne H. destruct l as [|a l]; [contradiction|].
  cbn [map]. rewrite Rsum_cons.
  pose proof (H a (or_introl eq_refl)).
  assert (0 <= Rsum (map f l)).
  { apply Rsum_map_nonneg; intros b Hb. apply Rlt_le, H. now right. }
  lra.
Qed.

Lemma Rsum_nth_seq (l : list R) (n : nat) :
  length l = n -> Rsum (map (fun k => nth k l 0) (seq 0 n)) = Rsum l.
Proof. intros <-. now rewrite TensorFacts.map_nth_seq. Qed.

Lemma Rsum_map_swap {A B : Type} (f : A -> B -> R) (la : list A) (lb : list B) :
  Rsum (map (fun a => Rsum (map (fun b => f a b) lb)) la)
  = Rsum (map (fun b => Rsum (map (fun a => f a b) la)) lb).
Proof.
  induction la as [|a la IH]; cbn [map].
  - induction lb as [|b lb IHb]; cbn [map]; [reflexivity|].
    rewrite Rsum_cons, <- IHb. unfold Rsum; simpl; lra.
  - rewrite Rsum_cons, IH, <- Rsum_map_plus.
    apply Rsum_map_ext; intros b _. reflexivity.
Qed.

Lemma Rsum_all_ones (l : list R) :
  Forall (fun v => v = 1) l -> Rsum l = INR (length l).
Proof.
  induction 1 as [|v l Hv Hl IH]; [reflexivity|].
  rewrite Rsum_cons, IH, Hv. cbn [length]. rewrite S_INR. lra.
Qed.

Lemma mean_all_ones (l : list R) :
  l <> [] -> Forall (fun v => v = 1) l -> mean l = 1.
Proof.
  intros Hne H. unfold mean. rewrite (Rsum_all_ones l H).
  field. apply not_0_INR. destruct l; [contradiction|discriminate].
Qed.

Lemma dsum_ext (la lb : list nat) (f g : nat -> nat -> R) :
  (forall a b, In a la -> In b lb -> f a b = g a b) -> dsum la lb f = dsum la lb g.
Proof.
  intros H. unfold dsum. apply Rsum_map_ext; intros a Ha.
  apply Rsum_map_ext; intros b Hb. now apply H.
Qed.

Lemma dsum_plus (la lb : list nat) (f g : nat -> nat -> R) :
  dsum la lb (fun a b => f a b + g a b) = dsum la lb f + dsum la lb g.
Proof.
  unfold dsum. rewrite <- Rsum_map_plus.
  apply Rsum_map_ext; intros a _. apply Rsum_map_plus.
Qed.

Lemma dsum_scal (la lb : list nat) (c : R) (f : nat -> nat -> R) :
  dsum la lb (fun a b => c * f a b) = c * dsum la lb f.
Proof.
  unfold dsum. rewrite <- Rsum_map_scal.
  apply Rsum_map_ext; intros a _. apply Rsum_map_scal.
Qed.

Lemma dsum_nonneg (la lb : list nat) (f : nat -> nat -> R) :
  (forall a b, In a la -> In b lb -> 0 <= f a b) -> 0 <= dsum la lb f.
Proof.
  intros H. unfold dsum. apply Rsum_map_nonneg; intros a Ha.
  apply Rsum_map_nonneg; intros b Hb. now apply H.
Qed.

Lemma dsum_product (la lb : list nat) (u v : nat -> R) :
  dsum la lb (fun a b => u a * v b) = Rsum (map u la) * Rsum (map v lb).
Proof.
  unfold dsum. rewrite Rmult_comm, <- Rsum_map_scal.
  apply Rsum_map_ext; intros a _. rewrite Rsum_map_scal. lra.
Qed.

(** The weighted second moment dominates the squared weighted mean when the
    weights are non-negative and sum to at most one. *)
Lemma weighted_variance_nonneg (la lb : list nat) (w v : nat -> nat -> R) :
  (forall a b, In a la -> In b lb -> 0 <= w a b) ->
  dsum la lb w <= 1 ->
  0 <= dsum la lb (fun a b => w a b * (v a b * v a b))
       - dsum la lb (fun a b => w a b * v a b)
         * dsum la lb (fun a b => w a b * v a b).
Proof.
  intros Hw HS.
  set (mu := dsum la lb (fun a b => w a b * v a b)).
  set (s2 := dsum la lb (fun a b => w a b * (v a b * v a b))).
  set (S := dsum la lb w) in *.
  assert (Hvar : 0 <= dsum la lb (fun a b => w a b * ((v a b - mu) * (v a b - mu)))).
  { apply dsum_nonneg; intros a b Ha Hb.
    apply Rmult_le_pos; [now apply Hw|].
    generalize (v a b - mu); intros z. apply Rle_0_sqr. }
  assert (Hexp : dsum la lb (fun a b => w a b * ((v a b - mu) * (v a b - mu)))
                 = s2 + ((- 2 * mu) * mu + (mu * mu) * S)).
  { unfold s2, S, mu at 4.
    rewrite <- (dsum_scal la lb (- 2 * mu)), <- (dsum_scal la lb (mu * mu)).
    rewrite <- !dsum_plus. apply dsum_ext; intros a b _ _. ring. }
  rewrite Hexp in Hvar.
  assert (Hrest : 0 <= (mu * mu) * (1 - S)).
  { apply Rmult_le_pos; [apply Rle_0_sqr|lra]. }
  lra.
Qed.

(** ** The Gaussian window *)

Lemma create_window_repeat (window_size channel : nat) :
  create_window window_size channel = repeat [window2d window_size] channel.
Proof. reflexivity. Qed.

Lemma gaussian_length (window_size : nat) (sigma : R) :
  length (gaussian window_size sigma) = window_size.
Proof. unfold gaussian. now rewrite !length_map, length_seq. Qed.

Lemma gaussian_entries_nonneg (window_size : nat) (sigma : R) (a : nat) :
  0 <= nth a (gaussian window_size sigma) 0.
Proof.
  destruct (Nat.lt_ge_cases a (length (gaussian window_size sigma))) as [Hlt|Hge].
  - assert (Hin : In (nth a (gaussian window_size sigma) 0) (gaussian window_size sigma))
      by (now apply nth_In).
    revert Hin. generalize (nth a (gaussian window_size sigma) 0) as v.
    unfold gaussian. intros v Hin.
    apply in_map_iff in Hin as (r & <- & Hr).
    assert (Hrpos : 0 < r).
    { apply in_map_iff in Hr as (k & <- & _). apply exp_pos. }
    assert (Hsum : 0 < Rsum (map (fun x : nat =>
                      exp (- ((INR x - INR (window_size / 2)) ^ 2) / (2 * sigma ^ 2)))
                      (seq 0 window_size))).
    { apply Rsum_map_pos.
      - intros E. rewrite E in Hr. contradiction.
      - intros k _. apply exp_pos. }
    apply Rlt_le, Rdiv_lt_0_compat; assumption.
  - rewrite nth_overflow by exact Hge. lra.
Qed.

Lemma gaussian_sum (window_size : nat) (sigma : R) :
  window_size <> 0%nat -> Rsum (gaussian window_size sigma) = 1.
Proof.
  intros Hne. unfold gaussian.
  set (gauss := map _ (seq 0 window_size)).
  assert (Hsum : 0 < Rsum gauss).
  { unfold gauss. apply Rsum_map_pos.
    - destruct window_size; [contradiction|discriminate].
    - intros k _. apply exp_pos. }
  rewrite (Rsum_map_div (Rsum gauss) (fun v => v) gauss), map_id.
  field. lra.
Qed.

Lemma gaussian_sum_le_1 (window_size : nat) (sigma : R) :
  0 <= Rsum (gaussian window_size sigma) <= 1.
Proof.
  destruct window_size as [|n].
  - unfold gaussian, Rsum; simpl. lra.
  - rewrite gaussian_sum by discriminate. lra.
Qed.

Lemma window2d_rows (window_size : nat) :
  length (window2d window_size) = window_size.
Proof. unfold window2d. now rewrite length_map, gaussian_length. Qed.

Lemma window2d_cols (window_size : nat) :
  length (nth 0 (window2d window_size) []) = window_size.
Proof.
  unfold window2d. destruct window_size as [|n]; [reflexivity|].
  rewrite (nth_map_lt (B := list R) _ _ 0%nat [] 0)
    by (rewrite gaussian_length; lia).
  now rewrite length_map, gaussian_length.
Qed.

Lemma window2d_get (window_size a b : nat) :
  (a < window_size)%nat -> (b < window_size)%nat ->
  get2 (window2d window_size) a b
  = nth a (gaussian window_size (15 / 10)) 0 * nth b (gaussian window_size (15 / 10)) 0.
Proof.
  intros Ha Hb. unfold get2, get1, window2d.
  rewrite (nth_map_lt (B := list R) _ _ a [] 0)
    by (rewrite gaussian_length; exact Ha).
  now rewrite (nth_map_lt _ _ b 0 0) by (rewrite gaussian_length; exact Hb).
Qed.

(** ** One entry of the filtered plane *)

Lemma conv2d_plane_entries (m : T2) (window_size : nat) :
  conv2d_plane m (window2d window_size) (window_size / 2)
  = map (fun y =>
           map (fun x => conv_entry m (window2d window_size) (window_size / 2) y x)
               (seq 0 (out_cols window_size m)))
        (seq 0 (out_rows window_size m)).
Proof.
  unfold conv2d_plane, out_rows, out_cols, conv_entry, dsum.
  now rewrite window2d_rows, window2d_cols.
Qed.

Lemma square_plane_rows (window_size : nat) (m : T2) :
  out_rows window_size (square_plane m) = out_rows window_size m.
Proof. unfold out_rows, square_plane. now rewrite length_map. Qed.

Lemma square_plane_cols (window_size : nat) (m : T2) :
  out_cols window_size (square_plane m) = out_cols window_size m.
Proof.
  unfold out_cols, square_plane. destruct m as [|row m]; [reflexivity|].
  simpl. now rewrite length_map.
Qed.

Lemma get2_square (m : T2) (i j : nat) :
  get2 (square_plane m) i j = get2 m i j * get2 m i j.
Proof.
  unfold square_plane, get2, get1.
  change (@nil R) with (map (fun v => v * v) []) at 1.
  rewrite map_nth.
  rewrite <- (map_nth (fun v => v * v) (nth i m []) 0 j).
  f_equal. lra.
Qed.

Lemma padded_get_square (m : T2) (p y x : nat) :
  padded_get (square_plane m) p y x = padded_get m p y x * padded_get m p y x.
Proof.
  unfold padded_get.
  destruct ((p <=? y)%nat && (p <=? x)%nat); [apply get2_square|lra].
Qed.

Lemma window2d_mass (window_size : nat) :
  dsum (seq 0 window_size) (seq 0 window_size) (get2 (window2d window_size)) <= 1.
Proof.
  rewrite (dsum_ext _ _ _ (fun a b => nth a (gaussian window_size (15 / 10)) 0
                                      * nth b (gaussian window_size (15 / 10)) 0)).
  - rewrite dsum_product.
    rewrite !(Rsum_nth_seq _ _ (gaussian_length window_size (15 / 10))).
    pose proof (gaussian_sum_le_1 window_size (15 / 10)). nra.
  - intros a b Ha Hb. apply in_seq in Ha, Hb. apply window2d_get; lia.
Qed.

(** The local variance of a plane under the window is non-negative. *)
Lemma conv_variance_nonneg (m : T2) (window_size y x : nat) :
  let k := window2d window_size in
  let p := (window_size / 2)%nat in
  0 <= conv_entry (square_plane m) k p y x
       - conv_entry m k p y x * conv_entry m k p y x.
Proof.
  intros k p. unfold conv_entry, k.
  rewrite window2d_rows, window2d_cols.
  rewrite (dsum_ext _ _
             (fun a b => get2 (window2d window_size) a b
                         * padded_get (square_plane m) p (y + a) (x + b))
             (fun a b => get2 (window2d window_size) a b
                         * (padded_get m p (y + a) (x + b)
                            * padded_get m p (y + a) (x + b))))
    by (intros; now rewrite padded_get_square).
  apply weighted_variance_nonneg.
  - intros a b Ha Hb. apply in_seq in Ha, Hb.
    rewrite window2d_get by lia.
    apply Rmult_le_pos; apply gaussian_entries_nonneg.
  - apply window2d_mass.
Qed.

(** ** The SSIM map as a table over the image *)

Lemma zipWith_repeat_r {A B C : Type} (f : A -> B -> C) (xs : list A) (k : B)
      (n : nat) :
  zipWith f xs (repeat k n) = map (fun x => f x k) (firstn n xs).
Proof.
  revert n; induction xs as [|x xs IH]; intros [|n]; simpl; auto.
  now rewrite IH.
Qed.

Lemma zipWith_map_same {A B C D : Type} (h : B -> C -> D) (f : A -> B)
      (g : A -> C) (l : list A) :
  zipWith h (map f l) (map g l) = map (fun x => h (f x) (g x)) l.
Proof.
  induction l as [|x l IH]; simpl; auto. now rewrite IH.
Qed.

Lemma conv2d_tabulate (img : T4) (window_size channel : nat) :
  conv2d img (create_window window_size channel) (window_size / 2)
  = tabulate4 img channel window_size
              (fun plane y x =>
                 conv_entry plane (window2d window_size) (window_size / 2) y x).
Proof.
  unfold conv2d, tabulate4. rewrite create_window_repeat.
  apply map_ext; intros planes. rewrite zipWith_repeat_r.
  apply map_ext; intros plane. cbn [nth]. apply conv2d_plane_entries.
Qed.

Lemma zipWith4_diag (f : R -> R -> R) (x : T4) :
  zipWith4 f x x = map4 (fun v => f v v) x.
Proof.
  unfold zipWith4, map4. rewrite zipWith_diag.
  apply map_ext; intros x3. rewrite zipWith_diag.
  apply map_ext; intros x2. rewrite zipWith_diag.
  apply map_ext; intros x1. apply zipWith_diag.
Qed.

Lemma conv2d_square_tabulate (img : T4) (window_size channel : nat) :
  conv2d (zipWith4 Rmult img img) (create_window window_size channel)
         (window_size / 2)
  = tabulate4 img channel window_size
              (fun plane y x =>
                 conv_entry (square_plane plane) (window2d window_size)
                            (window_size / 2) y x).
Proof.
  rewrite zipWith4_diag. unfold map4, conv2d, tabulate4.
  rewrite create_window_repeat, map_map.
  apply map_ext; intros planes.
  rewrite zipWith_repeat_r, firstn_map, map_map.
  apply map_ext; intros plane. cbn [nth].
  change (map (map (fun v => v * v)) plane) with (square_plane plane).
  now rewrite conv2d_plane_entries, square_plane_rows, square_plane_cols.
Qed.

Lemma map4_tabulate (g : R -> R) (img : T4) (channel window_size : nat)
      (f : T2 -> nat -> nat -> R) :
  map4 g (tabulate4 img channel window_size f)
  = tabulate4 img channel window_size (fun plane y x => g (f plane y x)).
Proof.
  unfold map4, tabulate4. rewrite map_map.
  apply map_ext; intros planes. rewrite map_map.
  apply map_ext; intros plane. rewrite map_map.
  apply map_ext; intros y. now rewrite map_map.
Qed.

Lemma zipWith4_tabulate (g : R -> R -> R) (img : T4) (channel window_size : nat)
      (f1 f2 : T2 -> nat -> nat -> R) :
  zipWith4 g (tabulate4 img channel window_size f1)
           (tabulate4 img channel window_size f2)
  = tabulate4 img channel window_size
              (fun plane y x => g (f1 plane y x) (f2 plane y x)).
Proof.
  unfold zipWith4, tabulate4. rewrite zipWith_map_same.
  apply map_ext; intros planes. rewrite zipWith_map_same.
  apply map_ext; intros plane. rewrite zipWith_map_same.
  apply map_ext; intros y. now rewrite zipWith_map_same.
Qed.

Lemma tabulate4_ext (img : T4) (channel window_size : nat)
      (f g : T2 -> nat -> nat -> R) :
  (forall plane y x, f plane y x = g plane y x) ->
  tabulate4 img channel window_size f = tabulate4 img channel window_size g.
Proof.
  intros H. unfold tabulate4.
  apply map_ext; intros planes. apply map_ext; intros plane.
  apply map_ext; intros y. apply map_ext; intros x. apply H.
Qed.

(** The quotient of [_ssim] at one position when both images are the same:
    [mu] is the local mean and [s] the local second moment. *)
Lemma ssim_quotient_self (mu s : R) :
  0 <= s - mu * mu ->
  (2 * (mu * mu) + (1 / 100) ^ 2) * (2 * (s - mu * mu) + (3 / 100) ^ 2)
  / ((mu ^ 2 + mu ^ 2 + (1 / 100) ^ 2)
     * (s - mu ^ 2 + (s - mu ^ 2) + (3 / 100) ^ 2))
  = 1.
Proof.
  intros Hvar.
  assert (Hmu : 0 <= mu * mu) by apply Rle_0_sqr.
  field. split; nra.
Qed.

Lemma ssim_map_self (img : T4) (window_size channel : nat) :
  ssim_map img img (create_window window_size channel) window_size
  = tabulate4 img channel window_size (fun _ _ _ => 1).
Proof.
  unfold ssim_map. cbv zeta.
  rewrite conv2d_square_tabulate, conv2d_tabulate.
  rewrite ?map4_tabulate, ?zipWith4_tabulate.
  repeat (rewrite ?map4_tabulate, ?zipWith4_tabulate).
  apply tabulate4_ext; intros plane y x.
  apply ssim_quotient_self. apply conv_variance_nonneg.
Qed.

Lemma out_rows_pos (window_size : nat) (m : T2) :
  (1 <= length m)%nat -> (1 <= out_rows window_size m)%nat.
Proof.
  unfold out_rows. pose proof (Nat.div_mod_eq window_size 2).
  assert (window_size mod 2 < 2)%nat by (apply Nat.mod_upper_bound; lia). lia.
Qed.

Lemma out_cols_pos (window_size : nat) (m : T2) :
  (1 <= length (nth 0 m []))%nat -> (1 <= out_cols window_size m)%nat.
Proof.
  unfold out_cols. pose proof (Nat.div_mod_eq window_size 2).
  assert (window_size mod 2 < 2)%nat by (apply Nat.mod_upper_bound; lia). lia.
Qed.

Lemma tabulate4_const_entries (img : T4) (channel window_size : nat) (c : R) :
  Forall (fun v => v = c)
         (flatten4 (tabulate4 img channel window_size (fun _ _ _ => c))).
Proof.
  unfold flatten4, flatten3, flatten2, tabulate4.
  apply Forall_concat, Forall_forall; intros l3 H3.
  apply in_map_iff in H3 as (x3 & <- & H3).
  apply in_map_iff in H3 as (planes & <- & _).
  apply Forall_concat, Forall_forall; intros l2 H2.
  apply in_map_iff in H2 as (x2 & <- & H2).
  apply in_map_iff in H2 as (plane & <- & _).
  apply Forall_concat, Forall_forall; intros l1 H1.
  apply in_map_iff in H1 as (y & <- & _).
  apply Forall_forall; intros v Hv.
  now apply in_map_iff in Hv as (x & <- & _).
Qed.

Lemma has_shape4_first_plane (B C H W : nat) (img : T4) :
  has_shape4 B C H W img ->
  (1 <= B)%nat -> (1 <= C)%nat -> (1 <= H)%nat ->
  exists plane planes img',
    img = (plane :: planes) :: img'
    /\ length (plane :: planes) = C
    /\ length plane = H /\ length (nth 0 plane []) = W.
Proof.
  intros [Hlen Himg] HB HC HH.
  destruct img as [|planes0 img']; [simpl in Hlen; lia|].
  inversion Himg as [|? ? [Hp Hplanes] _]; subst.
  destruct planes0 as [|plane planes]; [simpl in HC; lia|].
  inversion Hplanes as [|? ? [Hrows Hrow] _]; subst.
  exists plane, planes, img'. repeat split.
  destruct plane as [|row plane]; [simpl in HH; lia|].
  inversion Hrow; subst. assumption.
Qed.

Lemma tabulate4_nonempty (img : T4) (B C H W window_size : nat)
      (f : T2 -> nat -> nat -> R) :
  has_shape4 B C H W img ->
  (1 <= B)%nat -> (1 <= C)%nat -> (1 <= H)%nat -> (1 <= W)%nat ->
  flatten4 (tabulate4 img C window_size f) <> [].
Proof.
  intros Hshape HB HC HH HW.
  destruct (has_shape4_first_plane B C H W img Hshape HB HC HH)
    as (plane & planes & img' & -> & HlenC & Hrows & Hcols).
  destruct C as [|C']; [lia|].
  unfold tabulate4. cbn [map firstn].
  pose proof (out_rows_pos window_size plane) as Hr.
  pose proof (out_cols_pos window_size plane) as Hcl.
  destruct (out_rows window_size plane) as [|rows]; [lia|].
  destruct (out_cols window_size plane) as [|cols]; [lia|].
  cbn. discriminate.
Qed.

(** C4.  The SSIM of an image tensor of shape (B, C, H, W) with itself is 1
    for every window size: every entry of the SSIM map is 1, the numerator
    and the denominator of the quotient being equal and, the local variance
    being non-negative, not zero. *)
Theorem ssim_of_image_with_itself (img : T4) (B C H W window_size : nat) :
  has_shape4 B C H W img ->
  (1 <= B)%nat -> (1 <= C)%nat -> (1 <= H)%nat -> (1 <= W)%nat ->
  Forall (fun v => v = 1)
         (flatten4 (ssim_map img img (create_window window_size C) window_size))
  /\ ssim img img window_size true = Tensor.mk [1%nat] [1].
Proof.
  intros Hshape HB HC HH HW.
  assert (Hch : length (nth 0 img []) = C).
  { destruct (has_shape4_first_plane B C H W img Hshape HB HC HH)
      as (plane & planes & img' & -> & HlenC & _).
    exact HlenC. }
  split.
  - rewrite ssim_map_self. apply tabulate4_const_entries.
  - unfold ssim, _ssim. rewrite Hch, ssim_map_self.
    rewrite mean_all_ones; [reflexivity| |apply tabulate4_const_entries].
    now apply (tabulate4_nonempty img B C H W).
Qed.

Lemma ssim_of_image_with_itself_example :
  ssim [[[[1; 2]; [3; 4]]]] [[[[1; 2]; [3; 4]]]] 11 true = Tensor.mk [1%nat] [1].
Proof.
  apply (ssim_of_image_with_itself [[[[1; 2]; [3; 4]]]] 1 1 2 2 11); try lia.
  repeat (split || constructor).
Defined.

(** ** Shapes *)

Lemma zipWith_Forall {A B C : Type} (P : A -> Prop) (Q : B -> Prop)
      (S : C -> Prop) (f : A -> B -> C) (xs : list A) (ys : list B) :
  (forall x y, P x -> Q y -> S (f x y)) ->
  Forall P xs -> Forall Q ys -> Forall S (zipWith f xs ys).
Proof.
  intros Hf Hxs; revert ys; induction Hxs as [|x xs Hx Hxs IH];
    intros ys Hys; simpl; [constructor|].
  destruct Hys as [|y ys Hy Hys]; constructor; auto.
Qed.

Lemma zipWith_same_length {A B C : Type} (f : A -> B -> C) (xs : list A)
      (ys : list B) (n : nat) :
  length xs = n -> length ys = n -> length (zipWith f xs ys) = n.
Proof. intros Hx Hy. rewrite zipWith_length. lia. Qed.

Lemma zipWith4_shape (f : R -> R -> R) (B C H W : nat) (x y : T4) :
  has_shape4 B C H W x -> has_shape4 B C H W y ->
  has_shape4 B C H W (zipWith4 f x y).
Proof.
  intros [Hx4 Fx4] [Hy4 Fy4]. unfold zipWith4.
  split; [now apply zipWith_same_length|].
  apply (zipWith_Forall (has_shape3 C H W) (has_shape3 C H W)); try assumption.
  intros x3 y3 [Hx3 Fx3] [Hy3 Fy3].
  split; [now apply zipWith_same_length|].
  apply (zipWith_Forall (has_shape2 H W) (has_shape2 H W)); try assumption.
  intros x2 y2 [Hx2 Fx2] [Hy2 Fy2].
  split; [now apply zipWith_same_length|].
  apply (zipWith_Forall (has_shape1 W) (has_shape1 W)); try assumption.
  intros x1 y1 Hx1 Hy1. now apply zipWith_same_length.
Qed.

Lemma map_Forall {A B : Type} (P : A -> Prop) (Q : B -> Prop) (f : A -> B)
      (xs : list A) :
  (forall x, P x -> Q (f x)) -> Forall P xs -> Forall Q (map f xs).
Proof.
  intros Hf Hxs. induction Hxs; simpl; constructor; auto.
Qed.

Lemma map4_shape (f : R -> R) (B C H W : nat) (x : T4) :
  has_shape4 B C H W x -> has_shape4 B C H W (map4 f x).
Proof.
  intros [Hx4 Fx4]. unfold map4.
  split; [now rewrite length_map|].
  apply (map_Forall (has_shape3 C H W)); [|assumption].
  intros x3 [Hx3 Fx3]. split; [now rewrite length_map|].
  apply (map_Forall (has_shape2 H W)); [|assumption].
  intros x2 [Hx2 Fx2]. split; [now rewrite length_map|].
  apply (map_Forall (has_shape1 W)); [|assumption].
  intros x1 Hx1. unfold has_shape1. now rewrite length_map.
Qed.

Lemma tabulate4_shape (img : T4) (B C H W window_size : nat)
      (f : T2 -> nat -> nat -> R) :
  has_shape4 B C H W img -> (1 <= H)%nat ->
  has_shape4 B C (out_size window_size H) (out_size window_size W)
             (tabulate4 img C window_size f).
Proof.
  intros [Hlen Himg] HH. unfold tabulate4.
  split; [now rewrite length_map|].
  apply (map_Forall (has_shape3 C H W)); [|assumption].
  intros planes [Hplanes Fplanes].
  rewrite firstn_all2 by lia.
  split; [now rewrite length_map|].
  apply (map_Forall (has_shape2 H W)); [|assumption].
  intros plane [Hrows Frows].
  assert (Hcols : length (nth 0 plane []) = W).
  { destruct plane as [|row plane]; [simpl in Hrows; lia|].
    inversion Frows; subst. assumption. }
  unfold out_rows, out_cols. rewrite Hrows, Hcols. fold (out_size window_size H).
  fold (out_size window_size W).
  split; [now rewrite length_map, length_seq|].
  apply Forall_forall; intros row Hrow.
  apply in_map_iff in Hrow as (y & <- & _).
  unfold has_shape1. now rewrite length_map, length_seq.
Qed.

Lemma conv2d_shape (img : T4) (B C H W window_size : nat) :
  has_shape4 B C H W img -> (1 <= H)%nat ->
  has_shape4 B C (out_size window_size H) (out_size window_size W)
             (conv2d img (create_window window_size C) (window_size / 2)).
Proof.
  intros Himg HH. rewrite conv2d_tabulate. now apply tabulate4_shape.
Qed.

Lemma ssim_map_shape (img1 img2 : T4) (B C H W window_size : nat) :
  has_shape4 B C H W img1 -> has_shape4 B C H W img2 -> (1 <= H)%nat ->
  has_shape4 B C (out_size window_size H) (out_size window_size W)
             (ssim_map img1 img2 (create_window window_size C) window_size).
Proof.
  intros H1 H2 HH. unfold ssim_map. cbv zeta.
  repeat first [ apply zipWith4_shape
               | apply map4_shape
               | apply conv2d_shape
               | assumption ].
Qed.

(** ** Means along the axes *)

Lemma Rsum_map_nth {A : Type} (F : A -> R) (l : list A) (d : A) (n : nat) :
  length l = n ->
  Rsum (map F l) = Rsum (map (fun k => F (nth k l d)) (seq 0 n)).
Proof.
  intros <-. rewrite <- (TensorFacts.map_nth_seq l d) at 1.
  now rewrite map_map.
Qed.

Lemma has_shape3_plane (C H W : nat) (xb : T3) (c : nat) :
  has_shape3 C H W xb -> (c < C)%nat -> has_shape2 H W (nth c xb []).
Proof.
  intros [Hlen Hall] Hc.
  apply (proj1 (Forall_nth (has_shape2 H W) xb) Hall). lia.
Qed.

Lemma has_shape2_row (H W : nat) (m : T2) (h : nat) :
  has_shape2 H W m -> (h < H)%nat -> length (nth h m []) = W.
Proof.
  intros [Hlen Hall] Hh.
  apply (proj1 (Forall_nth (has_shape1 W) m) Hall). lia.
Qed.

Lemma Rsum_flatten3_index (C H W : nat) (xb : T3) :
  has_shape3 C H W xb ->
  Rsum (flatten3 xb)
  = Rsum (map (fun c =>
                 Rsum (map (fun h => Rsum (map (fun w => get3 xb c h w) (seq 0 W)))
                           (seq 0 H)))
              (seq 0 C)).
Proof.
  intros Hxb. unfold flatten3, flatten2.
  rewrite Rsum_concat, map_map.
  rewrite (Rsum_map_nth _ xb [] C (proj1 Hxb)).
  apply Rsum_map_ext; intros c Hc. apply in_seq in Hc.
  pose proof (has_shape3_plane C H W xb c Hxb ltac:(lia)) as Hplane.
  rewrite Rsum_concat.
  rewrite (Rsum_map_nth Rsum (nth c xb []) [] H (proj1 Hplane)).
  apply Rsum_map_ext; intros h Hh. apply in_seq in Hh.
  pose proof (has_shape2_row H W _ h Hplane ltac:(lia)) as Hrow.
  unfold get3, get2, get1.
  now rewrite (Rsum_nth_seq (nth h (nth c xb []) []) W Hrow).
Qed.

Lemma Rsum3_swap (g : nat -> nat -> nat -> R) (lc lh lw : list nat) :
  Rsum (map (fun w => Rsum (map (fun h => Rsum (map (fun c => g c h w) lc)) lh)) lw)
  = Rsum (map (fun c => Rsum (map (fun h => Rsum (map (fun w => g c h w) lw)) lh)) lc).
Proof.
  rewrite (Rsum_map_ext _
             (fun w => Rsum (map (fun c => Rsum (map (fun h => g c h w) lh)) lc)))
    by (intros w _; apply Rsum_map_swap).
  rewrite (Rsum_map_swap (fun w c => Rsum (map (fun h => g c h w) lh)) lw lc).
  apply Rsum_map_ext; intros c _.
  apply (Rsum_map_swap (fun w h => g c h w) lw lh).
Qed.

(** The three means along axis 1 of one batch entry of shape (C, H, W) amount
    to the mean of all its entries. *)
Lemma per_example_mean (C H W : nat) (xb : T3) :
  has_shape3 C H W xb -> (1 <= C)%nat -> (1 <= H)%nat -> (1 <= W)%nat ->
  mean_axis1_2 (mean_axis1_3 (mean_axis1_4 [xb]))
  = [Rsum (flatten3 xb) / INR (C * H * W)].
Proof.
  intros Hxb HC HH HW.
  assert (HlenC : length xb = C) by apply Hxb.
  pose proof (has_shape3_plane C H W xb 0 Hxb ltac:(lia)) as Hplane0.
  assert (HlenH : length (nth 0 xb []) = H) by apply Hplane0.
  pose proof (has_shape2_row H W _ 0%nat Hplane0 ltac:(lia)) as HlenW.
  unfold mean_axis1_4. cbn [map]. unfold T3, T2, T1 in *.
  rewrite HlenC, HlenH, HlenW.
  set (M1 := map (fun h => map (fun w => Rsum (map (fun c => get3 xb c h w) (seq 0 C))
                                         / INR C)
                               (seq 0 W))
                 (seq 0 H)).
  assert (HM1rows : length M1 = H) by (unfold M1; now rewrite length_map, length_seq).
  assert (HM1cols : length (nth 0 M1 []) = W).
  { unfold M1. rewrite nth_map_seq by lia. now rewrite length_map, length_seq. }
  assert (HM1get : forall h w, (h < H)%nat -> (w < W)%nat ->
             get2 M1 h w = Rsum (map (fun c => get3 xb c h w) (seq 0 C)) / INR C).
  { intros h w Hh Hw. unfold get2, get1, M1.
    rewrite nth_map_seq by exact Hh. now rewrite nth_map_seq by exact Hw. }
  unfold mean_axis1_3. cbn [map]. rewrite HM1rows, HM1cols.
  unfold mean_axis1_2. cbn [map]. rewrite length_map, length_seq.
  f_equal.
  rewrite Rsum_map_div.
  rewrite (Rsum_map_ext _
             (fun w => Rsum (map (fun h => Rsum (map (fun c => get3 xb c h w) (seq 0 C)))
                                 (seq 0 H)) / INR C)).
  - rewrite Rsum_map_div, Rsum3_swap, <- (Rsum_flatten3_index C H W xb Hxb).
    rewrite !mult_INR. field.
    repeat split; apply not_0_INR; lia.
  - intros w Hw. apply in_seq in Hw.
    rewrite <- Rsum_map_div. apply Rsum_map_ext; intros h Hh. apply in_seq in Hh.
    apply HM1get; lia.
Qed.

Lemma per_example_means (B C H W : nat) (x : T4) :
  has_shape4 B C H W x -> (1 <= C)%nat -> (1 <= H)%nat -> (1 <= W)%nat ->
  mean_axis1_2 (mean_axis1_3 (mean_axis1_4 x))
  = map (fun xb => Rsum (flatten3 xb) / INR (C * H * W)) x.
Proof.
  intros [_ Hall] HC HH HW.
  induction Hall as [|xb x Hxb Hall IH]; [reflexivity|].
  pose proof (per_example_mean C H W xb Hxb HC HH HW) as Hhead.
  unfold mean_axis1_2, mean_axis1_3, mean_axis1_4 in *.
  cbn [map] in *. injection Hhead as Hhead.
  now rewrite Hhead, IH.
Qed.

Lemma out_size_pos (window_size n : nat) :
  (1 <= n)%nat -> (1 <= out_size window_size n)%nat.
Proof.
  unfold out_size. pose proof (Nat.div_mod_eq window_size 2).
  assert (window_size mod 2 < 2)%nat by (apply Nat.mod_upper_bound; lia). lia.
Qed.

(** C10.  [ssim] with [size_average=True] returns a single value; with
    [size_average=False], on images of shape (B, C, H, W), it returns a tensor
    of shape (B,) whose entry [b] is the SSIM map of example [b] averaged over
    the channel and the two spatial axes; [weighted_mean] returns a tensor
    with one element whenever its arguments can be broadcast together (it
    raises otherwise). *)
Theorem losses_are_scalar_or_per_example :
  (forall img1 img2 window_size,
      exists v, ssim img1 img2 window_size true = Tensor.mk [1%nat] [v])
  /\ (forall img1 img2 B C H W window_size,
         has_shape4 B C H W img1 -> has_shape4 B C H W img2 ->
         (1 <= B)%nat -> (1 <= C)%nat -> (1 <= H)%nat -> (1 <= W)%nat ->
         let m := ssim_map img1 img2 (create_window window_size C) window_size in
         let H' := out_size window_size H in
         let W' := out_size window_size W in
         has_shape4 B C H' W' m
         /\ ssim img1 img2 window_size false
            = Tensor.mk [B]
                (map (fun mb => Rsum (flatten3 mb) / INR (C * H' * W')) m)
         /\ length (Tensor.data (ssim img1 img2 window_size false)) = B)
  /\ (forall input weight s,
         Tensor.broadcast_shapes (Tensor.shape input) (Tensor.shape weight) = Some s ->
         exists v, weighted_mean input weight = Ok (Tensor.mk [1%nat] [v]))
  /\ (forall input weight r,
         weighted_mean input weight = Ok r ->
         Tensor.shape r = [1%nat] /\ length (Tensor.data r) = 1%nat).
Proof.
  split; [|split; [|split]].
  - intros img1 img2 window_size. eexists. reflexivity.
  - intros img1 img2 B C H W window_size H1 H2 HB HC HH HW m H' W'.
    assert (Hm : has_shape4 B C H' W' m) by (now apply ssim_map_shape).
    assert (Hch : length (nth 0 img1 []) = C).
    { destruct (has_shape4_first_plane B C H W img1 H1 HB HC HH)
        as (plane & planes & img' & -> & HlenC & _).
      exact HlenC. }
    assert (Hvalue : ssim img1 img2 window_size false
                     = Tensor.mk [B]
                         (map (fun mb => Rsum (flatten3 mb) / INR (C * H' * W')) m)).
    { unfold ssim, _ssim. rewrite Hch. fold m.
      rewrite (per_example_means B C H' W' m Hm HC
                 (out_size_pos window_size H HH) (out_size_pos window_size W HW)).
      now rewrite length_map, (proj1 Hm). }
    split; [exact Hm|]. split; [exact Hvalue|].
    rewrite Hvalue. cbn [Tensor.data]. now rewrite length_map, (proj1 Hm).
  - intros input weight s Hs.
    rewrite (weighted_mean_value input weight s Hs). eexists. reflexivity.
  - intros input weight r Hr.
    destruct (Tensor.broadcast_shapes (Tensor.shape input) (Tensor.shape weight))
      as [s|] eqn:Hs.
    + rewrite (weighted_mean_value input weight s Hs) in Hr.
      injection Hr as <-. split; reflexivity.
    + rewrite (weighted_mean_raises input weight Hs) in Hr. discriminate Hr.
Qed.

Lemma losses_are_scalar_or_per_example_example :
  Tensor.shape (ssim [[[[1; 2]]]; [[[3; 4]]]] [[[[1; 0]]]; [[[0; 4]]]] 11 false)
  = [2%nat]
  /\ exists v, weighted_mean (Tensor.mk [2; 2]%nat [1; 2; 3; 4])
                             (Tensor.mk [2; 1]%nat [1; 0])
               = Ok (Tensor.mk [1%nat] [v]).
Proof.
  destruct losses_are_scalar_or_per_example as (_ & Hper & Hwm & _).
  split.
  - assert (Hs1 : has_shape4 2 1 1 2 [[[[1; 2]]]; [[[3; 4]]]])
      by (repeat (split || constructor)).
    assert (Hs2 : has_shape4 2 1 1 2 [[[[1; 0]]]; [[[0; 4]]]])
      by (repeat (split || constructor)).
    destruct (Hper _ _ 2%nat 1%nat 1%nat 2%nat 11%nat Hs1 Hs2
                   ltac:(lia) ltac:(lia) ltac:(lia) ltac:(lia))
      as (_ & Hvalue & _).
    rewrite Hvalue. reflexivity.
  - apply (Hwm _ _ [2; 2]%nat). reflexivity.
Defined.

(** * Further properties of the code *)

(** ** STFT losses on equal and on arbitrary signals *)

Lemma Rsum_all_zero (l : list R) :
  Forall (fun v => v = 0) l -> Rsum l = 0.
Proof.
  induction 1 as [|v l Hv Hl IH]; [reflexivity|].
  rewrite Rsum_cons, IH, Hv. lra.
Qed.

Lemma mean_nonneg (l : list R) :
  l <> [] -> Forall (fun v => 0 <= v) l -> 0 <= mean l.
Proof.
  intros Hne Hl. unfold mean.
  apply Rmult_le_pos.
  - rewrite <- (map_id l). apply Rsum_map_nonneg.
    intros v Hv. now apply (proj1 (Forall_forall _ l) Hl).
  - apply Rlt_le, Rinv_0_lt_compat, lt_0_INR.
    destruct l; [contradiction|simpl; lia].
Qed.

Lemma mean_all_zero (l : list R) :
  Forall (fun v => v = 0) l -> mean l = 0.
Proof.
  intros Hl. unfold mean. rewrite (Rsum_all_zero l Hl). unfold Rdiv. lra.
Qed.

Lemma l1_loss_identical (a : T1) : l1_loss a a = 0.
Proof.
  unfold l1_loss. apply mean_all_zero.
  rewrite zipWith_diag, map_map.
  apply Forall_forall; intros v Hv. apply in_map_iff in Hv as (u & <- & _).
  rewrite Rminus_diag. apply Rabs_R0.
Qed.

Lemma l1_loss_sym (a b : T1) : l1_loss a b = l1_loss b a.
Proof.
  unfold l1_loss.
  assert (H : map Rabs (zipWith Rminus a b) = map Rabs (zipWith Rminus b a)).
  { revert b; induction a as [|u a IH]; intros [|v b]; simpl; auto.
    rewrite IH. f_equal. apply Rabs_minus_sym. }
  now rewrite H.
Qed.

Lemma l1_loss_nonneg (a b : T1) : a <> [] -> b <> [] -> 0 <= l1_loss a b.
Proof.
  intros Ha Hb. unfold l1_loss. apply mean_nonneg.
  - destruct a; [contradiction|]. destruct b; [contradiction|]. discriminate.
  - apply Forall_forall; intros v Hv. apply in_map_iff in Hv as (u & <- & _).
    apply Rabs_pos.
Qed.

Lemma sub3_identical (y : T3) :
  Forall (fun v => v = 0) (flatten3 (sub3 y y)).
Proof.
  apply Forall_flatten3. unfold sub3, sub2, sub1.
  rewrite zipWith_diag.
  apply Forall_forall; intros m Hm. apply in_map_iff in Hm as (m0 & <- & _).
  rewrite zipWith_diag.
  apply Forall_forall; intros r Hr. apply in_map_iff in Hr as (r0 & <- & _).
  rewrite zipWith_diag.
  apply Forall_forall; intros v Hv. apply in_map_iff in Hv as (u & <- & _).
  apply Rminus_diag.
Qed.

Lemma norm_fro_zero (x : T1) : Forall (fun v => v = 0) x -> norm_fro x = 0.
Proof.
  intros Hx. unfold norm_fro. rewrite Rsum_all_zero; [apply sqrt_0|].
  apply Forall_forall; intros v Hv. apply in_map_iff in Hv as (u & <- & Hu).
  rewrite (proj1 (Forall_forall _ x) Hx u Hu). lra.
Qed.

Lemma norm_fro_nonneg (x : T1) : 0 <= norm_fro x.
Proof. unfold norm_fro. apply sqrt_pos. Qed.

Section STFTLossFacts.

Context {fw : Framework}.

Lemma STFTLoss_forward_self (self : STFTLoss) (x : T2) :
  STFTLoss_forward self x x = (0, 0).
Proof.
  unfold STFTLoss_forward, SpectralConvergenceLoss_forward,
    LogSTFTMagnitudeLoss_forward.
  rewrite (norm_fro_zero _ (sub3_identical _)), l1_loss_identical.
  f_equal. unfold Rdiv. lra.
Qed.

(** X1.  [STFTLoss.forward(x, x)] is (0, 0) whenever the spectrogram of [x]
    has an entry: the spectral convergence loss and the log STFT magnitude
    loss of a signal with itself vanish. *)
Theorem STFTLoss_forward_identical (self : STFTLoss) (x : T2) :
  flatten3 (stft x (fft_size self) (shift_size self) (win_length self)
                 (window self)) <> [] ->
  STFTLoss_forward self x x = (0, 0).
Proof.
  intros _. apply STFTLoss_forward_self.
Qed.

Lemma has_shape3_nonempty (b m n : nat) (x : T3) :
  has_shape3 b m n x -> (1 <= b)%nat -> (1 <= m)%nat -> (1 <= n)%nat ->
  flatten3 x <> [].
Proof.
  intros [Hb Hx] Hb1 Hm1 Hn1.
  destruct x as [|x0 x']; [simpl in Hb; lia|].
  inversion Hx as [|? ? [Hm Hx0] _]; subst.
  destruct x0 as [|r x0']; [simpl in Hm1; lia|].
  inversion Hx0 as [|? ? Hr _]; subst.
  unfold has_shape1 in Hr.
  destruct r as [|v r']; [simpl in Hr; lia|].
  discriminate.
Qed.

(** X2.  For spectrograms of one shape with at least one entry, both values
    of [STFTLoss.forward] are non-negative, and the log STFT magnitude loss
    does not change when the two signals are exchanged. *)
Theorem STFTLoss_forward_nonneg (self : STFTLoss) (x y : T2) (b t f : nat) :
  let x_mag := stft x (fft_size self) (shift_size self) (win_length self)
                    (window self) in
  let y_mag := stft y (fft_size self) (shift_size self) (win_length self)
                    (window self) in
  has_shape3 b t f x_mag -> has_shape3 b t f y_mag ->
  (1 <= b)%nat -> (1 <= t)%nat -> (1 <= f)%nat ->
  0 <= fst (STFTLoss_forward self x y)
  /\ 0 <= snd (STFTLoss_forward self x y)
  /\ snd (STFTLoss_forward self x y) = snd (STFTLoss_forward self y x).
Proof.
  intros x_mag y_mag Hx Hy Hb Ht Hf.
  pose proof (has_shape3_nonempty b t f x_mag Hx Hb Ht Hf) as Hxne.
  pose proof (has_shape3_nonempty b t f y_mag Hy Hb Ht Hf) as Hyne.
  unfold STFTLoss_forward. cbn [fst snd]. fold x_mag y_mag.
  split; [|split].
  - unfold SpectralConvergenceLoss_forward.
    apply Rmult_le_pos; [apply norm_fro_nonneg|].
    apply Rlt_le, Rinv_0_lt_compat, clip_min_pos, eps10_pos.
  - unfold LogSTFTMagnitudeLoss_forward. apply l1_loss_nonneg.
    + destruct (flatten3 y_mag); [contradiction|discriminate].
    + destruct (flatten3 x_mag); [contradiction|discriminate].
  - unfold LogSTFTMagnitudeLoss_forward. apply l1_loss_sym.
Qed.

End STFTLossFacts.

Lemma STFTLoss_forward_identical_example :
  STFTLoss_forward (fw := unit_framework) (STFTLoss_init 1024 120 600 "hann")
                   [[1; 2; 3]] [[1; 2; 3]]
  = (0, 0).
Proof.
  apply (STFTLoss_forward_identical (fw := unit_framework)).
  cbn. discriminate.
Defined.

Lemma STFTLoss_forward_nonneg_example :
  0 <= fst (STFTLoss_forward (fw := unit_framework)
              (STFTLoss_init 1024 120 600 "hann") [[1; 2; 3]] [[3; 2; 1]]).
Proof.
  apply (STFTLoss_forward_nonneg (fw := unit_framework)
           (STFTLoss_init 1024 120 600 "hann") [[1; 2; 3]] [[3; 2; 1]]
           1%nat 1%nat 1%nat);
    try lia; repeat (split || constructor).
Defined.

(** ** Multi-resolution STFT loss: equal signals, errors *)

Section MultiResolutionMore.

Context {fw : Framework}.

(** X3.  For a non-empty list of resolutions whose spectrograms of [x] have
    entries, [MultiResolutionSTFTLoss.forward(x, x)] returns (0, 0), for
    inputs (B, T) and, after the reshape, for inputs (B, C, T). *)
Theorem MultiResolutionSTFTLoss_forward_identical (stft_losses : list STFTLoss) :
  stft_losses <> [] ->
  (forall x,
      Forall (fun f => flatten3 (stft x (fft_size f) (shift_size f)
                                      (win_length f) (window f)) <> [])
             stft_losses ->
      MultiResolutionSTFTLoss_forward stft_losses (Signals2 x x) = Ok (0, 0))
  /\ (forall x,
         Forall (fun f => flatten3 (stft (reshape_rows x) (fft_size f)
                                         (shift_size f) (win_length f)
                                         (window f)) <> [])
                stft_losses ->
         MultiResolutionSTFTLoss_forward stft_losses (Signals3 x x) = Ok (0, 0)).
Proof.
  intros Hne.
  assert (Hval : forall x,
             MultiResolutionSTFTLoss_forward stft_losses (Signals2 x x) = Ok (0, 0)).
  { intros x. unfold MultiResolutionSTFTLoss_forward.
    rewrite accumulate_losses.
    rewrite (Rsum_map_ext (fun f => fst (STFTLoss_forward f x x)) (fun _ => 0))
      by (intros f _; now rewrite STFTLoss_forward_self).
    rewrite (Rsum_map_ext (fun f => snd (STFTLoss_forward f x x)) (fun _ => 0))
      by (intros f _; now rewrite STFTLoss_forward_self).
    assert (Hzero : Rsum (map (fun _ : STFTLoss => 0) stft_losses) = 0).
    { apply Rsum_all_zero, Forall_forall. intros v Hv.
      now apply in_map_iff in Hv as (f & <- & _). }
    rewrite Hzero.
    destruct stft_losses as [|f fs]; [contradiction|].
    cbn [length]. f_equal. f_equal; unfold Rdiv; lra. }
  split; intros x _; [apply Hval|].
  apply (Hval (reshape_rows x)).
Qed.

End MultiResolutionMore.

Lemma MultiResolutionSTFTLoss_forward_identical_example :
  MultiResolutionSTFTLoss_forward (fw := unit_framework)
    [STFTLoss_init 1024 120 600 "hann"; STFTLoss_init 512 50 240 "hann"]
    (Signals2 [[1; 2; 3]] [[1; 2; 3]])
  = Ok (0, 0).
Proof.
  apply (MultiResolutionSTFTLoss_forward_identical (fw := unit_framework)).
  - discriminate.
  - repeat constructor; cbn; discriminate.
Defined.

(** ** The attention guide: range and zeros *)

Lemma pow2_pos (x : R) : x <> 0 -> 0 < x ^ 2.
Proof.
  intros H. pose proof (Rsqr_pos_lt x H) as Hs. unfold Rsqr in Hs.
  simpl. lra.
Qed.

Lemma guide_entry_range (g : R) (dec_len enc_len n t : nat) :
  g <> 0 -> 0 <= guide_entry g dec_len enc_len n t < 1.
Proof.
  intros Hg. unfold guide_entry.
  set (z := - ((INR n / INR dec_len - INR t / INR enc_len) ^ 2) / (2 * g ^ 2)).
  assert (Hz : z <= 0).
  { unfold z. unfold Rdiv. rewrite <- Ropp_mult_distr_l.
    apply Ropp_le_cancel. rewrite Ropp_involutive, Ropp_0.
    apply Rmult_le_pos; [apply pow2_ge_0|].
    apply Rlt_le, Rinv_0_lt_compat.
    assert (0 < g ^ 2) by (apply pow2_pos; exact Hg). lra. }
  assert (Hexp : 0 < exp z <= 1).
  { split; [apply exp_pos|].
    destruct Hz as [Hlt| ->]; [|rewrite exp_0; lra].
    apply Rlt_le. rewrite <- exp_0. now apply exp_increasing. }
  destruct (n <? dec_len)%nat, (t <? enc_len)%nat; simpl; lra.
Qed.

(** X5.  For positive decoder and encoder lengths of one batch and a width
    [g] between 1e-6 and 1e6 (so that the divisor 2 g^2 is an ordinary
    non-zero number), every entry of the tensor [attention_guide] returns
    lies between 0 and 1. *)
Theorem attention_guide_range (dec_lens enc_lens : list nat) (N T : nat) (g : R) :
  length dec_lens = length enc_lens ->
  Forall (fun len => (0 < len)%nat) dec_lens ->
  Forall (fun len => (0 < len)%nat) enc_lens ->
  1 / 10 ^ 6 <= g <= 10 ^ 6 ->
  Forall (fun v => 0 <= v <= 1)
         (flatten3 (attention_guide dec_lens enc_lens N T g)).
Proof.
  intros _ _ _ Hrange.
  assert (Hg : g <> 0) by lra.
  rewrite attention_guide_entries. apply Forall_flatten3.
  revert enc_lens; induction dec_lens as [|d ds IH]; intros [|e es]; simpl;
    constructor; auto.
  apply Forall_forall; intros row Hrow.
  apply in_map_iff in Hrow as (n & <- & _).
  apply Forall_forall; intros v Hv.
  apply in_map_iff in Hv as (t & <- & _).
  pose proof (guide_entry_range g d e n t Hg). lra.
Qed.

Lemma attention_guide_range_example :
  Forall (fun v => 0 <= v <= 1)
         (flatten3 (attention_guide [2%nat; 3%nat] [4%nat; 1%nat] 3 4 (4 / 10))).
Proof.
  apply attention_guide_range;
    [reflexivity | repeat constructor | repeat constructor | lra].
Defined.

(** X6.  The guide vanishes on the diagonal of the non-padded region: for
    lengths of one batch, a width [g] between 1e-6 and 1e6, n < dec_lens[i]
    and t < enc_lens[i] with n * enc_lens[i] = t * dec_lens[i], the entry
    (i, n, t) is 0. *)
Theorem attention_guide_zero_on_diagonal (dec_lens enc_lens : list nat)
        (N T : nat) (g : R) (i n t : nat) :
  length dec_lens = length enc_lens ->
  1 / 10 ^ 6 <= g <= 10 ^ 6 ->
  (i < length dec_lens)%nat ->
  (n < N)%nat -> (t < T)%nat ->
  (n < nth i dec_lens 0)%nat -> (t < nth i enc_lens 0)%nat ->
  (n * nth i enc_lens 0 = t * nth i dec_lens 0)%nat ->
  get3 (attention_guide dec_lens enc_lens N T g) i n t = 0.
Proof.
  intros Hlen Hrange Hid Hn Ht Hnd Hte Hcross.
  assert (Hie : (i < length enc_lens)%nat) by (rewrite <- Hlen; exact Hid).
  rewrite attention_guide_get by assumption.
  set (d := nth i dec_lens 0%nat) in *. set (e := nth i enc_lens 0%nat) in *.
  unfold guide_entry.
  apply Nat.ltb_lt in Hnd as Hnd', Hte as Hte'. rewrite Hnd', Hte'.
  change (IZR (1 * 1)) with 1. rewrite Rmult_1_r.
  assert (Hd : INR d <> 0) by (apply not_0_INR; lia).
  assert (He : INR e <> 0) by (apply not_0_INR; lia).
  assert (Hu : INR n / INR d - INR t / INR e = 0).
  { apply (f_equal INR) in Hcross. rewrite !mult_INR in Hcross.
    field_simplify_eq; [|split; assumption]. lra. }
  assert (Hg : g <> 0) by lra.
  rewrite Hu. replace (- 0 ^ 2 / (2 * g ^ 2)) with 0 by (field; exact Hg).
  rewrite exp_0. lra.
Qed.

Lemma attention_guide_zero_on_diagonal_example :
  get3 (attention_guide [4%nat] [2%nat] 4 2 (4 / 10)) 0 2 1 = 0.
Proof.
  apply (attention_guide_zero_on_diagonal [4%nat] [2%nat] 4 2 (4 / 10) 0 2 1);
    simpl; try lia; try lra.
Defined.

(** ** The guided attention loss of Tacotron2: padding and sign *)

Lemma zipWith_ext_nth {A B C : Type} (f : A -> B -> C) (xs : list A)
      (ys ys' : list B) (dx : A) (dy : B) :
  length ys = length ys' ->
  (forall i, (i < length xs)%nat -> (i < length ys)%nat ->
             f (nth i xs dx) (nth i ys dy) = f (nth i xs dx) (nth i ys' dy)) ->
  zipWith f xs ys = zipWith f xs ys'.
Proof.
  revert ys ys'; induction xs as [|x xs IH]; intros [|y ys] [|y' ys'] Hlen H;
    simpl in *; try discriminate; auto.
  f_equal.
  - apply (H 0%nat); lia.
  - apply IH; [lia|]. intros i Hi Hj. apply (H (S i)); lia.
Qed.

Lemma Rsum_nonneg (l : list R) : Forall (fun v => 0 <= v) l -> 0 <= Rsum l.
Proof.
  induction 1 as [|v l Hv Hl IH]; [unfold Rsum; simpl; lra|].
  rewrite Rsum_cons. lra.
Qed.

Lemma attention_guide_nonneg (dec_lens enc_lens : list nat) (N T : nat) (g : R) :
  g <> 0 ->
  Forall (Forall (Forall (fun v => 0 <= v)))
         (attention_guide dec_lens enc_lens N T g).
Proof.
  intros Hg. rewrite attention_guide_entries.
  revert enc_lens; induction dec_lens as [|d ds IH]; intros [|e es]; simpl;
    constructor; auto.
  apply Forall_forall; intros row Hrow.
  apply in_map_iff in Hrow as (n & <- & _).
  apply Forall_forall; intros v Hv.
  apply in_map_iff in Hv as (t & <- & _).
  now apply guide_entry_range.
Qed.

Lemma has_shape3_reads (B N T : nat) (x : T3) :
  has_shape3 B N T x -> (1 <= B)%nat -> (1 <= N)%nat ->
  length (nth 0 x []) = N /\ length (nth 0 (nth 0 x []) []) = T.
Proof.
  intros Hx HB HN.
  pose proof (has_shape3_plane B N T x 0 Hx ltac:(lia)) as Hplane.
  split; [apply Hplane|].
  apply (has_shape2_row N T _ 0%nat Hplane). lia.
Qed.

(** X7.  [guided_attention_loss] does not depend on the attention weights at
    padded positions: for positive lengths and g <> 0, two attention tensors
    of shape (B, N, T) that agree at every position n < dec_lens[i],
    t < enc_lens[i] give the same loss. *)
Theorem guided_attention_loss_ignores_padding
        (attention_weight attention_weight' : T3) (dec_lens enc_lens : list nat)
        (g : R) (B N T : nat) :
  has_shape3 B N T attention_weight -> has_shape3 B N T attention_weight' ->
  (1 <= B)%nat -> (1 <= N)%nat -> (1 <= T)%nat ->
  length dec_lens = B -> length enc_lens = B ->
  Forall (fun len => (0 < len)%nat) dec_lens ->
  Forall (fun len => (0 < len)%nat) enc_lens ->
  g <> 0 ->
  (forall i n t,
      (i < B)%nat -> (n < nth i dec_lens 0)%nat -> (t < nth i enc_lens 0)%nat ->
      get3 attention_weight i n t = get3 attention_weight' i n t) ->
  guided_attention_loss attention_weight dec_lens enc_lens g
  = guided_attention_loss attention_weight' dec_lens enc_lens g.
Proof.
  intros Ha Ha' HB HN HT Hd He _ _ _ Hagree.
  unfold guided_attention_loss.
  destruct (has_shape3_reads B N T _ Ha HB HN) as [-> ->].
  destruct (has_shape3_reads B N T _ Ha' HB HN) as [-> ->].
  do 3 f_equal.
  pose proof (attention_guide_shape dec_lens enc_lens N T g
                ltac:(now rewrite Hd, He)) as HW.
  rewrite Hd in HW.
  unfold mul3.
  apply (zipWith_ext_nth _ _ _ _ [] []);
    [transitivity B; [apply Ha|symmetry; apply Ha']|].
  intros i Hi _.
  assert (Hi' : (i < B)%nat)
    by (eapply Nat.lt_le_trans; [exact Hi|apply Nat.eq_le_incl, HW]).
  clear Hi; rename Hi' into Hi.
  pose proof (has_shape3_plane B N T _ i Ha Hi) as Hai.
  pose proof (has_shape3_plane B N T _ i Ha' Hi) as Hai'.
  pose proof (has_shape3_plane B N T _ i HW Hi) as HWi.
  unfold mul2.
  apply (zipWith_ext_nth _ _ _ _ [] []);
    [transitivity N; [apply Hai|symmetry; apply Hai']|].
  intros n Hn _.
  assert (Hn' : (n < N)%nat)
    by (eapply Nat.lt_le_trans; [exact Hn|apply Nat.eq_le_incl, HWi]).
  clear Hn; rename Hn' into Hn.
  unfold mul1.
  apply (zipWith_ext_nth _ _ _ _ 0 0).
  { transitivity T; [|symmetry];
      [apply (has_shape2_row N T _ n Hai Hn)|apply (has_shape2_row N T _ n Hai' Hn)]. }
  intros t Ht _.
  assert (Ht' : (t < T)%nat)
    by (eapply Nat.lt_le_trans;
        [exact Ht|apply Nat.eq_le_incl, (has_shape2_row N T _ n HWi Hn)]).
  clear Ht; rename Ht' into Ht.
  change (nth t (nth n (nth i (attention_guide dec_lens enc_lens N T g) []) []) 0)
    with (get3 (attention_guide dec_lens enc_lens N T g) i n t).
  change (nth t (nth n (nth i attention_weight []) []) 0)
    with (get3 attention_weight i n t).
  change (nth t (nth n (nth i attention_weight' []) []) 0)
    with (get3 attention_weight' i n t).
  rewrite attention_guide_get by lia.
  destruct (n <? nth i dec_lens 0)%nat eqn:E1;
    [destruct (t <? nth i enc_lens 0)%nat eqn:E2|].
  - apply Nat.ltb_lt in E1, E2. now rewrite (Hagree i n t Hi E1 E2).
  - unfold guide_entry. rewrite E1, E2. simpl. lra.
  - unfold guide_entry. rewrite E1. simpl. lra.
Qed.

Lemma guided_attention_loss_ignores_padding_example :
  guided_attention_loss [[[1; 7]; [5; 9]]] [1%nat] [1%nat] (4 / 10)
  = guided_attention_loss [[[1; 0]; [0; 0]]] [1%nat] [1%nat] (4 / 10).
Proof.
  apply (guided_attention_loss_ignores_padding _ _ _ _ _ 1 2 2);
    [ repeat (split || constructor) | repeat (split || constructor)
    | lia | lia | lia | reflexivity | reflexivity
    | repeat constructor | repeat constructor | lra | ].
  intros i n t Hi Hn Ht.
  destruct i as [|i]; [|lia]. simpl in Hn, Ht.
  destruct n as [|n]; [|lia]. destruct t as [|t]; [|lia]. reflexivity.
Defined.

(** X8.  For g <> 0, positive lengths and non-negative attention weights of
    shape (B, N, T) on a batch of size B >= 1, [guided_attention_loss] is
    non-negative. *)
Theorem guided_attention_loss_nonneg (attention_weight : T3)
        (dec_lens enc_lens : list nat) (g : R) (B N T : nat) :
  g <> 0 ->
  has_shape3 B N T attention_weight -> (1 <= B)%nat ->
  length dec_lens = B -> length enc_lens = B ->
  Forall (fun len => (0 < len)%nat) dec_lens ->
  Forall (fun len => (0 < len)%nat) enc_lens ->
  Forall (Forall (Forall (fun v => 0 <= v))) attention_weight ->
  0 <= guided_attention_loss attention_weight dec_lens enc_lens g.
Proof.
  intros Hg Hshape HB Hdl Hel Hd He Hatt.
  assert (Hane : attention_weight <> []).
  { intros E. subst attention_weight. destruct Hshape as [Hl _].
    simpl in Hl. lia. }
  assert (Hdne : dec_lens <> []) by (intros E; subst dec_lens; simpl in Hdl; lia).
  assert (Hene : enc_lens <> []) by (intros E; subst enc_lens; simpl in Hel; lia).
  clear Hshape HB Hdl Hel B N T.
  unfold guided_attention_loss.
  set (N := length (nth 0 attention_weight [])).
  set (T := length (nth 0 (nth 0 attention_weight []) [])).
  pose proof (attention_guide_nonneg dec_lens enc_lens N T g Hg) as HW.
  assert (HWne : attention_guide dec_lens enc_lens N T g <> []).
  { rewrite attention_guide_entries.
    destruct dec_lens; [contradiction|]. destruct enc_lens; [contradiction|].
    discriminate. }
  apply mean_nonneg.
  - destruct (attention_guide dec_lens enc_lens N T g); [contradiction|].
    destruct attention_weight; [contradiction|].
    destruct dec_lens; [contradiction|]. destruct enc_lens; [contradiction|].
    discriminate.
  - apply (zipWith_Forall (fun v => 0 <= v) (fun v => 0 < v)).
    + intros s k Hs Hk. apply Rmult_le_pos; [exact Hs|].
      now apply Rlt_le, Rinv_0_lt_compat.
    + apply (map_Forall (Forall (Forall (fun v => 0 <= v)))).
      * intros m Hm. apply Rsum_nonneg. unfold flatten2. now apply Forall_concat.
      * unfold mul3, mul2, mul1.
        apply (zipWith_Forall (Forall (Forall (fun v => 0 <= v)))
                              (Forall (Forall (fun v => 0 <= v)))); try assumption.
        intros w a Hw Ha.
        apply (zipWith_Forall (Forall (fun v => 0 <= v))
                              (Forall (fun v => 0 <= v))); try assumption.
        intros wr ar Hwr Har.
        apply (zipWith_Forall (fun v => 0 <= v) (fun v => 0 <= v)); try assumption.
        intros u v Hu Hv. now apply Rmult_le_pos.
    + apply (zipWith_Forall (fun len => (0 < len)%nat) (fun len => (0 < len)%nat));
        try assumption.
      intros d e Hd0 He0. apply lt_0_INR. nia.
Qed.

Lemma guided_attention_loss_nonneg_example :
  0 <= guided_attention_loss [[[1; 0]; [0; 1]]] [2%nat] [2%nat] (4 / 10).
Proof.
  apply (guided_attention_loss_nonneg _ _ _ _ 1 2 2);
    [ lra | repeat (split || constructor) | lia | reflexivity | reflexivity
    | repeat constructor | repeat constructor | repeat constructor; lra ].
Defined.

(** ** The two constructions of the guide agree *)

Lemma update_at_app {A : Type} (f : A -> A) (pre base : list A) :
  update_at (length pre) f (pre ++ base) = pre ++ update_at 0 f base.
Proof.
  induction pre as [|x pre IH]; simpl; [reflexivity|]. now rewrite IH.
Qed.

Lemma fold_update_enumerate {A X : Type} (F : X -> A -> A)
      (step : list A -> nat * X -> list A) :
  (forall acc idx a, step acc (idx, a) = update_at idx (F a) acc) ->
  forall (l : list X) (pre base : list A),
    (length l <= length base)%nat ->
    fold_left step (combine (seq (length pre) (length l)) l) (pre ++ base)
    = pre ++ zipWith F l base ++ skipn (length l) base.
Proof.
  intros Hstep l; induction l as [|a l IH]; intros pre base Hlen.
  - reflexivity.
  - destruct base as [|b base]; [simpl in Hlen; lia|].
    cbn [length seq combine fold_left zipWith skipn].
    rewrite Hstep, update_at_app. cbn [update_at].
    change (pre ++ F a b :: base) with (pre ++ [F a b] ++ base).
    rewrite app_assoc.
    replace (S (length pre)) with (length (pre ++ [F a b]))
      by (rewrite length_app; simpl; lia).
    rewrite IH by (simpl in Hlen; lia).
    now rewrite <- app_assoc.
Qed.

Lemma combine_seq_repeat {A : Type} (c : A) (n k : nat) :
  combine (seq k n) (repeat c n) = map (fun o => (o, c)) (seq k n).
Proof.
  revert k; induction n as [|n IH]; intros k; simpl; [reflexivity|].
  now rewrite IH.
Qed.

Lemma enumerate_repeat {A : Type} (c : A) (n : nat) :
  enumerate (repeat c n) = map (fun o => (o, c)) (seq 0 n).
Proof.
  unfold enumerate. rewrite repeat_length. apply combine_seq_repeat.
Qed.

Lemma map_const_repeat {A : Type} (c : A) (n : nat) :
  map (fun _ => c) (seq 0 n) = repeat c n.
Proof.
  generalize 0%nat. induction n as [|n IH]; intros k; simpl; [reflexivity|].
  now rewrite IH.
Qed.

Lemma guided_attention_mask_get (ilen olen : nat) (sigma : R) (o i : nat) :
  (o < olen)%nat -> (i < ilen)%nat ->
  get2 (GuidedAttentionLoss._make_guided_attention_mask ilen olen sigma) o i
  = 1 - exp (- ((INR i / INR ilen - INR o / INR olen) ^ 2) / (2 * sigma ^ 2)).
Proof.
  intros Ho Hi.
  unfold get2, get1, GuidedAttentionLoss._make_guided_attention_mask, arange.
  rewrite !map_map.
  rewrite (nth_map_seq (A := list R)) by exact Ho.
  rewrite map_map. now rewrite nth_map_seq by exact Hi.
Qed.

Lemma assign_block_zeros (ilen olen max_ilen max_olen : nat) (sigma : R) :
  assign_block (repeat (repeat 0 max_ilen) max_olen) olen ilen
               (GuidedAttentionLoss._make_guided_attention_mask ilen olen sigma)
  = map (fun o => map (guide_entry sigma olen ilen o) (seq 0 max_ilen))
        (seq 0 max_olen).
Proof.
  unfold assign_block. rewrite enumerate_repeat, map_map.
  apply map_ext; intros o.
  destruct (o <? olen)%nat eqn:Eo.
  - rewrite enumerate_repeat, map_map.
    apply map_ext; intros i. unfold guide_entry. rewrite Eo.
    destruct (i <? ilen)%nat eqn:Ei.
    + apply Nat.ltb_lt in Eo, Ei.
      rewrite guided_attention_mask_get by assumption.
      change (IZR (1 * 1)) with 1. rewrite Rmult_1_r.
      do 3 f_equal. ring.
    + simpl. lra.
  - rewrite <- (map_const_repeat 0 max_ilen).
    apply map_ext; intros i. unfold guide_entry. rewrite Eo. simpl. lra.
Qed.

Lemma guided_attention_masks_as_map (sigma : R) (ilens olens : list nat) :
  length ilens = length olens ->
  GuidedAttentionLoss._make_guided_attention_masks sigma ilens olens
  = map (fun '(ilen, olen) =>
           assign_block (repeat (repeat 0 (list_max ilens)) (list_max olens))
                        olen ilen
                        (GuidedAttentionLoss._make_guided_attention_mask
                           ilen olen sigma))
        (combine ilens olens).
Proof.
  intros Hlen.
  set (F := fun (a : nat * nat) (m : T2) =>
              let '(ilen, olen) := a in
              assign_block m olen ilen
                (GuidedAttentionLoss._make_guided_attention_mask ilen olen sigma)).
  set (step := fun (acc : T3) '(idx, (ilen, olen)) =>
                 update_at idx
                   (fun m => assign_block m olen ilen
                               (GuidedAttentionLoss._make_guided_attention_mask
                                  ilen olen sigma))
                   acc).
  assert (Hstep : forall acc idx a, step acc (idx, a) = update_at idx (F a) acc)
    by (intros acc idx [ilen olen]; reflexivity).
  pose proof (fold_update_enumerate F step Hstep (combine ilens olens) []
                (zeros3 (length ilens) (list_max olens) (list_max ilens))) as H.
  cbn [app length] in H.
  assert (Hle : (length (combine ilens olens)
                 <= length (zeros3 (length ilens) (list_max olens) (list_max ilens)))%nat)
    by (unfold zeros3; rewrite length_combine, repeat_length; lia).
  etransitivity; [exact (H Hle)|]. clear H Hle.
  rewrite skipn_all2
    by (unfold zeros3; rewrite length_combine, repeat_length; lia).
  rewrite app_nil_r. unfold zeros3.
  rewrite zipWith_repeat_r, firstn_all2 by (rewrite length_combine; lia).
  apply map_ext; intros [ilen olen]. reflexivity.
Qed.

(** X9.  The mask tensor built by
    [GuidedAttentionLoss._make_guided_attention_masks] is the guide of
    [attention_guide] for the same lengths: for a non-empty batch of positive
    lengths [ilens] and [olens] and sigma <> 0,
    [_make_guided_attention_masks(ilens, olens)] with parameter [sigma]
    equals [attention_guide(olens, ilens, max(olens), max(ilens), sigma)]. *)
Theorem guided_attention_masks_agree (sigma : R) (ilens olens : list nat) :
  ilens <> [] -> length ilens = length olens ->
  Forall (fun len => (0 < len)%nat) ilens ->
  Forall (fun len => (0 < len)%nat) olens ->
  sigma <> 0 ->
  GuidedAttentionLoss._make_guided_attention_masks sigma ilens olens
  = attention_guide olens ilens (list_max olens) (list_max ilens) sigma.
Proof.
  intros _ Hlen _ _ _.
  rewrite (guided_attention_masks_as_map sigma ilens olens Hlen).
  rewrite attention_guide_entries. clear Hlen.
  generalize (list_max ilens) as max_ilen. generalize (list_max olens) as max_olen.
  intros max_olen max_ilen.
  revert olens; induction ilens as [|ilen ilens IH]; intros [|olen olens];
    simpl; try reflexivity.
  now rewrite assign_block_zeros, IH.
Qed.

Lemma guided_attention_masks_agree_example :
  GuidedAttentionLoss._make_guided_attention_masks (4 / 10) [5; 2]%nat [8; 5]%nat
  = attention_guide [8; 5]%nat [5; 2]%nat 8 5 (4 / 10).
Proof.
  apply (guided_attention_masks_agree (4 / 10) [5; 2]%nat [8; 5]%nat);
    [ discriminate | reflexivity
    | repeat constructor | repeat constructor | lra ].
Defined.

(** ** Adversarial losses *)

Lemma Rsum_nonneg_zero (l : list R) :
  Forall (fun v => 0 <= v) l -> Rsum l = 0 -> Forall (fun v => v = 0) l.
Proof.
  induction 1 as [|v l Hv Hl IH]; intros Hsum; [constructor|].
  rewrite Rsum_cons in Hsum.
  pose proof (Rsum_nonneg l Hl) as Hrest.
  constructor; [lra|]. apply IH. lra.
Qed.

Lemma mean_zero_iff (l : list R) :
  l <> [] -> Forall (fun v => 0 <= v) l ->
  (mean l = 0 <-> Forall (fun v => v = 0) l).
Proof.
  intros Hne Hl. split; [|apply mean_all_zero].
  intros Hmean. apply Rsum_nonneg_zero; [exact Hl|].
  unfold mean in Hmean.
  assert (Hlen : 0 < INR (length l)).
  { apply lt_0_INR. destruct l; [contradiction|simpl; lia]. }
  apply (Rmult_eq_compat_r (INR (length l))) in Hmean.
  unfold Rdiv in Hmean. rewrite Rmult_assoc, Rinv_l in Hmean by lra. lra.
Qed.

Lemma mse_to_ones_nonneg (x : T1) :
  x <> [] -> 0 <= GeneratorAdversarialLoss._mse_loss x.
Proof.
  intros Hne. unfold GeneratorAdversarialLoss._mse_loss. apply mean_nonneg.
  - destruct x; [contradiction|discriminate].
  - apply Forall_forall; intros v Hv. apply in_map_iff in Hv as (u & <- & _).
    apply pow2_ge_0.
Qed.

Lemma mse_to_ones_zero_iff (x : T1) :
  x <> [] ->
  (GeneratorAdversarialLoss._mse_loss x = 0 <-> Forall (fun v => v = 1) x).
Proof.
  intros Hne. unfold GeneratorAdversarialLoss._mse_loss.
  rewrite mean_zero_iff.
  - rewrite Forall_map. split; intros H; eapply Forall_impl; try exact H;
      cbv beta; intros v Hv.
    + destruct (Req_dec v 1) as [E|N1]; [exact E|].
      assert (Hp : 0 < (v - 1) ^ 2) by (apply pow2_pos; lra). lra.
    + rewrite Hv. simpl. lra.
  - destruct x; [contradiction|discriminate].
  - apply Forall_forall; intros v Hv. apply in_map_iff in Hv as (u & <- & _).
    apply pow2_ge_0.
Qed.

Module AdversarialFacts.

Import GeneratorAdversarialLoss.

(** X10.  A single tensor is treated as a list with that tensor as its only
    entry, and as a list with one feature-map list ending in that tensor:
    [forward] returns the criterion of the tensor in the three cases, with
    and without averaging. *)
Theorem forward_single_tensor (self : t) (x : T1) (maps : list T1) :
  forward self (One x) = Ok (criterion self x)
  /\ forward self (Many [Tensor x]) = forward self (One x)
  /\ forward self (Many [FeatureMaps (maps ++ [x])]) = forward self (One x).
Proof.
  split; [reflexivity|].
  assert (Hlast : last_entry (maps ++ [x]) = Ok x).
  { unfold last_entry. now rewrite rev_unit. }
  split; unfold forward, enumerate; cbn [length seq combine fold_left loop_body];
    rewrite ?Hlast; destruct (average_by_discriminators self); f_equal;
    simpl; field.
Qed.

(** X11.  With the mse criterion, on a non-empty list of discriminator
    outputs with non-empty final tensors, [forward] returns a non-negative
    value, which is 0 exactly when every entry of every final tensor is 1. *)
Theorem forward_mse_minimum (average : bool) (os : list output) :
  os <> [] -> Forall well_formed os ->
  Forall (fun o => final_output o <> []) os ->
  exists v,
    forward (mk average _mse_loss) (Many os) = Ok v
    /\ 0 <= v
    /\ (v = 0 <-> Forall (fun o => Forall (fun u => u = 1) (final_output o)) os).
Proof.
  intros Hne Hwf Hfin.
  set (self := mk average _mse_loss).
  set (total := Rsum (map (fun o => criterion self (final_output o)) os)).
  assert (Hterms : Forall (fun v => 0 <= v)
                          (map (fun o => criterion self (final_output o)) os)).
  { apply Forall_map. eapply Forall_impl; [|exact Hfin].
    cbv beta; intros o Ho. now apply mse_to_ones_nonneg. }
  assert (Htotal : 0 <= total) by (now apply Rsum_nonneg).
  assert (Hzero : total = 0
                  <-> Forall (fun o => Forall (fun u => u = 1) (final_output o)) os).
  { split.
    - intros H0. pose proof (Rsum_nonneg_zero _ Hterms H0) as Hall.
      rewrite Forall_map in Hall.
      apply Forall_forall; intros o Ho.
      apply (mse_to_ones_zero_iff (final_output o)).
      + now apply (proj1 (Forall_forall _ os) Hfin).
      + now apply (proj1 (Forall_forall _ os) Hall).
    - intros Hall. apply Rsum_all_zero, Forall_map.
      apply Forall_forall; intros o Ho.
      apply (mse_to_ones_zero_iff (final_output o)).
      + now apply (proj1 (Forall_forall _ os) Hfin).
      + now apply (proj1 (Forall_forall _ os) Hall). }
  assert (Hlen : 0 < INR (length os)).
  { apply lt_0_INR. destruct os; [contradiction|simpl; lia]. }
  unfold forward, enumerate.
  rewrite (GeneratorAdversarialLossFacts.loop_well_formed self os Hwf 0 0 None),
    Rplus_0_l.
  fold total.
  destruct os as [|o os']; [contradiction|].
  replace (0 + length (o :: os') - 1 + 1)%nat with (length (o :: os')) by (simpl; lia).
  destruct average; cbn [average_by_discriminators self].
  - exists (total / INR (length (o :: os'))). split; [reflexivity|]. split.
    + apply Rmult_le_pos; [exact Htotal|]. now apply Rlt_le, Rinv_0_lt_compat.
    + rewrite <- Hzero. split; intros H.
      * apply (Rmult_eq_compat_r (INR (length (o :: os')))) in H.
        unfold Rdiv in H. rewrite Rmult_assoc, Rinv_l in H by lra. lra.
      * rewrite H. unfold Rdiv. lra.
  - exists total. split; [reflexivity|]. split; assumption.
Qed.

End AdversarialFacts.

Lemma forward_mse_minimum_example :
  exists v,
    GeneratorAdversarialLoss.forward
      (GeneratorAdversarialLoss.mk true GeneratorAdversarialLoss._mse_loss)
      (GeneratorAdversarialLoss.Many
         [GeneratorAdversarialLoss.Tensor [1; 1];
          GeneratorAdversarialLoss.FeatureMaps [[5]; [1]]])
    = Ok v /\ 0 <= v.
Proof.
  destruct (AdversarialFacts.forward_mse_minimum true
              [GeneratorAdversarialLoss.Tensor [1; 1];
               GeneratorAdversarialLoss.FeatureMaps [[5]; [1]]])
    as (v & Hv & Hpos & _).
  - discriminate.
  - repeat constructor; simpl; discriminate.
  - repeat constructor; simpl; discriminate.
  - exists v. split; assumption.
Defined.

(** ** Discriminator adversarial loss *)

Module DiscriminatorFacts.

Import DiscriminatorAdversarialLoss.

Lemma loop_value (self : t) (ps : list (T1 * T1)) :
  forall (start : nat) (real_loss fake_loss : R) (i0 : option nat),
    fold_left (loop_body self) (combine (seq start (length ps)) ps)
              (Ok (real_loss, fake_loss, i0))
    = Ok (real_loss + Rsum (map (fun p => real_criterion self (snd p)) ps),
          fake_loss + Rsum (map (fun p => fake_criterion self (fst p)) ps),
          match ps with
          | [] => i0
          | _ :: _ => Some (start + length ps - 1)%nat
          end).
Proof.
  induction ps as [|[h o] ps IH]; intros start real_loss fake_loss i0.
  - unfold Rsum; simpl. now rewrite !Rplus_0_r.
  - cbn [length seq combine fold_left map loop_body fst snd].
    rewrite IH, !Rsum_cons. f_equal. f_equal; [f_equal; lra|].
    destruct ps; simpl; f_equal; lia.
Qed.

(** X12.  On two lists of tensors [forward] pairs the entries up to the
    length n of the shorter list and ignores the rest; for n >= 1 it returns
    the sums of the real criterion over the ground-truth outputs and of the
    fake criterion over the generated ones, each divided by n when
    [average_by_discriminators] is set; for n = 0 it raises with averaging
    (the loop variable is unbound) and returns (0, 0) without. *)
Theorem forward_on_lists (self : t) (outputs_hat outputs : list T1) :
  let pairs := combine outputs_hat outputs in
  let n := length pairs in
  let real_sum := Rsum (map (fun p => real_criterion self (snd p)) pairs) in
  let fake_sum := Rsum (map (fun p => fake_criterion self (fst p)) pairs) in
  n = Nat.min (length outputs_hat) (length outputs)
  /\ forward self (Many outputs_hat outputs)
     = match n with
       | O => if average_by_discriminators self
              then Raise UnboundLocalError else Ok (0, 0)
       | S _ => if average_by_discriminators self
                then Ok (real_sum / INR n, fake_sum / INR n)
                else Ok (real_sum, fake_sum)
       end.
Proof.
  intros pairs n real_sum fake_sum.
  split; [apply length_combine|].
  unfold forward, enumerate. fold pairs.
  rewrite (loop_value self pairs 0 0 0 None), !Rplus_0_l.
  fold real_sum fake_sum. unfold n.
  destruct pairs as [|p pairs']; cbn [length finish].
  - reflexivity.
  - destruct (average_by_discriminators self); [|reflexivity].
    replace (0 + S (length pairs') - 1 + 1)%nat with (S (length pairs')) by lia.
    reflexivity.
Qed.

Lemma combine_snd {A B : Type} (xs : list A) (ys : list B) :
  (length ys <= length xs)%nat -> map snd (combine xs ys) = ys.
Proof.
  revert ys; induction xs as [|x xs IH]; intros [|y ys] H; simpl in *;
    try reflexivity; try lia.
  f_equal. apply IH. lia.
Qed.

(** X13.  The real loss of the discriminator on ground-truth outputs is the
    generator's adversarial loss (mse) on the same outputs: when there are at
    least as many generated outputs as ground-truth ones, the first value of
    [DiscriminatorAdversarialLoss.forward] and the value of
    [GeneratorAdversarialLoss.forward] are equal, and one raises exactly when
    the other does. *)
Theorem real_loss_is_generator_loss (average : bool)
        (outputs_hat outputs : list T1) :
  (length outputs <= length outputs_hat)%nat ->
  exists self_d self_g,
    init average "mse" = Ok self_d
    /\ GeneratorAdversarialLoss.init average "mse" = Ok self_g
    /\ match forward self_d (Many outputs_hat outputs),
             GeneratorAdversarialLoss.forward self_g
               (GeneratorAdversarialLoss.Many
                  (map GeneratorAdversarialLoss.Tensor outputs)) with
       | Ok (real_loss, _), Ok adv_loss => real_loss = adv_loss
       | Raise e, Raise e' => e = e'
       | _, _ => False
       end.
Proof.
  intros Hlen. eexists. eexists.
  split; [reflexivity|]. split; [reflexivity|].
  unfold forward, GeneratorAdversarialLoss.forward, enumerate.
  rewrite (loop_value _ (combine outputs_hat outputs) 0 0 0 None).
  rewrite (GeneratorAdversarialLossFacts.loop_well_formed _
             (map GeneratorAdversarialLoss.Tensor outputs)) by
    (apply Forall_map, Forall_forall; intros x _; exact I).
  rewrite !Rplus_0_l, !map_map. cbn [GeneratorAdversarialLoss.final_output].
  cbn [real_criterion GeneratorAdversarialLoss.criterion
       average_by_discriminators
       GeneratorAdversarialLoss.average_by_discriminators].
  rewrite <- (map_map snd _mse_real_loss), (combine_snd _ _ Hlen).
  rewrite length_map.
  assert (Hcomb : length (combine outputs_hat outputs) = length outputs)
    by (rewrite length_combine; lia).
  destruct outputs as [|o os].
  - destruct outputs_hat; cbn [combine map finish]; destruct average; reflexivity.
  - destruct outputs_hat as [|h hs]; [simpl in Hlen; lia|].
    cbn [combine finish map]. cbn [combine] in Hcomb. rewrite Hcomb.
    destruct average; reflexivity.
Qed.

End DiscriminatorFacts.

Lemma real_loss_is_generator_loss_example :
  exists self_d self_g,
    DiscriminatorAdversarialLoss.init true "mse" = Ok self_d
    /\ GeneratorAdversarialLoss.init true "mse" = Ok self_g.
Proof.
  destruct (DiscriminatorFacts.real_loss_is_generator_loss true
              [[0; 1]; [2]; [3]] [[1; 1]; [0]])
    as (self_d & self_g & Hd & Hg & _).
  - simpl. lia.
  - exists self_d, self_g. split; assumption.
Defined.

(** ** Feature matching loss *)

Module FeatureMatchFacts.

Import FeatureMatchLoss.

Lemma inner_loop_value (layers : list (T1 * T1)) (j : option nat) :
  inner_loop layers j
  = (layers_sum layers,
     match layers with
     | [] => j
     | _ :: _ => Some (length layers - 1)%nat
     end).
Proof.
  unfold inner_loop, enumerate, layers_sum.
  assert (H : forall (start : nat) (acc : R) (j0 : option nat),
             fold_left (fun '(feat_match_loss_, _) '(j, (feat_hat_, feat_)) =>
                          (feat_match_loss_ + l1_loss feat_hat_ feat_, Some j))
                       (combine (seq start (length layers)) layers) (acc, j0)
             = (acc + Rsum (map (fun ab => l1_loss (fst ab) (snd ab)) layers),
                match layers with
                | [] => j0
                | _ :: _ => Some (start + length layers - 1)%nat
                end)).
  { induction layers as [|[a b] layers IH]; intros start acc j0.
    - unfold Rsum; simpl. now rewrite Rplus_0_r.
    - cbn [length seq combine fold_left map fst snd].
      rewrite IH, Rsum_cons. f_equal; [lra|].
      destruct layers; simpl; f_equal; lia. }
  rewrite (H 0%nat 0 j), Rplus_0_l. destruct layers; reflexivity.
Qed.

Lemma outer_body_value (self : t) (acc : R) (i0 j : option nat) (i : nat)
      (p : list T1 * list T1) :
  outer_body self (Ok (acc, i0, j)) (i, p)
  = let layers := compared_layers self p in
    let j' := match layers with
              | [] => j
              | _ :: _ => Some (length layers - 1)%nat
              end in
    if average_by_layers self
    then match j' with
         | None => Raise UnboundLocalError
         | Some _ => Ok (acc + discriminator_term self p, Some i, j')
         end
    else Ok (acc + discriminator_term self p, Some i, j').
Proof.
  destruct p as [feats_hat_ feats_].
  unfold outer_body, discriminator_term, compared_layers. cbn [fst snd].
  destruct (include_final_outputs self); rewrite inner_loop_value;
    match goal with
    | |- context [combine ?a ?b] => destruct (combine a b) as [|l ls] eqn:E
    end;
    cbv zeta; destruct (average_by_layers self); try reflexivity.
  - destruct j as [j0|]; [|reflexivity].
    unfold layers_sum, Rsum; simpl. do 3 f_equal. unfold Rdiv. lra.
  - replace (length (l :: ls) - 1 + 1)%nat with (length (l :: ls))
      by (simpl; lia).
    reflexivity.
  - destruct j as [j0|]; [|reflexivity].
    unfold layers_sum, Rsum; simpl. do 3 f_equal. unfold Rdiv. lra.
  - replace (length (l :: ls) - 1 + 1)%nat with (length (l :: ls))
      by (simpl; lia).
    reflexivity.
Qed.

Lemma outer_loop_raise (self : t) (e : exn) (l : list (nat * (list T1 * list T1))) :
  fold_left (outer_body self) l (Raise e) = Raise e.
Proof. induction l as [|x l IH]; simpl; auto. Qed.

Lemma outer_loop_value (self : t) (ps : list (list T1 * list T1)) :
  forall (start : nat) (acc : R) (i0 j : option nat),
    (average_by_layers self = true -> j <> None) ->
    exists j',
      fold_left (outer_body self) (combine (seq start (length ps)) ps)
                (Ok (acc, i0, j))
      = Ok (acc + Rsum (map (discriminator_term self) ps),
            match ps with
            | [] => i0
            | _ :: _ => Some (start + length ps - 1)%nat
            end,
            j').
Proof.
  induction ps as [|p ps IH]; intros start acc i0 j Hj.
  - exists j. unfold Rsum; simpl. now rewrite Rplus_0_r.
  - cbn [length seq combine fold_left map].
    rewrite outer_body_value. cbv zeta.
    set (j1 := match compared_layers self p with
               | [] => j
               | _ :: _ => Some (length (compared_layers self p) - 1)%nat
               end).
    assert (Hj1 : average_by_layers self = true -> j1 <> None).
    { intros Havg. unfold j1. destruct (compared_layers self p);
        [now apply Hj|discriminate]. }
    assert (Hstep : (if average_by_layers self
                     then match j1 with
                          | None => Raise UnboundLocalError
                          | Some _ => Ok (acc + discriminator_term self p, Some start, j1)
                          end
                     else Ok (acc + discriminator_term self p, Some start, j1))
                    = Ok (acc + discriminator_term self p, Some start, j1)).
    { destruct (average_by_layers self); [|reflexivity].
      destruct j1; [reflexivity|]. now exfalso; apply Hj1. }
    rewrite Hstep.
    destruct (IH (S start) (acc + discriminator_term self p) (Some start) j1 Hj1)
      as (j' & Hfold).
    exists j'. rewrite Hfold, Rsum_cons, Rplus_assoc.
    assert (Hi : match ps with
                 | [] => Some start
                 | _ :: _ => Some (S start + length ps - 1)%nat
                 end = Some (start + length (p :: ps) - 1)%nat)
      by (destruct ps; simpl; f_equal; lia).
    now rewrite Hi.
Qed.

(** X14.  On feature maps whose compared layers match in size,
    [FeatureMatchLoss.forward] raises only an [UnboundLocalError], and
    exactly in two cases: there is no pair of discriminators and
    [average_by_discriminators] is set, or [average_by_layers] is set and the
    first pair of discriminators has no layer to compare.  A later pair
    without a layer to compare raises nothing. *)
Theorem forward_raises_iff (self : t) (feats_hat feats : list (list T1)) (e : exn) :
  layers_match self (combine feats_hat feats) ->
  forward self feats_hat feats = Raise e
  <-> e = UnboundLocalError
      /\ ((combine feats_hat feats = [] /\ average_by_discriminators self = true)
          \/ (exists p ps, combine feats_hat feats = p :: ps
                           /\ average_by_layers self = true
                           /\ compared_layers self p = [])).
Proof.
  intros _. unfold forward, enumerate.
  destruct (combine feats_hat feats) as [|p ps] eqn:Eps.
  - cbn [length seq combine fold_left].
    destruct (average_by_discriminators self); split.
    + intros H. injection H as <-. split; [reflexivity|left; now split].
    + intros [-> _]. reflexivity.
    + intros H. discriminate H.
    + intros [_ [[_ H]|(p & ps & H & _)]]; discriminate H.
  - cbn [length seq combine fold_left]. rewrite outer_body_value. cbv zeta.
    destruct (compared_layers self p) as [|l ls] eqn:El.
    + destruct (average_by_layers self) eqn:Havg.
      * rewrite outer_loop_raise. split.
        -- intros H. injection H as <-. split; [reflexivity|].
           right. exists p, ps. repeat split; assumption.
        -- intros [-> _]. reflexivity.
      * destruct (outer_loop_value self ps 1 (0 + discriminator_term self p)
                    (Some 0%nat) None ltac:(intros H; congruence))
          as (j' & ->).
        split.
        -- destruct ps; destruct (average_by_discriminators self);
             intros H; discriminate H.
        -- intros [_ [[H _]|(p' & ps' & _ & H & _)]]; [discriminate H|congruence].
    + assert (Hok : (if average_by_layers self
                     then Ok (0 + discriminator_term self p, Some 0%nat,
                              Some (length (l :: ls) - 1)%nat)
                     else Ok (0 + discriminator_term self p, Some 0%nat,
                              Some (length (l :: ls) - 1)%nat))
                    = Ok (0 + discriminator_term self p, Some 0%nat,
                          Some (length (l :: ls) - 1)%nat))
        by (destruct (average_by_layers self); reflexivity).
      rewrite Hok.
      destruct (outer_loop_value self ps 1 (0 + discriminator_term self p)
                  (Some 0%nat) (Some (length (l :: ls) - 1)%nat)
                  ltac:(intros _; discriminate))
        as (j' & ->).
      split.
      * destruct ps; destruct (average_by_discriminators self);
          intros H; discriminate H.
      * intros [_ [[H _]|(p' & ps' & Hp & _ & Hc)]]; [discriminate H|].
        injection Hp as <- <-. congruence.
Qed.

(** X15.  When [forward] does not raise on at least one pair of
    discriminators whose compared layers match in size, it returns the sum over the pairs of the L1 losses of the
    compared layers (all layers but the last unless [include_final_outputs]),
    each sum divided by its number of layers when [average_by_layers] is set,
    the whole divided by the number of pairs when [average_by_discriminators]
    is set; a pair after the first without a layer to compare adds 0. *)
Theorem forward_value (self : t) (feats_hat feats : list (list T1))
        (p : list T1 * list T1) (ps : list (list T1 * list T1)) :
  combine feats_hat feats = p :: ps ->
  layers_match self (p :: ps) ->
  (average_by_layers self = true -> compared_layers self p <> []) ->
  forward self feats_hat feats
  = Ok (if average_by_discriminators self
        then Rsum (map (discriminator_term self) (p :: ps))
             / INR (length (p :: ps))
        else Rsum (map (discriminator_term self) (p :: ps))).
Proof.
  intros Eps _ Hfirst. unfold forward, enumerate. rewrite Eps.
  cbn [length seq combine fold_left]. rewrite outer_body_value. cbv zeta.
  set (j1 := match compared_layers self p with
             | [] => None
             | _ :: _ => Some (length (compared_layers self p) - 1)%nat
             end).
  assert (Hj1 : average_by_layers self = true -> j1 <> None).
  { intros Havg. unfold j1. specialize (Hfirst Havg).
    destruct (compared_layers self p); [contradiction|discriminate]. }
  assert (Hstep : (if average_by_layers self
                   then match j1 with
                        | None => Raise UnboundLocalError
                        | Some _ => Ok (0 + discriminator_term self p, Some 0%nat, j1)
                        end
                   else Ok (0 + discriminator_term self p, Some 0%nat, j1))
                  = Ok (0 + discriminator_term self p, Some 0%nat, j1)).
  { destruct (average_by_layers self); [|reflexivity].
    destruct j1; [reflexivity|]. now exfalso; apply Hj1. }
  rewrite Hstep.
  destruct (outer_loop_value self ps 1 (0 + discriminator_term self p)
              (Some 0%nat) j1 Hj1) as (j' & ->).
  cbn [map]. rewrite Rsum_cons, Rplus_0_l.
  destruct (average_by_discriminators self); [|reflexivity].
  destruct ps as [|p' ps']; cbn [length]; [reflexivity|].
  do 3 f_equal. lia.
Qed.

End FeatureMatchFacts.

Lemma forward_value_example :
  let self := FeatureMatchLoss.mk true true false in
  FeatureMatchLoss.forward self [[[1; 2]; [3]]; [[4]]] [[[2; 2]; [5]]; [[6]]]
  = Ok (Rsum (map (discriminator_term self)
                  [([[1; 2]; [3]], [[2; 2]; [5]]); ([[4]], [[6]])])
        / INR 2).
Proof.
  cbv zeta.
  apply (FeatureMatchFacts.forward_value (FeatureMatchLoss.mk true true false)
           [[[1; 2]; [3]]; [[4]]] [[[2; 2]; [5]]; [[6]]]).
  - reflexivity.
  - repeat constructor.
  - intros _. discriminate.
Defined.

Lemma forward_raises_iff_example :
  FeatureMatchLoss.forward (FeatureMatchLoss.mk true true false) [[[1]]] [[[2]]]
  = Raise UnboundLocalError.
Proof.
  apply (proj2 (FeatureMatchFacts.forward_raises_iff
                  (FeatureMatchLoss.mk true true false) [[[1]]] [[[2]]]
                  UnboundLocalError ltac:(repeat constructor))).
  split; [reflexivity|]. right.
  exists ([[1]], [[2]]), []. repeat split.
Defined.

(** ** Mel spectrogram: lower bound, and the mel-spectrogram loss *)

Lemma ln_2_pos : 0 < ln 2.
Proof. rewrite <- ln_1. apply ln_increasing; lra. Qed.

Lemma ln_10_pos : 0 < ln 10.
Proof. rewrite <- ln_1. apply ln_increasing; lra. Qed.

Lemma apply_log_monotone (f : MelSpectrogram.log_fn) (x y : R) :
  0 < x -> x <= y -> MelSpectrogram.apply_log f x <= MelSpectrogram.apply_log f y.
Proof.
  intros Hx Hxy.
  assert (Hln : ln x <= ln y).
  { destruct Hxy as [Hlt| ->]; [|lra]. now apply Rlt_le, ln_increasing. }
  pose proof ln_2_pos. pose proof ln_10_pos.
  destruct f; simpl; [exact Hln| |]; apply Rmult_le_compat_r;
    try exact Hln; apply Rlt_le, Rinv_0_lt_compat; assumption.
Qed.

Section MelFacts.

Context {fw : Framework}.

Lemma x_mel_entries (self : MelSpectrogram.t) (x : MelSpectrogram.waveform) :
  Forall (Forall (Forall (fun v => MelSpectrogram.eps self <= v)))
         (MelSpectrogram.x_mel self x).
Proof.
  unfold MelSpectrogram.x_mel.
  apply Forall_forall; intros m Hm. apply in_map_iff in Hm as (m0 & <- & _).
  apply Forall_forall; intros r Hr. apply in_map_iff in Hr as (r0 & <- & _).
  apply Forall_forall; intros v Hv. apply in_map_iff in Hv as (u & <- & _).
  apply clip_min_ge.
Qed.

(** X16.  For [eps > 0], every entry of the tensor [MelSpectrogram.forward]
    returns is at least the logarithm (of the base the module was built with)
    of [eps]. *)
Theorem MelSpectrogram_forward_lower_bound (self : MelSpectrogram.t)
        (x : MelSpectrogram.waveform) :
  0 < MelSpectrogram.eps self ->
  Forall (Forall (Forall (fun v =>
            MelSpectrogram.apply_log (MelSpectrogram.log self)
                                     (MelSpectrogram.eps self) <= v)))
         (MelSpectrogram.forward self x).
Proof.
  intros Heps. unfold MelSpectrogram.forward, transpose_021.
  pose proof (x_mel_entries self x) as Hmel.
  apply Forall_forall; intros m Hm. apply in_map_iff in Hm as (m0 & <- & Hm0).
  apply in_map_iff in Hm0 as (m1 & <- & Hm1).
  apply transpose_Forall.
  pose proof (proj1 (Forall_forall _ _) Hmel m1 Hm1) as Hm1'.
  apply Forall_forall; intros r Hr. apply in_map_iff in Hr as (r0 & <- & Hr0).
  pose proof (proj1 (Forall_forall _ _) Hm1' r0 Hr0) as Hr0'.
  apply Forall_forall; intros v Hv. apply in_map_iff in Hv as (u & <- & Hu).
  pose proof (proj1 (Forall_forall _ _) Hr0' u Hu) as Hu'.
  now apply apply_log_monotone.
Qed.

(** X17.  For mel spectrograms of one shape with at least one entry,
    [MelSpectrogramLoss.forward] is non-negative, does not change when its two
    arguments are exchanged, and is 0 on two equal waveforms. *)
Theorem MelSpectrogramLoss_forward_metric (mel_spectrogram : MelSpectrogram.t)
        (y_hat y : MelSpectrogram.waveform) (b t m : nat) :
  has_shape3 b t m (MelSpectrogram.forward mel_spectrogram y_hat) ->
  has_shape3 b t m (MelSpectrogram.forward mel_spectrogram y) ->
  (1 <= b)%nat -> (1 <= t)%nat -> (1 <= m)%nat ->
  0 <= MelSpectrogramLoss.forward mel_spectrogram y_hat y
  /\ MelSpectrogramLoss.forward mel_spectrogram y_hat y
     = MelSpectrogramLoss.forward mel_spectrogram y y_hat
  /\ MelSpectrogramLoss.forward mel_spectrogram y y = 0.
Proof.
  intros Hshat Hsy Hb Ht Hm.
  pose proof (has_shape3_nonempty b t m _ Hshat Hb Ht Hm) as Hhat.
  pose proof (has_shape3_nonempty b t m _ Hsy Hb Ht Hm) as Hy.
  unfold MelSpectrogramLoss.forward.
  split; [now apply l1_loss_nonneg|].
  split; [apply l1_loss_sym|apply l1_loss_identical].
Qed.

End MelFacts.

(** A mel-spectrogram module over [unit_framework] for running the
    statements. *)
Lemma MelSpectrogram_forward_lower_bound_example :
  let self := MelSpectrogram.mk 1024 1024 256 true false true None (1 / 10 ^ 10)
                                [[1]] (Some 10) MelSpectrogram.paddle_log10 in
  Forall (Forall (Forall (fun v => ln (1 / 10 ^ 10) / ln 10 <= v)))
         (MelSpectrogram.forward (fw := unit_framework) self
                                 (MelSpectrogram.Wave2 [[1; 2; 3]])).
Proof.
  cbv zeta.
  apply (MelSpectrogram_forward_lower_bound (fw := unit_framework)
           (MelSpectrogram.mk 1024 1024 256 true false true None (1 / 10 ^ 10)
                              [[1]] (Some 10) MelSpectrogram.paddle_log10)).
  apply eps10_pos.
Defined.

Lemma MelSpectrogramLoss_forward_metric_example :
  let self := MelSpectrogram.mk 1024 1024 256 true false true None (1 / 10 ^ 10)
                                [[1]] (Some 10) MelSpectrogram.paddle_log10 in
  MelSpectrogramLoss.forward (fw := unit_framework) self
    (MelSpectrogram.Wave2 [[1; 2; 3]]) (MelSpectrogram.Wave2 [[1; 2; 3]]) = 0.
Proof.
  cbv zeta.
  apply (MelSpectrogramLoss_forward_metric (fw := unit_framework)
           (MelSpectrogram.mk 1024 1024 256 true false true None (1 / 10 ^ 10)
                              [[1]] (Some 10) MelSpectrogram.paddle_log10)
           (MelSpectrogram.Wave2 [[1; 2; 3]]) (MelSpectrogram.Wave2 [[1; 2; 3]])
           1 1 1);
    try lia; cbn; repeat (split || constructor).
Defined.

(** ** The Gaussian window of SSIM *)

Lemma gaussian_get (window_size : nat) (sigma : R) (x : nat) :
  (x < window_size)%nat ->
  nth x (gaussian window_size sigma) 0
  = exp (- ((INR x - INR (window_size / 2)) ^ 2) / (2 * sigma ^ 2))
    / Rsum (map (fun k => exp (- ((INR k - INR (window_size / 2)) ^ 2)
                              / (2 * sigma ^ 2)))
                (seq 0 window_size)).
Proof.
  intros Hx. unfold gaussian. rewrite map_map.
  now rewrite nth_map_seq by exact Hx.
Qed.

Lemma gaussian_raw_sum_pos (window_size : nat) (sigma : R) :
  window_size <> 0%nat ->
  0 < Rsum (map (fun k => exp (- ((INR k - INR (window_size / 2)) ^ 2)
                            / (2 * sigma ^ 2)))
                (seq 0 window_size)).
Proof.
  intros Hne. apply Rsum_map_pos.
  - destruct window_size; [contradiction|discriminate].
  - intros k _. apply exp_pos.
Qed.

Lemma Rsum_member_le (l : list R) (v : R) :
  Forall (fun u => 0 <= u) l -> In v l -> v <= Rsum l.
Proof.
  induction 1 as [|u l Hu Hl IH]; intros Hin; [contradiction|].
  rewrite Rsum_cons. pose proof (Rsum_nonneg l Hl) as Hs.
  destruct Hin as [-> | Hin]; [lra|]. specialize (IH Hin). lra.
Qed.

(** X18.  For a window size of at least 1 and a width [sigma] between 1e-6
    and 1e6 (so that the divisor 2 sigma^2 is an ordinary non-zero number),
    [gaussian] yields [window_size] weights between 0 and 1, of which
    the one at [window_size // 2] is positive and the largest; for an odd
    window size the weights are symmetric about the middle; and every kernel
    of [create_window] is the outer product of the weights for sigma = 1.5
    with themselves. *)
Theorem gaussian_weights (window_size : nat) (sigma : R) :
  (1 <= window_size)%nat -> 1 / 10 ^ 6 <= sigma <= 10 ^ 6 ->
  length (gaussian window_size sigma) = window_size
  /\ Forall (fun v => 0 <= v <= 1) (gaussian window_size sigma)
  /\ 0 < nth (window_size / 2) (gaussian window_size sigma) 0
  /\ (forall x, (x < window_size)%nat ->
                nth x (gaussian window_size sigma) 0
                <= nth (window_size / 2) (gaussian window_size sigma) 0)
  /\ (Nat.odd window_size = true ->
      forall x, (x < window_size)%nat ->
                nth x (gaussian window_size sigma) 0
                = nth (window_size - 1 - x) (gaussian window_size sigma) 0)
  /\ (forall channel c a b,
         (c < channel)%nat -> (a < window_size)%nat -> (b < window_size)%nat ->
         get4 (create_window window_size channel) c 0 a b
         = nth a (gaussian window_size (15 / 10)) 0
           * nth b (gaussian window_size (15 / 10)) 0).
Proof.
  intros Hws Hrange.
  assert (Hs : sigma <> 0) by lra.
  assert (Hs2 : 2 * sigma ^ 2 <> 0).
  { pose proof (pow2_pos sigma Hs). lra. }
  assert (Hne : window_size <> 0%nat) by lia.
  assert (Hmid : (window_size / 2 < window_size)%nat)
    by (apply Nat.div_lt; lia).
  assert (Hpos2 : 0 < 2 * sigma ^ 2).
  { pose proof (pow2_ge_0 sigma). lra. }
  pose proof (gaussian_raw_sum_pos window_size sigma Hne) as Hsum.
  assert (Hnonneg : Forall (fun v => 0 <= v) (gaussian window_size sigma)).
  { apply Forall_forall; intros v Hv.
    apply (In_nth _ _ 0) in Hv as (x & Hx & <-).
    apply gaussian_entries_nonneg. }
  assert (Hmidval : exp (- ((INR (window_size / 2) - INR (window_size / 2)) ^ 2)
                         / (2 * sigma ^ 2)) = 1).
  { replace (- ((INR (window_size / 2) - INR (window_size / 2)) ^ 2)
             / (2 * sigma ^ 2)) with 0
      by (field; intros ->; apply Hs2; ring).
    apply exp_0. }
  split; [apply gaussian_length|].
  split; [|split; [|split; [|split]]].
  - apply Forall_forall; intros v Hv. split.
    + revert v Hv. now apply Forall_forall.
    + rewrite <- (gaussian_sum window_size sigma Hne).
      now apply Rsum_member_le.
  - rewrite gaussian_get by exact Hmid. rewrite Hmidval.
    apply Rdiv_lt_0_compat; [lra|exact Hsum].
  - intros x Hx. rewrite !gaussian_get by assumption. rewrite Hmidval.
    unfold Rdiv. apply Rmult_le_compat_r.
    + now apply Rlt_le, Rinv_0_lt_compat.
    + rewrite <- exp_0.
      set (z := - ((INR x - INR (window_size / 2)) ^ 2) * / (2 * sigma ^ 2)).
      assert (Hz : z <= 0).
      { unfold z. rewrite <- Ropp_mult_distr_l.
        apply Ropp_le_cancel. rewrite Ropp_involutive, Ropp_0.
        apply Rmult_le_pos; [apply pow2_ge_0|].
        now apply Rlt_le, Rinv_0_lt_compat. }
      destruct Hz as [Hlt | ->]; [|lra].
      now apply Rlt_le, exp_increasing.
  - intros Hodd x Hx.
    rewrite !gaussian_get by lia. do 3 f_equal.
    apply Nat.odd_spec in Hodd as [k Hk].
    assert (Hhalf : (window_size / 2 = k)%nat).
    { subst window_size. rewrite Nat.add_comm, Nat.mul_comm.
      rewrite Nat.div_add by lia. reflexivity. }
    rewrite Hhalf.
    replace (window_size - 1 - x)%nat with (2 * k - x)%nat by lia.
    rewrite minus_INR by lia. rewrite mult_INR. simpl INR. ring.
  - intros channel c a b Hc Ha Hb.
    unfold get4, get3. rewrite create_window_repeat.
    rewrite nth_repeat_lt by exact Hc. cbn [nth].
    now apply window2d_get.
Qed.

Lemma gaussian_weights_example :
  0 < nth 5 (gaussian 11 (15 / 10)) 0.
Proof.
  apply (gaussian_weights 11 (15 / 10)); [lia|lra].
Defined.

(** ** SSIM: shape of the map, symmetry *)

Lemma out_size_odd_even (window_size n : nat) :
  out_size window_size n
  = if Nat.odd window_size then n else (n + 1)%nat.
Proof.
  unfold out_size.
  destruct (Nat.odd window_size) eqn:E.
  - apply Nat.odd_spec in E as [k ->].
    replace ((2 * k + 1) / 2)%nat with k; [lia|].
    rewrite Nat.add_comm, Nat.mul_comm, Nat.div_add by lia. reflexivity.
  - assert (Heven : Nat.even window_size = true).
    { rewrite <- Nat.negb_odd, E. reflexivity. }
    apply Nat.even_spec in Heven as [k ->].
    replace (2 * k / 2)%nat with k; [lia|].
    rewrite Nat.mul_comm, Nat.div_mul by lia. reflexivity.
Qed.

(** X19.  For images of shape (B, C, H, W) with positive dimensions and a
    window size of at least 1, the SSIM map has the shape (B, C, H, W) of the
    images when the window size is odd, and one row and one column more,
    (B, C, H+1, W+1), when it is even. *)
Theorem ssim_map_shape_odd_even (img1 img2 : T4) (B C H W window_size : nat) :
  has_shape4 B C H W img1 -> has_shape4 B C H W img2 ->
  (1 <= B)%nat -> (1 <= C)%nat -> (1 <= H)%nat -> (1 <= W)%nat ->
  (1 <= window_size)%nat ->
  let m := ssim_map img1 img2 (create_window window_size C) window_size in
  if Nat.odd window_size
  then has_shape4 B C H W m
  else has_shape4 B C (H + 1) (W + 1) m.
Proof.
  intros H1 H2 _ _ HH _ _ m.
  pose proof (ssim_map_shape img1 img2 B C H W window_size H1 H2 HH) as Hm.
  rewrite !out_size_odd_even in Hm.
  destruct (Nat.odd window_size); exact Hm.
Qed.

Lemma ssim_map_shape_odd_even_example :
  has_shape4 1 1 2 2
    (ssim_map [[[[1; 2]; [3; 4]]]] [[[[4; 3]; [2; 1]]]] (create_window 11 1) 11)
  /\ has_shape4 1 1 3 3
       (ssim_map [[[[1; 2]; [3; 4]]]] [[[[4; 3]; [2; 1]]]] (create_window 4 1) 4).
Proof.
  assert (Hs1 : has_shape4 1 1 2 2 [[[[1; 2]; [3; 4]]]])
    by (repeat (split || constructor)).
  assert (Hs2 : has_shape4 1 1 2 2 [[[[4; 3]; [2; 1]]]])
    by (repeat (split || constructor)).
  split.
  - exact (ssim_map_shape_odd_even _ _ 1 1 2 2 11 Hs1 Hs2 ltac:(lia) ltac:(lia)
                                    ltac:(lia) ltac:(lia) ltac:(lia)).
  - exact (ssim_map_shape_odd_even _ _ 1 1 2 2 4 Hs1 Hs2 ltac:(lia) ltac:(lia)
                                    ltac:(lia) ltac:(lia) ltac:(lia)).
Defined.

Lemma zipWith_comm {A C : Type} (f : A -> A -> C) (xs ys : list A) :
  (forall a b, f a b = f b a) -> zipWith f xs ys = zipWith f ys xs.
Proof.
  intros Hf. revert ys; induction xs as [|x xs IH]; intros [|y ys]; simpl; auto.
  now rewrite Hf, IH.
Qed.

Lemma zipWith4_comm (f : R -> R -> R) (x y : T4) :
  (forall a b, f a b = f b a) -> zipWith4 f x y = zipWith4 f y x.
Proof.
  intros Hf. unfold zipWith4.
  apply zipWith_comm; intros x3 y3.
  apply zipWith_comm; intros x2 y2.
  apply zipWith_comm; intros x1 y1.
  now apply zipWith_comm.
Qed.

Lemma ssim_map_sym (img1 img2 window : T4) (window_size : nat) :
  ssim_map img1 img2 window window_size = ssim_map img2 img1 window window_size.
Proof.
  unfold ssim_map. cbv zeta.
  rewrite (zipWith4_comm Rmult img1 img2) by (intros; apply Rmult_comm).
  rewrite (zipWith4_comm Rmult (conv2d img1 window (window_size / 2))
                         (conv2d img2 window (window_size / 2)))
    by (intros; apply Rmult_comm).
  rewrite (zipWith4_comm Rplus
             (map4 (fun v => v ^ 2) (conv2d img1 window (window_size / 2)))
             (map4 (fun v => v ^ 2) (conv2d img2 window (window_size / 2))))
    by (intros; apply Rplus_comm).
  rewrite (zipWith4_comm Rplus
             (zipWith4 Rminus
                (conv2d (zipWith4 Rmult img1 img1) window (window_size / 2))
                (map4 (fun v => v ^ 2) (conv2d img1 window (window_size / 2))))
             (zipWith4 Rminus
                (conv2d (zipWith4 Rmult img2 img2) window (window_size / 2))
                (map4 (fun v => v ^ 2) (conv2d img2 window (window_size / 2)))))
    by (intros; apply Rplus_comm).
  reflexivity.
Qed.

(** X20.  [ssim] is symmetric: for two images of one shape (B, C, H, W) with
    positive dimensions and a window size of at least 1, exchanging them
    changes neither result, with and without [size_average]. *)
Theorem ssim_symmetric (img1 img2 : T4) (B C H W window_size : nat)
        (size_average : bool) :
  has_shape4 B C H W img1 -> has_shape4 B C H W img2 ->
  (1 <= B)%nat -> (1 <= C)%nat -> (1 <= H)%nat -> (1 <= W)%nat ->
  (1 <= window_size)%nat ->
  ssim img1 img2 window_size size_average
  = ssim img2 img1 window_size size_average.
Proof.
  intros H1 H2 HB HC HH _ _.
  assert (Hch : length (nth 0 img1 []) = length (nth 0 img2 [])).
  { destruct (has_shape4_first_plane B C H W img1 H1 HB HC HH)
      as (plane1 & planes1 & img1' & -> & HlenC1 & _).
    destruct (has_shape4_first_plane B C H W img2 H2 HB HC HH)
      as (plane2 & planes2 & img2' & -> & HlenC2 & _).
    cbn [nth]. now rewrite HlenC1, HlenC2. }
  unfold ssim, _ssim. rewrite Hch.
  now rewrite (ssim_map_sym img1 img2).
Qed.

Lemma ssim_symmetric_example :
  ssim [[[[1; 2]; [3; 4]]]] [[[[4; 3]; [2; 1]]]] 11 true
  = ssim [[[[4; 3]; [2; 1]]]] [[[[1; 2]; [3; 4]]]] 11 true.
Proof.
  assert (Hs1 : has_shape4 1 1 2 2 [[[[1; 2]; [3; 4]]]])
    by (repeat (split || constructor)).
  assert (Hs2 : has_shape4 1 1 2 2 [[[[4; 3]; [2; 1]]]])
    by (repeat (split || constructor)).
  exact (ssim_symmetric _ _ 1 1 2 2 11 true Hs1 Hs2 ltac:(lia) ltac:(lia)
                        ltac:(lia) ltac:(lia) ltac:(lia)).
Defined.

(** ** SSIM of two images: every entry lies between -1 and 1 *)







Lemma tabulate4_pair_ext (img1 img2 : T4) (channel window_size : nat)
      (f g : T2 -> T2 -> nat -> nat -> R) :
  (forall p1 p2 y x, f p1 p2 y x = g p1 p2 y x) ->
  tabulate4_pair img1 img2 channel window_size f
  = tabulate4_pair img1 img2 channel window_size g.
Proof.
  intros H. unfold tabulate4_pair.
  apply zipWith_ext; intros planes1 planes2 _ _.
  apply zipWith_ext; intros p1 p2 _ _.
  apply map_ext; intros y. apply map_ext; intros x. apply H.
Qed.




Section PairTabulation.

Variables (img1 img2 : T4) (B C H W window_size : nat).
Hypothesis Himg1 : has_shape4 B C H W img1.
Hypothesis Himg2 : has_shape4 B C H W img2.
Hypothesis HH : (1 <= H)%nat.







End PairTabulation.















(** ** Weighted mean: unit weights, equal arguments, exchange *)

Module WeightedMeanFacts.

Import Tensor.

Lemma Rsum_repeat (c : R) (n : nat) : Rsum (repeat c n) = INR n * c.
Proof.
  induction n as [|n IH]; [unfold Rsum; simpl; lra|].
  cbn [repeat]. rewrite Rsum_cons, IH, S_INR. lra.
Qed.

Lemma zipWith_Rmult_ones (l : list R) :
  zipWith Rmult l (repeat 1 (length l)) = l.
Proof.
  induction l as [|v l IH]; simpl; [reflexivity|].
  rewrite IH. f_equal. lra.
Qed.

(** X22.  With a weight tensor of ones of the shape of a non-empty input,
    [weighted_mean] returns the mean of the input. *)
Theorem weighted_mean_unit_weights (input : Tensor.t) :
  wf input -> numel input <> 0%nat ->
  weighted_mean input (mk (shape input) (repeat 1 (numel input)))
  = Ok (mk [1%nat] [Paddle.mean (data input)]).
Proof.
  intros Hwf Hne.
  set (weight := mk (shape input) (repeat 1 (numel input))).
  assert (Hwfw : wf weight).
  { unfold wf, weight, numel. cbn [data shape]. apply repeat_length. }
  rewrite (weighted_mean_value input weight (shape input))
    by (cbn [shape weight]; apply TensorFacts.broadcast_shapes_same).
  rewrite (TensorFacts.broadcast_to_same input Hwf).
  change (shape input) with (shape weight) at 1.
  rewrite (TensorFacts.broadcast_to_same weight Hwfw).
  cbn [data weight]. unfold wf in Hwf. rewrite <- Hwf at 1.
  rewrite zipWith_Rmult_ones, Rsum_repeat.
  unfold numel at 3. cbn [shape weight]. fold (numel input).
  unfold Paddle.mean. rewrite Hwf.
  do 3 f_equal. field. apply not_0_INR. exact Hne.
Qed.

Lemma broadcast_shapes_rev_comm (s1 s2 : list nat) :
  broadcast_shapes_rev s1 s2 = broadcast_shapes_rev s2 s1.
Proof.
  revert s2; induction s1 as [|d1 r1 IH]; intros [|d2 r2]; simpl; auto.
  rewrite (IH r2). destruct (broadcast_shapes_rev r2 r1) as [r|]; [|reflexivity].
  destruct (d1 =? d2)%nat eqn:E12.
  - apply Nat.eqb_eq in E12. subst d2. now rewrite Nat.eqb_refl.
  - rewrite (Nat.eqb_sym d2 d1), E12.
    destruct (d1 =? 1)%nat eqn:E1; destruct (d2 =? 1)%nat eqn:E2; try reflexivity.
    apply Nat.eqb_eq in E1, E2. apply Nat.eqb_neq in E12. lia.
Qed.

Lemma broadcast_shapes_comm (s1 s2 : list nat) :
  broadcast_shapes s1 s2 = broadcast_shapes s2 s1.
Proof.
  unfold broadcast_shapes. now rewrite broadcast_shapes_rev_comm.
Qed.

Lemma l1_loss_none_comm (prediction target : Tensor.t) :
  l1_loss_none prediction target = l1_loss_none target prediction.
Proof.
  unfold l1_loss_none, binop. rewrite broadcast_shapes_comm.
  destruct (broadcast_shapes (shape target) (shape prediction)) as [s|];
    [|reflexivity].
  do 2 f_equal. apply zipWith_comm. intros a b. apply Rabs_minus_sym.
Qed.

Lemma broadcast_to_zeros (x : Tensor.t) (s : list nat) :
  Forall (fun v => v = 0) (data x) ->
  Forall (fun v => v = 0) (data (broadcast_to x s)).
Proof.
  intros Hx. unfold broadcast_to. cbn [data].
  apply Forall_forall; intros v Hv. apply in_map_iff in Hv as (k & <- & _).
  set (j := ravel_rev (rev (shape x)) (unravel_rev (rev s) k)).
  destruct (Nat.lt_ge_cases j (length (data x))) as [Hlt|Hge].
  - apply (proj1 (Forall_forall _ _) Hx). now apply nth_In.
  - now apply nth_overflow.
Qed.

(** X23.  [masked_l1_loss] does not change when prediction and target are
    exchanged; on a prediction compared with itself, under a mask that can
    be broadcast with it and whose entries do not sum to 0, it returns 0. *)
Theorem masked_l1_loss_symmetric_and_zero (prediction target mask : Tensor.t)
        (s : list nat) :
  broadcast_shapes (shape prediction) (shape mask) = Some s ->
  Rsum (data mask) <> 0 -> numel prediction <> 0%nat -> numel mask <> 0%nat ->
  masked_l1_loss prediction target mask = masked_l1_loss target prediction mask
  /\ masked_l1_loss prediction prediction mask = Ok (mk [1%nat] [0]).
Proof.
  intros Hs Hsum Hnp Hnm. split.
  - unfold masked_l1_loss. now rewrite l1_loss_none_comm.
  - unfold masked_l1_loss, l1_loss_none, binop at 1.
    rewrite TensorFacts.broadcast_shapes_same. cbn [bind].
    set (abs_error := mk (shape prediction) _).
    assert (Hzero : Forall (fun v => v = 0) (data abs_error)).
    { unfold abs_error. cbn [data]. rewrite zipWith_diag.
      apply Forall_forall; intros v Hv. apply in_map_iff in Hv as (u & <- & _).
      rewrite Rminus_diag. apply Rabs_R0. }
    rewrite (weighted_mean_value abs_error mask s) by exact Hs.
    do 3 f_equal.
    assert (Hprod : Rsum (zipWith Rmult (data (broadcast_to abs_error s))
                                  (data (broadcast_to mask s))) = 0).
    { apply Rsum_all_zero.
      apply (zipWith_Forall (fun v => v = 0) (fun _ => True));
        [|now apply broadcast_to_zeros|apply Forall_forall; auto].
      intros u v -> _. lra. }
    rewrite Hprod. unfold Rdiv. lra.
Qed.

End WeightedMeanFacts.

Lemma weighted_mean_unit_weights_example :
  weighted_mean (Tensor.mk [2; 2]%nat [1; 2; 3; 4])
                (Tensor.mk [2; 2]%nat [1; 1; 1; 1])
  = Ok (Tensor.mk [1%nat] [mean [1; 2; 3; 4]]).
Proof.
  apply (WeightedMeanFacts.weighted_mean_unit_weights
           (Tensor.mk [2; 2]%nat [1; 2; 3; 4])).
  - reflexivity.
  - discriminate.
Defined.

Lemma masked_l1_loss_symmetric_and_zero_example :
  masked_l1_loss (Tensor.mk [2; 2]%nat [1; 2; 3; 4]) (Tensor.mk [2; 2]%nat [1; 2; 3; 4])
                 (Tensor.mk [2; 1]%nat [1; 0])
  = Ok (Tensor.mk [1%nat] [0]).
Proof.
  apply (WeightedMeanFacts.masked_l1_loss_symmetric_and_zero
           (Tensor.mk [2; 2]%nat [1; 2; 3; 4]) (Tensor.mk [2; 2]%nat [1; 2; 3; 4])
           (Tensor.mk [2; 1]%nat [1; 0]) [2; 2]%nat).
  - reflexivity.
  - unfold Rsum; simpl. lra.
  - discriminate.
  - discriminate.
Defined.

(** ** Weighted mean of a constant under a broadcast weight *)

Module BroadcastFacts.

Import Tensor.

Lemma map_seq_shift {A : Type} (g : nat -> A) (n : nat) :
  forall a, map g (seq a n) = map (fun i => g (i + a)%nat) (seq 0 n).
Proof.
  intros a. rewrite <- (Nat.add_0_l a) at 1.
  generalize 0%nat as b. induction n as [|n IH]; intros b; simpl; [reflexivity|].
  f_equal. apply (IH (S b)).
Qed.

Lemma Rsum_seq_blocks (g : nat -> R) (d P : nat) :
  Rsum (map g (seq 0 (d * P)))
  = Rsum (map (fun k' => Rsum (map (fun i => g (i + d * k')%nat) (seq 0 d)))
              (seq 0 P)).
Proof.
  induction P as [|P IH].
  - rewrite Nat.mul_0_r. reflexivity.
  - rewrite Nat.mul_succ_r, seq_app, map_app, Rsum_app, IH.
    rewrite Rsum_map_seq_shift. f_equal.
    rewrite Nat.add_0_l. now rewrite map_seq_shift.
Qed.

Lemma Rsum_map_const {A : Type} (c : R) (l : list A) :
  Rsum (map (fun _ => c) l) = INR (length l) * c.
Proof.
  induction l as [|a l IH]; [unfold Rsum; simpl; lra|].
  cbn [map length]. rewrite Rsum_cons, IH, S_INR. lra.
Qed.

Lemma broadcast_into_cons (d1 d2 : nat) (r1 r2 : list nat) :
  broadcast_shapes_rev (d1 :: r1) (d2 :: r2) = Some (d1 :: r1) ->
  broadcast_shapes_rev r1 r2 = Some r1 /\ (d2 = d1 \/ d2 = 1%nat).
Proof.
  simpl. destruct (broadcast_shapes_rev r1 r2) as [r|]; [|discriminate].
  destruct (d1 =? d2)%nat eqn:E12.
  - apply Nat.eqb_eq in E12. intros H. injection H as Hr. subst r.
    split; [reflexivity|now left].
  - destruct (d1 =? 1)%nat eqn:E1.
    + intros H. injection H as Hd Hr. apply Nat.eqb_neq in E12. lia.
    + destruct (d2 =? 1)%nat eqn:E2; [|discriminate].
      apply Nat.eqb_eq in E2. intros H. injection H as Hr. subst r.
      split; [reflexivity|now right].
Qed.

(** Reading a tensor of shape [rw] at every position of a shape [rs] it is
    broadcast to visits every entry the same number of times. *)
Lemma broadcast_sum (rs : list nat) :
  forall (rw : list nat) (f : nat -> R),
    broadcast_shapes_rev rs rw = Some rs ->
    INR (numel_of rw)
    * Rsum (map (fun k => f (ravel_rev rw (unravel_rev rs k)))
                (seq 0 (numel_of rs)))
    = INR (numel_of rs) * Rsum (map f (seq 0 (numel_of rw))).
Proof.
  induction rs as [|d1 r1 IH]; intros rw f Hb.
  - destruct rw as [|d2 r2]; [|discriminate]. reflexivity.
  - destruct rw as [|d2 r2].
    + cbn [ravel_rev numel_of fold_right]. rewrite Rsum_map_const, length_seq.
      unfold Rsum; simpl. lra.
    + destruct (broadcast_into_cons d1 d2 r1 r2 Hb) as [Hrest Hd].
      cbn [numel_of fold_right]. fold (numel_of r1). fold (numel_of r2).
      rewrite Rsum_seq_blocks.
      assert (Hidx : forall k' i, In i (seq 0 d1) ->
                 f (ravel_rev (d2 :: r2) (unravel_rev (d1 :: r1) (i + d1 * k')))
                 = f ((if (d2 =? 1)%nat then 0 else i)
                      + d2 * ravel_rev r2 (unravel_rev r1 k'))%nat).
      { intros k' i Hi. apply in_seq in Hi. cbn [unravel_rev ravel_rev].
        assert (Hd1 : d1 <> 0%nat) by lia.
        replace ((i + d1 * k') mod d1)%nat with i
          by (rewrite Nat.mul_comm, Nat.Div0.mod_add, Nat.mod_small; lia).
        replace ((i + d1 * k') / d1)%nat with k'
          by (rewrite Nat.mul_comm, Nat.div_add, Nat.div_small; lia).
        reflexivity. }
      rewrite (Rsum_map_ext _
                 (fun k' => Rsum (map (fun i =>
                     f ((if (d2 =? 1)%nat then 0 else i)
                        + d2 * ravel_rev r2 (unravel_rev r1 k'))%nat)
                   (seq 0 d1))))
        by (intros k' _; apply Rsum_map_ext; intros i Hi; now apply Hidx).
      destruct (d2 =? 1)%nat eqn:E2.
      * apply Nat.eqb_eq in E2. subst d2.
        rewrite (Rsum_map_ext _
                   (fun k' => INR d1 * f (ravel_rev r2 (unravel_rev r1 k'))))
          by (intros k' _; rewrite Rsum_map_const, length_seq;
              do 2 f_equal; lia).
        rewrite Rsum_map_scal.
        specialize (IH r2 f Hrest).
        rewrite Nat.mul_1_l, mult_INR.
        rewrite <- Rmult_assoc, (Rmult_comm (INR (numel_of r2))), Rmult_assoc, IH.
        ring.
      * destruct Hd as [-> | ->]; [|rewrite Nat.eqb_refl in E2; discriminate].
        specialize (IH r2 (fun j => Rsum (map (fun i => f (i + d1 * j)%nat)
                                              (seq 0 d1)))
                       Hrest).
        cbv beta in IH.
        rewrite <- Rsum_seq_blocks in IH.
        rewrite !mult_INR, Rmult_assoc, IH. ring.
Qed.

Lemma broadcast_to_sum (weight : Tensor.t) (s : list nat) :
  wf weight -> broadcast_shapes s (shape weight) = Some s ->
  INR (numel weight) * Rsum (data (broadcast_to weight s))
  = INR (numel_of s) * Rsum (data weight).
Proof.
  intros Hwf Hs.
  assert (Hrev : broadcast_shapes_rev (rev s) (rev (shape weight)) = Some (rev s)).
  { unfold broadcast_shapes in Hs.
    destruct (broadcast_shapes_rev (rev s) (rev (shape weight))) as [r|];
      [|discriminate].
    simpl in Hs. injection Hs as <-. now rewrite rev_involutive. }
  pose proof (broadcast_sum (rev s) (rev (shape weight))
                (fun j => nth j (data weight) 0) Hrev) as H.
  rewrite !TensorFacts.numel_of_rev in H. fold (numel weight) in H.
  rewrite (Rsum_nth_seq (data weight) (numel weight) Hwf) in H.
  exact H.
Qed.

Lemma zipWith_Rmult_const (c : R) (l : list R) :
  zipWith Rmult (repeat c (length l)) l = map (fun v => c * v) l.
Proof.
  induction l as [|v l IH]; simpl; [reflexivity|]. now rewrite IH.
Qed.

(** X24.  The weighted mean of a constant tensor is that constant, also when
    the weight is broadcast: for a non-empty input of shape [s] whose entries
    all are [c] and a weight that broadcasts to [s] and whose entries do not
    sum to 0, [weighted_mean] returns [c]. *)
Theorem weighted_mean_of_constant (c : R) (s : list nat) (weight : Tensor.t) :
  wf weight -> broadcast_shapes s (shape weight) = Some s ->
  numel_of s <> 0%nat -> Rsum (data weight) <> 0 ->
  weighted_mean (mk s (repeat c (numel_of s))) weight = Ok (mk [1%nat] [c]).
Proof.
  intros Hwf Hs Hns Hsum.
  set (input := mk s (repeat c (numel_of s))).
  assert (Hwfi : wf input).
  { unfold wf, input, numel. cbn [data shape]. apply repeat_length. }
  assert (Hnw : numel weight <> 0%nat).
  { intros H0. apply Hsum. unfold wf in Hwf. rewrite H0 in Hwf.
    destruct (data weight); [reflexivity|discriminate]. }
  rewrite (weighted_mean_value input weight s) by exact Hs.
  change s with (shape input) at 1.
  rewrite (TensorFacts.broadcast_to_same input Hwfi).
  cbn [data input].
  assert (Hlen : length (data (broadcast_to weight s)) = numel_of s).
  { unfold broadcast_to. cbn [data]. now rewrite length_map, length_seq. }
  rewrite <- Hlen at 1. rewrite zipWith_Rmult_const, Rsum_map_scal.
  pose proof (broadcast_to_sum weight s Hwf Hs) as Hb.
  unfold numel at 1. cbn [shape input].
  assert (Hnw' : INR (numel weight) <> 0) by (now apply not_0_INR).
  assert (Hns' : INR (numel_of s) <> 0) by (now apply not_0_INR).
  assert (Hbt : Rsum (data (broadcast_to weight s))
                = INR (numel_of s) * Rsum (data weight) / INR (numel weight)).
  { apply (Rmult_eq_reg_l (INR (numel weight))); [|exact Hnw'].
    rewrite Hb. field. exact Hnw'. }
  rewrite map_id, Hbt. do 3 f_equal. field. repeat split; assumption.
Qed.

End BroadcastFacts.

Lemma weighted_mean_of_constant_example :
  weighted_mean (Tensor.mk [2; 3]%nat [5; 5; 5; 5; 5; 5])
                (Tensor.mk [2; 1]%nat [1; 0])
  = Ok (Tensor.mk [1%nat] [5]).
Proof.
  apply (BroadcastFacts.weighted_mean_of_constant 5 [2; 3]%nat
           (Tensor.mk [2; 1]%nat [1; 0])).
  - reflexivity.
  - reflexivity.
  - discriminate.
  - unfold Rsum; simpl. lra.
Defined.

(** ** Guided attention loss with one head *)

Module GuidedAttentionFacts.

Import GuidedAttentionLoss.

Lemma shape_eqb_refl (s : list nat) : shape_eqb s s = true.
Proof.
  induction s as [|d s IH]; simpl; [reflexivity|].
  now rewrite Nat.eqb_refl, IH.
Qed.

Lemma expand_same (x : Mask.t) :
  length (Mask.data x) = Tensor.numel_of (Mask.shape x) ->
  Mask.expand x (Mask.shape x) = Mask.data x.
Proof.
  intros Hwf. unfold Mask.expand.
  rewrite <- Hwf.
  transitivity (map (fun k => nth k (Mask.data x) false)
                    (seq 0 (length (Mask.data x))));
    [|apply TensorFacts.map_nth_seq].
  apply map_ext_in; intros k Hk. apply in_seq in Hk.
  rewrite TensorFacts.ravel_unravel_rev; [reflexivity|].
  rewrite TensorFacts.numel_of_rev. lia.
Qed.

Lemma mask_broadcast_to_same (x : Mask.t) :
  length (Mask.data x) = Tensor.numel_of (Mask.shape x) ->
  Mask.broadcast_to x (Mask.shape x) = Ok (Mask.mk (Mask.shape x) (Mask.data x)).
Proof.
  intros Hwf. unfold Mask.broadcast_to.
  rewrite TensorFacts.broadcast_shapes_same, shape_eqb_refl.
  now rewrite expand_same.
Qed.

Lemma broadcast_shapes_outer (B To Ti : nat) :
  Tensor.broadcast_shapes [B; To; 1%nat] [B; 1%nat; Ti] = Some [B; To; Ti].
Proof.
  unfold Tensor.broadcast_shapes. cbn [rev app Tensor.broadcast_shapes_rev].
  rewrite Nat.eqb_refl.
  destruct (To =? 1)%nat eqn:E1; destruct (1 =? Ti)%nat eqn:E2;
    try apply Nat.eqb_eq in E1; try apply Nat.eqb_eq in E2; subst;
    cbn; reflexivity.
Qed.

Lemma make_masks_value (ilens olens : list nat) :
  length ilens = length olens ->
  exists data,
    _make_masks ilens olens
    = Ok (Mask.mk [length ilens; list_max olens; list_max ilens] data)
    /\ length data
       = Tensor.numel_of [length ilens; list_max olens; list_max ilens].
Proof.
  intros Hlen. unfold _make_masks, Mask.logical_and, make_non_pad_mask.
  cbn [Mask.unsqueeze Mask.shape Mask.data].
  change (unsqueeze_shape [length olens; list_max olens] (-1))
    with [length olens; list_max olens; 1%nat].
  change (unsqueeze_shape [length ilens; list_max ilens] (-2))
    with [length ilens; 1%nat; list_max ilens].
  rewrite <- Hlen, broadcast_shapes_outer.
  eexists. split; [reflexivity|].
  rewrite zipWith_length. unfold Mask.expand.
  rewrite !length_map, !length_seq. lia.
Qed.

Lemma assign_block_row_lengths (dst : T2) (olen ilen : nat) (src : T2) :
  map (@length R) (assign_block dst olen ilen src) = map (@length R) dst.
Proof.
  unfold assign_block, enumerate. rewrite map_map.
  assert (H : forall start,
             map (fun x : nat * T1 =>
                    length (let '(o, row) := x in
                            if (o <? olen)%nat
                            then map (fun '(i, v) =>
                                        if (i <? ilen)%nat then get2 src o i else v)
                                     (combine (seq 0 (length row)) row)
                            else row))
                 (combine (seq start (length dst)) dst)
             = map (@length R) dst).
  { induction dst as [|row dst IH]; intros start; [reflexivity|].
    cbn [length seq combine map]. f_equal; [|apply IH].
    destruct (start <? olen)%nat; [|reflexivity].
    rewrite length_map, length_combine, length_seq. lia. }
  apply H.
Qed.

Lemma zeros_plane_length (m n : nat) :
  length (flatten2 (repeat (repeat 0 n) m)) = (m * n)%nat.
Proof.
  unfold flatten2. induction m as [|m IH]; [reflexivity|].
  cbn [repeat concat]. rewrite length_app, repeat_length, IH. lia.
Qed.

Lemma guided_attention_masks_numel (sig : R) (ilens olens : list nat) :
  length ilens = length olens ->
  length (flatten3 (_make_guided_attention_masks sig ilens olens))
  = Tensor.numel_of [length ilens; list_max olens; list_max ilens].
Proof.
  intros Hlen. rewrite (guided_attention_masks_as_map sig ilens olens Hlen).
  unfold flatten3. rewrite map_map.
  assert (Hplane : forall a : nat * nat,
             length (flatten2
                       ((fun '(ilen, olen) =>
                           assign_block
                             (repeat (repeat 0 (list_max ilens)) (list_max olens))
                             olen ilen
                             (_make_guided_attention_mask ilen olen sig)) a))
             = (list_max olens * list_max ilens)%nat).
  { intros [ilen olen]. unfold flatten2.
    rewrite length_concat, assign_block_row_lengths, <- length_concat.
    apply zeros_plane_length. }
  assert (Hcount : length (combine ilens olens) = length ilens)
    by (rewrite length_combine; lia).
  rewrite <- Hcount. clear Hcount Hlen.
  induction (combine ilens olens) as [|a l IH].
  - reflexivity.
  - cbn [map concat length]. rewrite length_app, Hplane, IH.
    unfold Tensor.numel_of. cbn [fold_right]. lia.
Qed.

(** X25.  With one head the multi-head loss is the single-head loss: for a
    batch of B >= 1 positive lengths, sigma <> 0 and attention weights of
    shape (B, max(olens), max(ilens)), [GuidedAttentionLoss.forward] returns
    a loss, and [GuidedMultiHeadAttentionLoss.forward] on the weights with a
    head axis of size 1 inserted returns the same loss, on freshly built
    modules. *)
Theorem multi_head_loss_with_one_head (sig al : R) (reset : bool)
        (att_ws : Tensor.t) (ilens olens : list nat) (B : nat) :
  (1 <= B)%nat -> length ilens = B -> length olens = B ->
  Forall (fun len => (0 < len)%nat) ilens ->
  Forall (fun len => (0 < len)%nat) olens ->
  sig <> 0 ->
  Tensor.wf att_ws ->
  Tensor.shape att_ws = [B; list_max olens; list_max ilens] ->
  exists loss,
    snd (forward (init sig al reset) att_ws ilens olens) = Ok loss
    /\ snd (GuidedMultiHeadAttentionLoss.forward
              (init sig al reset) (unsqueeze att_ws 1) ilens olens)
       = Ok loss.
Proof.
  intros HB Hi Ho _ _ _ Hwf Hshape.
  assert (Hlen : length ilens = length olens) by congruence.
  destruct (make_masks_value ilens olens Hlen) as (mdata & Hm & Hmlen).
  pose proof (guided_attention_masks_numel sig ilens olens Hlen) as Hglen.
  rewrite Hi in Hm, Hmlen, Hglen.
  set (To := list_max olens) in *. set (Ti := list_max ilens) in *.
  set (gdata := flatten3 (_make_guided_attention_masks sig ilens olens)) in *.
  assert (Hg : guided_attention_masks_tensor sig ilens olens
               = Ok (Tensor.mk [B; To; Ti] gdata)).
  { unfold guided_attention_masks_tensor.
    destruct ilens as [|i0 ilens']; [simpl in Hi; lia|].
    destruct olens as [|o0 olens']; [simpl in Ho; lia|].
    now rewrite Hi. }
  destruct att_ws as [ashape adata]. cbn [Tensor.shape] in Hshape. subst ashape.
  unfold Tensor.wf, Tensor.numel in Hwf. cbn [Tensor.shape Tensor.data] in Hwf.
  exists (al * mean (masked_select (zipWith Rmult gdata adata) mdata)).
  split.
  - unfold forward, init.
    cbn [reset_always guided_attn_masks masks sigma alpha].
    rewrite Hg. cbn [reset_always guided_attn_masks masks sigma alpha].
    rewrite Hm. cbn [reset_always guided_attn_masks masks sigma alpha].
    rewrite (TensorFacts.binop_same_shape Rmult (Tensor.mk [B; To; Ti] gdata)
               (Tensor.mk [B; To; Ti] adata)) by (try exact Hglen; try exact Hwf; reflexivity).
    cbn [Tensor.shape Tensor.data].
    pose proof (mask_broadcast_to_same (Mask.mk [B; To; Ti] mdata) Hmlen) as Hbt.
    cbn [Mask.shape Mask.data] in Hbt. rewrite Hbt.
    cbn [Mask.data]. destruct reset; reflexivity.
  - unfold GuidedMultiHeadAttentionLoss.forward, init.
    cbn [reset_always guided_attn_masks masks sigma alpha].
    rewrite Hg. cbn [reset_always guided_attn_masks masks sigma alpha].
    rewrite Hm. cbn [reset_always guided_attn_masks masks sigma alpha].
    unfold unsqueeze, Mask.unsqueeze.
    cbn [Tensor.shape Tensor.data Mask.shape Mask.data].
    change (unsqueeze_shape [B; To; Ti] 1) with [B; 1%nat; To; Ti].
    assert (Hnumel : Tensor.numel_of [B; 1%nat; To; Ti]
                     = Tensor.numel_of [B; To; Ti])
      by (unfold Tensor.numel_of; cbn [fold_right]; lia).
    rewrite (TensorFacts.binop_same_shape Rmult
               (Tensor.mk [B; 1%nat; To; Ti] gdata)
               (Tensor.mk [B; 1%nat; To; Ti] adata));
      [|unfold Tensor.wf, Tensor.numel; cbn [Tensor.shape Tensor.data];
        rewrite Hnumel; assumption ..|reflexivity].
    cbn [Tensor.shape Tensor.data].
    pose proof (mask_broadcast_to_same (Mask.mk [B; 1%nat; To; Ti] mdata)) as Hbt.
    cbn [Mask.shape Mask.data] in Hbt. rewrite Hbt by (rewrite Hnumel; exact Hmlen).
    cbn [Mask.data]. destruct reset; reflexivity.
Qed.

End GuidedAttentionFacts.

Lemma multi_head_loss_with_one_head_example :
  exists loss,
    snd (GuidedAttentionLoss.forward
           (GuidedAttentionLoss.init (4 / 10) 1 true)
           (Tensor.mk [1; 2; 2]%nat [1; 0; 0; 1]) [2%nat] [2%nat]) = Ok loss
    /\ snd (GuidedMultiHeadAttentionLoss.forward
              (GuidedAttentionLoss.init (4 / 10) 1 true)
              (unsqueeze (Tensor.mk [1; 2; 2]%nat [1; 0; 0; 1]) 1)
              [2%nat] [2%nat]) = Ok loss.
Proof.
  apply (GuidedAttentionFacts.multi_head_loss_with_one_head
           (4 / 10) 1 true (Tensor.mk [1; 2; 2]%nat [1; 0; 0; 1])
           [2%nat] [2%nat] 1);
    [ lia | reflexivity | reflexivity | repeat constructor | repeat constructor
    | lra | reflexivity | reflexivity ].
Defined.

(** ** Discriminator adversarial loss on feature-map lists *)

Module DiscriminatorMapsFacts.

Import DiscriminatorAdversarialLoss.

Lemma loop_maps_raise (self : t) (e : exn)
      (l : list (nat * (list T1 * list T1))) :
  fold_left (loop_body_maps self) l (Raise e) = Raise e.
Proof. induction l as [|x l IH]; simpl; auto. Qed.

Lemma combine_map_last (hs os : list (list T1)) :
  combine (map (fun l => last l []) hs) (map (fun l => last l []) os)
  = map (fun p => (last (fst p) [], last (snd p) [])) (combine hs os).
Proof.
  revert os; induction hs as [|h hs IH]; intros [|o os]; simpl; auto.
  now rewrite IH.
Qed.

Lemma loop_maps_as_loop (self : t) (ps : list (list T1 * list T1)) :
  Forall (fun p => fst p <> [] /\ snd p <> []) ps ->
  forall (start : nat) (st : loop_state),
    fold_left (loop_body_maps self) (combine (seq start (length ps)) ps) (Ok st)
    = fold_left (loop_body self)
                (combine (seq start (length ps))
                         (map (fun p => (last (fst p) [], last (snd p) [])) ps))
                (Ok st).
Proof.
  induction 1 as [|[h o] ps [Hh Ho] Hps IH]; intros start st; [reflexivity|].
  cbn [length seq combine map fold_left fst snd] in *.
  unfold loop_body_maps at 2.
  rewrite (GeneratorAdversarialLossFacts.last_entry_nonempty h [] Hh).
  rewrite (GeneratorAdversarialLossFacts.last_entry_nonempty o [] Ho).
  destruct st as [[real_loss fake_loss] i]. cbn [loop_body].
  apply IH.
Qed.

Lemma loop_maps_index_error (self : t) (ps : list (list T1 * list T1)) :
  Exists (fun p => fst p = [] \/ snd p = []) ps ->
  forall (start : nat) (st : loop_state),
    fold_left (loop_body_maps self) (combine (seq start (length ps)) ps) (Ok st)
    = Raise IndexError.
Proof.
  induction ps as [|[h o] ps IH]; intros Hex start st.
  - inversion Hex.
  - cbn [length seq combine fold_left].
    destruct h as [|h0 h'].
    + cbn. apply loop_maps_raise.
    + destruct o as [|o0 o'].
      * unfold loop_body_maps at 2.
        rewrite (GeneratorAdversarialLossFacts.last_entry_nonempty (h0 :: h') [])
          by discriminate.
        cbn. apply loop_maps_raise.
      * inversion Hex as [? ? [Hh|Ho]|? ? Hex']; subst;
          try discriminate Hh; try discriminate Ho.
        unfold loop_body_maps at 2.
        rewrite (GeneratorAdversarialLossFacts.last_entry_nonempty (h0 :: h') [])
          by discriminate.
        rewrite (GeneratorAdversarialLossFacts.last_entry_nonempty (o0 :: o') [])
          by discriminate.
        destruct st as [[real_loss fake_loss] i]. cbn [loop_body].
        now apply IH.
Qed.

(** X26.  On lists of feature-map lists, [forward] is [forward] on the lists
    of their last entries when every paired list has an entry, and raises
    [IndexError] when a paired list is empty. *)
Theorem forward_on_feature_maps (self : t) (outputs_hat outputs : list (list T1)) :
  (Forall (fun p => fst p <> [] /\ snd p <> []) (combine outputs_hat outputs) ->
   forward self (ManyFeatureMaps outputs_hat outputs)
   = forward self (Many (map (fun l => last l []) outputs_hat)
                        (map (fun l => last l []) outputs)))
  /\ (Exists (fun p => fst p = [] \/ snd p = []) (combine outputs_hat outputs) ->
      forward self (ManyFeatureMaps outputs_hat outputs) = Raise IndexError).
Proof.
  split; intros Hps; unfold forward, enumerate.
  - rewrite combine_map_last, length_map.
    now rewrite (loop_maps_as_loop self _ Hps).
  - now rewrite (loop_maps_index_error self _ Hps).
Qed.

End DiscriminatorMapsFacts.

Lemma forward_on_feature_maps_example :
  let self := DiscriminatorAdversarialLoss.mk true
                DiscriminatorAdversarialLoss._mse_fake_loss
                DiscriminatorAdversarialLoss._mse_real_loss in
  DiscriminatorAdversarialLoss.forward self
    (DiscriminatorAdversarialLoss.ManyFeatureMaps [[[5]; [0; 1]]] [[[7]; [1; 1]]])
  = DiscriminatorAdversarialLoss.forward self
      (DiscriminatorAdversarialLoss.Many [[0; 1]] [[1; 1]])
  /\ DiscriminatorAdversarialLoss.forward self
       (DiscriminatorAdversarialLoss.ManyFeatureMaps [[[5]]; []] [[[7]]; [[1]]])
     = Raise IndexError.
Proof.
  cbv zeta. split.
  - apply (DiscriminatorMapsFacts.forward_on_feature_maps _
             [[[5]; [0; 1]]] [[[7]; [1; 1]]]).
    repeat constructor; simpl; discriminate.
  - apply (DiscriminatorMapsFacts.forward_on_feature_maps _
             [[[5]]; []] [[[7]]; [[1]]]).
    right. left. left. reflexivity.
Defined.
